(** * MU-TH-UR 6000: the telemetry worker and the app controller

    A shallow embedding of [telemetry-worker.js] (the analysis engine) and of
    the controller's worker protocol, file intake, error mapping and payload
    validation, with the properties of the design document stated over it. *)

From Stdlib Require Import ZArith Lia Bool Ascii String List.
From Stdlib Require Import Floats.SpecFloat.
From stdpp Require Import base option list gmap strings sorting.

#[local] Set Warnings "-register-all".

Local Open Scope string_scope.
Local Open Scope Z_scope.

(** ** JavaScript strings

    A JavaScript string is modelled by the bytes of its UTF-8 encoding; all
    the literals of the program are ASCII. *)

Module JsString.

(** [s.includes(key)] *)
Fixpoint includes (key s : string) : bool :=
  String.prefix key s ||
  match s with
  | EmptyString => false
  | String _ s' => includes key s'
  end.

(** Canonicalisation of a character under the [i] flag of a regular
    expression without the [u] flag: the upper-case mapping, which leaves
    every code unit from 128 on apart from the ASCII letters. *)
Definition canonicalize (c : ascii) : ascii :=
  let n := nat_of_ascii c in
  if (Nat.leb 97 n && Nat.leb n 122)%bool then ascii_of_nat (n - 32) else c.

Fixpoint fold_case (s : string) : string :=
  match s with
  | EmptyString => EmptyString
  | String c s' => String (canonicalize c) (fold_case s')
  end.

(** [/w1|w2|.../i.test(s)] for literal alternatives [w1], [w2], ... *)
Definition test_i (alts : list string) (s : string) : bool :=
  existsb (fun w => includes (fold_case w) (fold_case s)) alts.

(** The order of the default [sort()] on strings (by code unit). *)
Definition le (a b : string) : Prop := String.leb a b = true.

#[global] Instance le_dec : RelDecision le.
Proof. intros a b. unfold le. apply _. Defined.

End JsString.

(** ** The controller: error mapping ([app.js]) *)

Definition ERROR_MAP : list (string * string) :=
  [ ("FILE EXCEEDS CAPACITY", "File too large. Export a smaller date range.");
    ("NO TABLES FOUND", "Not a valid EMR export (no tables detected).");
    ("INVALID SCHEMA", "Required visit/workflow data not found in this export.");
    ("WORKER BUSY", "System busy. Please wait.");
    ("WORKER CRASH", "Analysis engine crashed. Please reload.");
    ("WORKER NOT READY", "System initializing. Please try again.");
    ("READ FAILED", "Browser could not read the file. Try re-exporting.");
    ("D3 MISSING", "Visualization library failed to load (D3).") ].

Definition GENERIC_MESSAGE : string :=
  "Processing error. Please try a different export.".

(** [for (const [key, msg] of Object.entries(ERROR_MAP)) if (technical.includes(key)) return msg] *)
Fixpoint first_entry (entries : list (string * string)) (technical : string)
  : option string :=
  match entries with
  | [] => None
  | (key, msg) :: rest =>
      if JsString.includes key technical then Some msg
      else first_entry rest technical
  end.

Definition mapErrorToUser (technical : string) : string :=
  match first_entry ERROR_MAP technical with
  | Some msg => msg
  | None => GENERIC_MESSAGE
  end.

(** The reasons the worker puts in the [error] field of an [ERROR] message:
    the [throw new Error(...)] sites of [analyzeDatabase] and the busy reply of
    [onmessage]. *)
Inductive reason : Type :=
  | WORKER_NOT_READY
  | EMPTY_FILE
  | FILE_EXCEEDS_CAPACITY
  | NO_TABLES_FOUND
  | INVALID_SCHEMA
  | WORKER_BUSY.

Definition reason_code (r : reason) : string :=
  match r with
  | WORKER_NOT_READY => "WORKER_NOT_READY"
  | EMPTY_FILE => "EMPTY_FILE"
  | FILE_EXCEEDS_CAPACITY => "FILE_EXCEEDS_CAPACITY"
  | NO_TABLES_FOUND => "NO_TABLES_FOUND"
  | INVALID_SCHEMA => "INVALID_SCHEMA"
  | WORKER_BUSY => "WORKER_BUSY"
  end.

(** ** JavaScript values

    Numbers are IEEE-754 binary64 values ([spec_float] at precision 53 and
    maximal exponent 1024). Plain objects live in a store and are handled
    through references, so that an assignment to a property is seen by every
    holder of the reference; arrays are never written to by the program and
    are carried as values. *)

Definition number : Type := spec_float.

Inductive jsval : Type :=
  | JUndefined
  | JNull
  | JBool (b : bool)
  | JNumber (x : number)
  | JString (s : string)
  | JArray (elems : list jsval)
  | JObject (ref : nat).

Abbreviation heap := (gmap nat (gmap string jsval)).

Definition typeof (v : jsval) : string :=
  match v with
  | JUndefined => "undefined"
  | JNull => "object"
  | JBool _ => "boolean"
  | JNumber _ => "number"
  | JString _ => "string"
  | JArray _ => "object"
  | JObject _ => "object"
  end.

(** ToBoolean *)
Definition truthy (v : jsval) : bool :=
  match v with
  | JUndefined | JNull => false
  | JBool b => b
  | JNumber (S754_zero _) | JNumber S754_nan => false
  | JNumber _ => true
  | JString s => negb (String.eqb s "")
  | JArray _ | JObject _ => true
  end.

Definition isArray (v : jsval) : bool :=
  match v with JArray _ => true | _ => false end.

(** The own properties of the object behind a reference. *)
Definition props (h : heap) (ref : nat) : gmap string jsval :=
  default ∅ (h !! ref).

(** [v.k] for a property name [k] that is not an array index or [length]. *)
Definition get (h : heap) (v : jsval) (k : string) : jsval :=
  match v with
  | JObject ref => default JUndefined (props h ref !! k)
  | _ => JUndefined
  end.

(** [v.k = x] on a plain object. *)
Definition set (h : heap) (v : jsval) (k : string) (x : jsval) : heap :=
  match v with
  | JObject ref => <[ref := <[k := x]> (props h ref)]> h
  | _ => h
  end.

(** ** The controller: payload validation ([app.js]) *)

Record validation : Type := { ok : bool; reason_text : option string }.

(** [if (!Array.isArray(payload.k)) payload.k = [];] *)
Definition default_series (k : string) (payload : jsval) (h : heap) : heap :=
  if isArray (get h payload k) then h else set h payload k (JArray []).

Definition validatePayload (h : heap) (payload : jsval) : validation * heap :=
  if negb (truthy payload) || negb (String.eqb (typeof payload) "object") then
    ({| ok := false; reason_text := Some "No data returned from analysis engine." |}, h)
  else if negb (isArray (get h payload "visits")) then
    ({| ok := false;
        reason_text := Some "Visit series missing. Export may be incomplete." |}, h)
  else
    let h := default_series "duration" payload h in
    let h := default_series "states" payload h in
    let h := default_series "operators" payload h in
    let h := default_series "volume" payload h in
    ({| ok := true; reason_text := None |}, h).

Definition optional_series : list string :=
  ["duration"; "states"; "operators"; "volume"].

(** [state.data = { ...payload, visits }] of [handleWorkerMessage], for the
    converted visit series [visits]. *)
Definition published (h : heap) (payload : jsval) (visits : jsval)
  : gmap string jsval :=
  match payload with
  | JObject ref => <["visits" := visits]> (props h ref)
  | _ => {["visits" := visits]}
  end.

(** ** Numbers and dates of the JavaScript host *)

Module Num.

Definition prec : Z := 53.
Definition emax : Z := 1024.

(** The binary64 value nearest to an integer. *)
Definition of_Z (z : Z) : number := binary_normalize prec emax z 0 false.

(** [x > y] *)
Definition gt (x y : number) : bool := SFltb y x.

(** [x * y] *)
Definition mul (x y : number) : number := SFmul prec emax x y.

(** ToIntegerOrInfinity on a finite number: the fraction is dropped. *)
Definition truncate (x : number) : option Z :=
  match x with
  | S754_zero _ => Some 0
  | S754_finite s m e =>
      Some (cond_Zopp s (if 0 <=? e then Z.pos m * 2 ^ e else Z.pos m / 2 ^ (- e)))
  | S754_infinity _ | S754_nan => None
  end.

End Num.

(** The environment of the worker that the program reads but does not define:
    the date parser of the JavaScript engine (the time value of a string, or
    [None] for [NaN]), its local time zone adjustment [LocalTZA(t, isUTC)] in
    milliseconds, and [Number::toString]. *)
Record host : Type := {
  Date_parse : string -> option Z;
  LocalTZA : Z -> bool -> Z;
  Number_toString : number -> string;
}.

Module JsDate.

(** A [Date] object holds a time value: milliseconds since the epoch, or
    [None] for [NaN] (an invalid date). *)
Definition t : Type := option Z.

Definition msPerHour : Z := 3600000.
Definition msPerDay : Z := 86400000.

(** TimeClip *)
Definition TimeClip (x : number) : t :=
  if Num.gt (SFabs x) (Num.of_Z 8640000000000000) then None
  else Num.truncate x.

Definition clip (z : Z) : t :=
  if Z.abs z >? 8640000000000000 then None else Some z.

(** [new Date(x)] for a number [x] *)
Definition of_number (x : number) : t := TimeClip x.

(** [new Date(s)] for a string [s] *)
Definition of_string (H : host) (s : string) : t := Date_parse H s.

(** [date.setMinutes(0, 0, 0)]: minutes, seconds and milliseconds of the
    local time are set to zero. *)
Definition setMinutes_0_0_0 (H : host) (d : t) : t :=
  match d with
  | None => None
  | Some tv =>
      let local := tv + LocalTZA H tv true in
      let date := (local / msPerHour) * msPerHour in
      clip (date - LocalTZA H date false)
  end.

(** Year, month and day of a day number (days since the epoch) in the
    proleptic Gregorian calendar. *)
Definition civil (days : Z) : Z * Z * Z :=
  let z := days + 719468 in
  let era := z / 146097 in
  let doe := z - era * 146097 in
  let yoe := (doe - doe / 1460 + doe / 36524 - doe / 146096) / 365 in
  let doy := doe - (365 * yoe + yoe / 4 - yoe / 100) in
  let mp := (5 * doy + 2) / 153 in
  let d := doy - (153 * mp + 2) / 5 + 1 in
  let m := if mp <? 10 then mp + 3 else mp - 9 in
  let y := yoe + era * 400 + (if m <=? 2 then 1 else 0) in
  (y, m, d).

Definition digit (n : Z) : ascii := ascii_of_nat (48 + Z.to_nat (n mod 10)).

(** The decimal digits of [n], at least [width] of them. *)
Fixpoint digits (width : nat) (n : Z) : string :=
  match width with
  | O => EmptyString
  | S w => digits w (n / 10) ++ String (digit n) EmptyString
  end.

Definition year_string (y : Z) : string :=
  if (0 <=? y) && (y <=? 9999) then digits 4 y
  else if 0 <=? y then "+" ++ digits 6 y
  else "-" ++ digits 6 (- y).

Definition iso_string (tv : Z) : string :=
  let '(y, m, d) := civil (tv / msPerDay) in
  let ms := tv mod msPerDay in
  year_string y ++ "-" ++ digits 2 m ++ "-" ++ digits 2 d ++ "T"
    ++ digits 2 (ms / msPerHour) ++ ":" ++ digits 2 (ms / 60000 mod 60) ++ ":"
    ++ digits 2 (ms / 1000 mod 60) ++ "." ++ digits 3 (ms mod 1000) ++ "Z".

(** [date.toISOString()]; [None] stands for the [RangeError] thrown on an
    invalid date. *)
Definition toISOString (d : t) : option string := iso_string <$> d.

End JsDate.

(** ** The embedded database engine (sql.js)

    The engine is used through four statements whose text is fixed by the
    worker. A database is what the engine finds in the bytes it was given: the
    rows of [sqlite_master] in the order the engine reports them, each table
    with its declared columns and its rows in storage order, each view with
    the columns and rows its query yields. *)

Inductive sqlval : Type :=
  | SNull
  | SInteger (z : Z)
  | SReal (x : number)
  | SText (s : string)
  | SBlob (bytes : list Byte.byte).

Record table : Type := {
  tbl_name : string;
  tbl_columns : list string;
  tbl_rows : list (list sqlval);
}.

(** A row of [sqlite_master]: a table, a view, or an object of another type
    (index, trigger). *)
Inductive schema_object : Type :=
  | Table (t : table)
  | View (t : table)
  | Other (type name : string).

Abbreviation database := (list schema_object).

Module Sql.

(** An extended dyadic number [m * 2^e], the common measure of INTEGER and
    REAL values. *)
Inductive numeric : Type :=
  | NegInf
  | Fin (m e : Z)
  | PosInf.

Definition numeric_of_real (x : number) : numeric :=
  match x with
  | S754_zero _ => Fin 0 0
  | S754_finite s m e => Fin (cond_Zopp s (Z.pos m)) e
  | S754_infinity true => NegInf
  | S754_infinity false => PosInf
  | S754_nan => NegInf
  end.

Definition numeric_compare (a b : numeric) : comparison :=
  match a, b with
  | NegInf, NegInf => Eq
  | NegInf, _ => Lt
  | _, NegInf => Gt
  | PosInf, PosInf => Eq
  | PosInf, _ => Gt
  | _, PosInf => Lt
  | Fin m1 e1, Fin m2 e2 =>
      let e := Z.min e1 e2 in
      Z.compare (m1 * 2 ^ (e1 - e)) (m2 * 2 ^ (e2 - e))
  end.

Fixpoint bytes_compare (a b : list Byte.byte) : comparison :=
  match a, b with
  | [], [] => Eq
  | [], _ :: _ => Lt
  | _ :: _, [] => Gt
  | x :: a', y :: b' =>
      match N.compare (Byte.to_N x) (Byte.to_N y) with
      | Eq => bytes_compare a' b'
      | c => c
      end
  end.

(** The order of values of mixed storage classes under the BINARY collation:
    NULL, then numbers by value, then text, then blobs. *)
Definition compare (a b : sqlval) : comparison :=
  match a, b with
  | SNull, SNull => Eq
  | SNull, _ => Lt
  | _, SNull => Gt
  | SInteger x, SInteger y => Z.compare x y
  | SInteger x, SReal y => numeric_compare (Fin x 0) (numeric_of_real y)
  | SReal x, SInteger y => numeric_compare (numeric_of_real x) (Fin y 0)
  | SReal x, SReal y => numeric_compare (numeric_of_real x) (numeric_of_real y)
  | (SInteger _ | SReal _), _ => Lt
  | _, (SInteger _ | SReal _) => Gt
  | SText x, SText y => String.compare x y
  | SText _, SBlob _ => Lt
  | SBlob _, SText _ => Gt
  | SBlob x, SBlob y => bytes_compare x y
  end.

Definition eqb (a b : sqlval) : bool :=
  match compare a b with Eq => true | _ => false end.

Definition leb (a b : sqlval) : bool :=
  match compare a b with Gt => false | _ => true end.

(** [typeof(v) IN ('integer','real')] *)
Definition is_numeric (v : sqlval) : bool :=
  match v with SInteger _ | SReal _ => true | _ => false end.

(** [name LIKE 'sqlite_%']: the six letters in either case, then at least one
    more character. *)
Definition like_sqlite_ (name : string) : bool :=
  String.eqb (JsString.fold_case (String.substring 0 6 name)) "SQLITE"
  && Nat.ltb 6 (String.length name).

(** Names of tables and columns are compared without regard to the case of
    the ASCII letters. *)
Definition same_name (a b : string) : bool :=
  String.eqb (JsString.fold_case a) (JsString.fold_case b).

(** The table or view that [name] stands for in [FROM name] and in
    [PRAGMA table_info(name)]. The schema table of the engine itself
    ([sqlite_master] and its aliases) is no row of [sqlite_master] and is not
    resolved here; the worker never names it, since [listTables] leaves out
    the names that start with sqlite and one more character. *)
Definition find_table (d : database) (name : string) : option table :=
  head (omap (fun o => match o with
                       | Table t | View t =>
                           if same_name (tbl_name t) name then Some t else None
                       | Other _ _ => None
                       end) d).

Fixpoint index_of (c : string) (cols : list string) : option nat :=
  match cols with
  | [] => None
  | c' :: rest => if same_name c' c then Some O else S <$> index_of c rest
  end.

(** The values of column [c] of [t], row by row. *)
Definition column (t : table) (c : string) : option (list sqlval) :=
  (fun i => map (fun row => nth i row SNull) (tbl_rows t)) <$> index_of c (tbl_columns t).

(** [GROUP BY c] with [COUNT( * )]: one group per distinct value, in the order
    of first occurrence. *)
Fixpoint bump (v : sqlval) (groups : list (sqlval * nat)) : list (sqlval * nat) :=
  match groups with
  | [] => [(v, 1%nat)]
  | (k, n) :: rest => if eqb k v then (k, S n) :: rest else (k, n) :: bump v rest
  end.

Definition group_count (vals : list sqlval) : list (sqlval * nat) :=
  fold_left (fun groups v => bump v groups) vals [].

(** A stable insertion sort. *)
Section Sort.
Context {A : Type} (le : A -> A -> bool).

Fixpoint insert_sorted (x : A) (l : list A) : list A :=
  match l with
  | [] => [x]
  | y :: l' => if le x y then x :: l else y :: insert_sorted x l'
  end.

Definition sort (l : list A) : list A := foldr insert_sorted [] l.
End Sort.

End Sql.

(** What the worker leaves to the engine: the decoding of the file ([None] when
    the bytes are not a database), the order of [ORDER BY c ASC], the order
    in which [ORDER BY COUNT( * ) DESC] lists the groups, and the order in
    which a query that asks for none visits the rows of a table:
    [scan_before table c (i, v) (j, u)] tells whether the row stored [i]-th,
    with [v] in column [c], is visited before the row stored [j]-th with [u].
    How the engine walks a table (the table itself, or an index on the
    column) depends on the indexes of the file; it is part of the engine
    here. *)
Record sql_engine : Type := {
  open_database : list Byte.byte -> option database;
  order_by_asc : list sqlval -> list sqlval;
  order_by_count_desc : list (sqlval * nat) -> list (sqlval * nat);
  scan_before : string -> string -> nat * sqlval -> nat * sqlval -> bool;
}.

(** The values of column [col] of [table] in the order in which the engine
    visits the rows when the query has no [ORDER BY]: the stored rows, sorted
    by [scan_before]. *)
Definition visited (E : sql_engine) (table col : string) (vals : list sqlval)
  : list sqlval :=
  map snd (Sql.sort (scan_before E table col) (imap (fun i v => (i, v)) vals)).

(** The engines that order as SQL requires. *)
Record sql_conforming (E : sql_engine) : Prop := {
  order_by_asc_perm : forall l, order_by_asc E l ≡ₚ l;
  order_by_asc_sorted : forall l, Sorted (fun a b => Sql.leb a b = true) (order_by_asc E l);
  order_by_count_desc_perm : forall g, order_by_count_desc E g ≡ₚ g;
  order_by_count_desc_sorted :
    forall g, Sorted (fun a b => (snd b <= snd a)%nat) (order_by_count_desc E g);
}.

(** SQLite as sql.js ships it, on a file without an index on the columns the
    worker reads: the rows of a table are visited as they are stored, rows of
    equal sort key leave [ORDER BY c ASC] in that order, and groups of equal
    count leave [ORDER BY COUNT( * ) DESC] in descending order of their key. *)
Definition sqlite (decode : list Byte.byte -> option database) : sql_engine := {|
  open_database := decode;
  order_by_asc := Sql.sort Sql.leb;
  order_by_count_desc := fun g =>
    Sql.sort (fun a b => Nat.leb (snd b) (snd a))
      (rev (Sql.sort (fun a b => Sql.leb (fst a) (fst b)) g));
  scan_before := fun _ _ _ _ => true;
|}.

(** SQLite answering from an ascending index on the column the query reads:
    the rows are visited in the order of the index (by value, rows of equal
    value as they are stored), and groups of equal count leave
    [ORDER BY COUNT( * ) DESC] in ascending order of their key, NULL first. *)
Definition sqlite_indexed (decode : list Byte.byte -> option database) : sql_engine := {|
  open_database := decode;
  order_by_asc := Sql.sort Sql.leb;
  order_by_count_desc := fun g =>
    Sql.sort (fun a b => Nat.leb (snd b) (snd a))
      (Sql.sort (fun a b => Sql.leb (fst a) (fst b)) g);
  scan_before := fun _ _ a b => Sql.leb (snd a) (snd b);
|}.

(** ** The telemetry worker ([telemetry-worker.js]) *)

(** What a statement of the worker can throw: an [Error] of the worker with
    one of its reasons, an error of the engine, the [RangeError] of
    [toISOString] on an invalid date, or the [TypeError] of a call on [null]. *)
Inductive error : Type :=
  | Reason (r : reason)
  | EngineError (message : string)
  | RangeError (message : string)
  | TypeError (message : string).

(** [err.message] *)
Definition error_message (e : error) : string :=
  match e with
  | Reason r => reason_code r
  | EngineError m | RangeError m | TypeError m => m
  end.

Inductive result (A : Type) : Type :=
  | Ok (a : A)
  | Throw (e : error).
Arguments Ok {A} a.
Arguments Throw {A} e.

#[global] Instance result_bind : MBind result := fun A B k r =>
  match r with
  | Ok a => k a
  | Throw e => Throw e
  end.

(** The values [stmt.get()] hands to the worker. *)
Inductive cell : Type :=
  | Null
  | Num (x : number)
  | Str (s : string)
  | Bytes (b : list Byte.byte).

Definition cell_of (v : sqlval) : cell :=
  match v with
  | SNull => Null
  | SInteger z => Num (Num.of_Z z)
  | SReal x => Num x
  | SText s => Str s
  | SBlob b => Bytes b
  end.

Definition decimal (n : Z) : string :=
  if n <? 10 then JsDate.digits 1 n
  else if n <? 100 then JsDate.digits 2 n
  else JsDate.digits 3 n.

(** [String(bytes)] for a [Uint8Array]: the elements in decimal, joined by commas. *)
Fixpoint join_bytes (b : list Byte.byte) : string :=
  match b with
  | [] => ""
  | [x] => decimal (Z.of_N (Byte.to_N x))
  | x :: rest => decimal (Z.of_N (Byte.to_N x)) ++ "," ++ join_bytes rest
  end.

Module Visit.
Record t : Type := { date : string; value : nat }.
End Visit.

Module Sample.
Record t : Type := { index : nat; value : number }.
End Sample.

Module StateCount.
Record t : Type := { category : string; value : nat }.
End StateCount.

Module OperatorCount.
Record t : Type := { name : string; value : nat }.
End OperatorCount.

Record AggregateResult : Type := {
  visits : list Visit.t;
  duration : list Sample.t;
  states : list StateCount.t;
  operators : list OperatorCount.t;
  volume : list jsval;
}.

Definition MAX_DB_BYTES : Z := 100 * 1024 * 1024.
Definition MAX_ROWS_SCAN : nat := 5000.
Definition MAX_GROUP_ROWS : nat := 50.

(** The state of the worker: [SQL] is set once sql.js is initialised, [db] is
    the handle the worker holds, [busy] the job flag. [handles] are the
    database handles that are open in the engine, each with what the engine
    decoded from its bytes, and [opened] counts the handles opened so far. *)
Record worker : Type := {
  SQL : bool;
  db : option nat;
  busy : bool;
  handles : gmap nat (option database);
  opened : nat;
}.

Definition closeDb (w : worker) : worker :=
  match db w with
  | Some i =>
      {| SQL := SQL w; db := None; busy := busy w;
         handles := delete i (handles w); opened := opened w |}
  | None => w
  end.

(** [db = new SQL.Database(new Uint8Array(buffer))] *)
Definition openDb (E : sql_engine) (bytes : list Byte.byte) (w : worker) : worker :=
  {| SQL := SQL w; db := Some (opened w); busy := busy w;
     handles := <[opened w := open_database E bytes]> (handles w);
     opened := S (opened w) |}.

(** [db.prepare(...)]: the database behind the handle the worker holds. *)
Definition prepare (w : worker) : result database :=
  match db w with
  | None => Throw (TypeError "Cannot read properties of null (reading 'prepare')")
  | Some i =>
      match handles w !! i with
      | Some (Some d) => Ok d
      | Some None => Throw (EngineError "file is not a database")
      | None => Throw (EngineError "Database closed")
      end
  end.

(** The rows of
    [SELECT name FROM sqlite_master WHERE type='table' AND name NOT LIKE 'sqlite_%']. *)
Definition table_names (d : database) : list string :=
  omap (fun o => match o with
                 | Table t =>
                     if Sql.like_sqlite_ (tbl_name t) then None else Some (tbl_name t)
                 | View _ | Other _ _ => None
                 end) d.

Definition listTables (w : worker) : result (list string) :=
  d ← prepare w;
  Ok (table_names d).

Definition listColumns (w : worker) (table : string) : result (list string) :=
  d ← prepare w;
  Ok (match Sql.find_table d table with
      | Some t => tbl_columns t
      | None => []
      end).

(** The values of [SELECT col FROM table], before any clause is applied. The
    worker asks only for columns that [listColumns] has reported for the
    table; a name the table does not declare is outside this model, which
    stops there with an error (the engine would read such a quoted name as
    the row id or as a text). *)
Definition select (w : worker) (table col : string) : result (list sqlval) :=
  d ← prepare w;
  match Sql.find_table d table with
  | None => Throw (EngineError ("no such table: " ++ table))
  | Some t =>
      match Sql.column t col with
      | None => Throw (EngineError ("no such column: " ++ col))
      | Some vals => Ok vals
      end
  end.

Definition normalizeDate (H : host) (value : cell) : option JsDate.t :=
  let generic (d : JsDate.t) := match d with None => None | Some _ => Some d end in
  match value with
  | Null => None
  | Num x =>
      if Num.gt x (Num.of_Z 1000000000000) then Some (JsDate.of_number x)
      else if Num.gt x (Num.of_Z 1000000000) then
        Some (JsDate.of_number (Num.mul x (Num.of_Z 1000)))
      else generic (JsDate.of_number x)
  | Str s => generic (JsDate.of_string H s)
  | Bytes b => generic (JsDate.of_string H (join_bytes b))
  end.

(** [date.setMinutes(0, 0, 0); const key = date.toISOString();] *)
Definition hour_key (H : host) (date : JsDate.t) : result string :=
  match JsDate.toISOString (JsDate.setMinutes_0_0_0 H date) with
  | Some key => Ok key
  | None => Throw (RangeError "Invalid time value")
  end.

(** The [while (stmt.step())] loop of [buildVisits]. *)
Fixpoint scan_visits (H : host) (rows : list cell) (buckets : gmap string nat)
  : result (gmap string nat) :=
  match rows with
  | [] => Ok buckets
  | raw :: rest =>
      match normalizeDate H raw with
      | None => scan_visits H rest buckets
      | Some date =>
          key ← hour_key H date;
          scan_visits H rest (<[key := S (default O (buckets !! key))]> buckets)
      end
  end.

(** [l.slice(-n)] *)
Definition slice_last {A : Type} (n : nat) (l : list A) : list A :=
  drop (length l - n) l.

(** [Object.keys(buckets).sort()] *)
Definition sorted_keys (buckets : gmap string nat) : list string :=
  merge_sort JsString.le (map fst (map_to_list buckets)).

Definition buildVisits (H : host) (E : sql_engine) (w : worker) (table col : string)
  : result (list Visit.t) :=
  vals ← select w table col;
  let rows := take MAX_ROWS_SCAN (order_by_asc E vals) in
  buckets ← scan_visits H (map cell_of rows) ∅;
  Ok (map (fun k => {| Visit.date := k; Visit.value := default O (buckets !! k) |})
          (slice_last 24 (sorted_keys buckets))).

Fixpoint number_from (i : nat) (rows : list sqlval) : list Sample.t :=
  match rows with
  | [] => []
  | v :: rest =>
      {| Sample.index := i;
         Sample.value := match cell_of v with Num x => x | _ => S754_nan end |}
      :: number_from (S i) rest
  end.

Definition buildDuration (E : sql_engine) (w : worker) (table col : string)
  : result (list Sample.t) :=
  vals ← select w table col;
  Ok (number_from O
        (take 100 (filter (fun v => Sql.is_numeric v = true) (visited E table col vals)))).

(** [String(k ?? fallback)] *)
Definition label (H : host) (fallback : string) (k : cell) : string :=
  match k with
  | Null => fallback
  | Num x => Number_toString H x
  | Str s => s
  | Bytes b => join_bytes b
  end.

(** The rows of [SELECT col, COUNT( * ) ... GROUP BY col ORDER BY COUNT( * ) DESC LIMIT ?]
    with [MAX_GROUP_ROWS] bound to the parameter. *)
Definition grouped (E : sql_engine) (w : worker) (table col : string)
  : result (list (sqlval * nat)) :=
  vals ← select w table col;
  Ok (take MAX_GROUP_ROWS (order_by_count_desc E (Sql.group_count vals))).

Definition buildStates (H : host) (E : sql_engine) (w : worker) (table col : string)
  : result (list StateCount.t) :=
  rows ← grouped E w table col;
  Ok (map (fun '(k, v) =>
             {| StateCount.category := label H "UNKNOWN" (cell_of k);
                StateCount.value := v |}) rows).

Definition buildOperators (H : host) (E : sql_engine) (w : worker) (table col : string)
  : result (list OperatorCount.t) :=
  rows ← grouped E w table col;
  Ok (map (fun '(k, v) =>
             {| OperatorCount.name := label H "SYSTEM" (cell_of k);
                OperatorCount.value := v |}) rows).

Definition TIME_PATTERN : list string := ["time"; "date"; "created"; "timestamp"].
Definition DURATION_PATTERN : list string := ["duration"; "min"; "ms"; "length"].
Definition OPERATOR_PATTERN : list string :=
  ["staff"; "user"; "operator"; "agent"; "doctor"; "nurse"].
Definition STATUS_PATTERN : list string := ["status"; "state"; "type"; "category"].
Definition TABLE_PATTERN : list string :=
  ["event"; "visit"; "patient"; "log"; "telemetry"].

(** [cond ? build(...) : []] *)
Definition series {A : Type} (col : option string) (build : string -> result (list A))
  : result (list A) :=
  match col with
  | Some c => build c
  | None => Ok []
  end.

Definition aggregateTable (H : host) (E : sql_engine) (w : worker) (table : string)
  : result AggregateResult :=
  columns ← listColumns w table;
  let colTime := find (JsString.test_i TIME_PATTERN) columns in
  let colDur := find (JsString.test_i DURATION_PATTERN) columns in
  let colOp := find (JsString.test_i OPERATOR_PATTERN) columns in
  let colStat := find (JsString.test_i STATUS_PATTERN) columns in
  visits ← series colTime (buildVisits H E w table);
  duration ← series colDur (buildDuration E w table);
  states ← series colStat (buildStates H E w table);
  operators ← series colOp (buildOperators H E w table);
  Ok {| visits := visits; duration := duration; states := states;
        operators := operators; volume := [] |}.

(** [analyzeDatabase(buffer)]; [None] is a message without a buffer. The
    result comes with the state of the worker when the call exits. *)
Definition analyzeDatabase (H : host) (E : sql_engine) (w : worker)
    (buffer : option (list Byte.byte)) : result AggregateResult * worker :=
  if negb (SQL w) then (Throw (Reason WORKER_NOT_READY), w)
  else
    match buffer with
    | None => (Throw (Reason EMPTY_FILE), w)
    | Some bytes =>
        if (length bytes =? 0)%nat then (Throw (Reason EMPTY_FILE), w)
        else if Z.of_nat (length bytes) >? MAX_DB_BYTES then
          (Throw (Reason FILE_EXCEEDS_CAPACITY), w)
        else
          let w := openDb E bytes (closeDb w) in
          (tables ← listTables w;
           if (length tables =? 0)%nat then Throw (Reason NO_TABLES_FOUND)
           else
             match find (JsString.test_i TABLE_PATTERN) tables with
             | None => Throw (Reason INVALID_SCHEMA)
             | Some mainTable =>
                 if String.eqb mainTable "" then Throw (Reason INVALID_SCHEMA)
                 else aggregateTable H E w mainTable
             end,
           w)
    end.

(** The messages of the worker protocol. *)
Inductive request : Type :=
  | ANALYZE (buffer : option (list Byte.byte))
  | OTHER.

Inductive response : Type :=
  | READY
  | ANALYSIS_COMPLETE (payload : AggregateResult)
  | ERROR (error : string).

(** [onmessage], up to its [await]: the reply to post at once, or the settled
    promise of [analyzeDatabase] the handler then waits on. *)
Inductive suspended : Type :=
  | Returned (posts : list response)
  | Awaiting (outcome : result AggregateResult).

Definition onmessage_begin (H : host) (E : sql_engine) (w : worker) (req : request)
  : suspended * worker :=
  match req with
  | OTHER => (Returned [], w)
  | ANALYZE buffer =>
      if busy w then (Returned [ERROR "WORKER_BUSY"], w)
      else
        let w := {| SQL := SQL w; db := db w; busy := true;
                    handles := handles w; opened := opened w |} in
        let '(outcome, w) := analyzeDatabase H E w buffer in
        (Awaiting outcome, w)
  end.

(** [onmessage], from its [await] on: the reply is posted and [finally]
    clears the flag. *)
Definition onmessage_resume (w : worker) (outcome : result AggregateResult)
  : list response * worker :=
  (match outcome with
   | Ok result => [ANALYSIS_COMPLETE result]
   | Throw err => [ERROR (error_message err)]
   end,
   {| SQL := SQL w; db := db w; busy := false;
      handles := handles w; opened := opened w |}).

(** A whole run of the handler, with no other message of the worker in between. *)
Definition onmessage (H : host) (E : sql_engine) (w : worker) (req : request)
  : list response * worker :=
  match onmessage_begin H E w req with
  | (Returned posts, w) => (posts, w)
  | (Awaiting outcome, w) => onmessage_resume w outcome
  end.

(** ** The controller ([app.js]): worker supervision, file intake, messages *)

Inductive STATUS : Type := IDLE | RECEIVED | PROCESSING | VALID | INVALID.

Definition MAX_FILE_BYTES : Z := 100 * 1024 * 1024.
Definition MAX_WORKER_RESTARTS : nat := 1.

(** The fields of [state] that the worker protocol and the file lifecycle
    read or write, with the text [ui.setStatus] shows. [has_worker] is
    [state.worker] being set, [workerBootTimer] the boot timer being armed. *)
Record app_state : Type := {
  has_worker : bool;
  workerReady : bool;
  workerBootTimer : bool;
  workerRestarts : nat;
  status : STATUS;
  message : string;
  data : option (gmap string jsval);
  isProcessing : bool;
}.

Definition setStatus (code : STATUS) (text : string) (a : app_state) : app_state :=
  {| has_worker := has_worker a; workerReady := workerReady a;
     workerBootTimer := workerBootTimer a; workerRestarts := workerRestarts a;
     status := code; message := text; data := data a;
     isProcessing := isProcessing a |}.

Definition set_isProcessing (b : bool) (a : app_state) : app_state :=
  {| has_worker := has_worker a; workerReady := workerReady a;
     workerBootTimer := workerBootTimer a; workerRestarts := workerRestarts a;
     status := status a; message := message a; data := data a;
     isProcessing := b |}.

Definition set_data (d : gmap string jsval) (a : app_state) : app_state :=
  {| has_worker := has_worker a; workerReady := workerReady a;
     workerBootTimer := workerBootTimer a; workerRestarts := workerRestarts a;
     status := status a; message := message a; data := Some d;
     isProcessing := isProcessing a |}.

(** What a handler of the controller asks of the page besides updating
    [state]: a new [Worker] (the old one is terminated), a [FileReader] on a
    file, a message to the worker. *)
Inductive action : Type :=
  | SpawnWorker
  | StartRead (bytes : list Byte.byte)
  | PostToWorker (req : request).

(** [initWorker()]: teardown of the old worker, then a new one with its boot
    timer. *)
Definition initWorker (a : app_state) : app_state * list action :=
  ({| has_worker := true; workerReady := false; workerBootTimer := true;
      workerRestarts := workerRestarts a; status := status a;
      message := message a; data := data a; isProcessing := isProcessing a |},
   [SpawnWorker]).

Definition maybeRestartWorker (a : app_state) : app_state * list action :=
  if (MAX_WORKER_RESTARTS <=? workerRestarts a)%nat then (a, [])
  else
    initWorker
      {| has_worker := has_worker a; workerReady := workerReady a;
         workerBootTimer := workerBootTimer a;
         workerRestarts := S (workerRestarts a); status := status a;
         message := message a; data := data a; isProcessing := isProcessing a |}.

(** The callback of the boot timer. *)
Definition onBootTimeout (a : app_state) : app_state * list action :=
  let a := {| has_worker := has_worker a; workerReady := workerReady a;
              workerBootTimer := false; workerRestarts := workerRestarts a;
              status := status a; message := message a; data := data a;
              isProcessing := isProcessing a |} in
  if workerReady a then (a, [])
  else maybeRestartWorker (setStatus INVALID "System Failure" a).

Definition lookup_ERROR_MAP (key : string) : option string :=
  snd <$> find (fun entry => String.eqb (fst entry) key) ERROR_MAP.

Definition onWorkerCrash (reasonKey : string) (a : app_state) : app_state * list action :=
  let a := set_isProcessing false a in
  let text := match lookup_ERROR_MAP reasonKey with
              | Some msg => if String.eqb msg "" then "Worker failure" else msg
              | None => "Worker failure"
              end in
  maybeRestartWorker (setStatus INVALID text a).

(** [handleFileUpload(e)] for the first file of the input, if any; the file is
    given by its bytes, [file.size] is their number. *)
Definition handleFileUpload (file : option (list Byte.byte)) (a : app_state)
  : app_state * list action :=
  match file with
  | None => (a, [])
  | Some bytes =>
      if isProcessing a then (a, [])
      else if Z.of_nat (length bytes) >? MAX_FILE_BYTES then
        (setStatus INVALID "File too large" a, [])
      else
        let a := setStatus RECEIVED "File received" a in
        if negb (has_worker a) || negb (workerReady a) then
          maybeRestartWorker (setStatus INVALID "System initializing" a)
        else
          let a := set_isProcessing true a in
          (setStatus PROCESSING "Analyzing EMR database…" a, [StartRead bytes])
  end.

(** [reader.onerror] *)
Definition onReadError (a : app_state) : app_state * list action :=
  (setStatus INVALID "Read Failed" (set_isProcessing false a), []).

(** [reader.onload]: the bytes are posted to the worker; a failing
    [postMessage] (there is no worker) is caught. *)
Definition onReadLoad (bytes : list Byte.byte) (a : app_state) : app_state * list action :=
  if has_worker a then (a, [PostToWorker (ANALYZE (Some bytes))])
  else (setStatus INVALID "Transfer Failed" (set_isProcessing false a), []).

(** A message of the worker as the controller reads it: its [type] with the
    [payload] or [error] field. *)
Inductive page_message : Type :=
  | PReady
  | PComplete (payload : jsval)
  | PError (error : jsval)
  | POther.

(** The coercions of the page that [handleWorkerMessage] applies to one
    element of the visit series:
    [(d) => ({ date: toSafeDate(d.date), value: Number(d.value) || 0 })];
    [None] is the [TypeError] of reading a property of [null] or [undefined]. *)
Record page_host : Type := {
  visit_point : heap -> jsval -> option jsval;
}.

Definition array_elems (v : jsval) : list jsval :=
  match v with JArray elems => elems | _ => [] end.

Definition handleWorkerMessage (P : page_host) (msg : page_message)
    (a : app_state) (h : heap) : app_state * heap :=
  match msg with
  | PReady =>
      ({| has_worker := has_worker a; workerReady := true; workerBootTimer := false;
          workerRestarts := workerRestarts a; status := status a;
          message := message a; data := data a; isProcessing := isProcessing a |}, h)
  | PComplete payload =>
      let a := set_isProcessing false a in
      let '(validated, h) := validatePayload h payload in
      if negb (ok validated) then (setStatus INVALID "Invalid export format" a, h)
      else
        match mapM (visit_point P h) (array_elems (get h payload "visits")) with
        | None => (a, h)
        | Some visits =>
            (setStatus VALID "Data loaded"
               (set_data (published h payload (JArray visits)) a), h)
        end
  | PError error =>
      let a := set_isProcessing false a in
      let technical := match error with JString s => s | _ => "Unknown error" end in
      (setStatus INVALID (mapErrorToUser technical) a, h)
  | POther => (a, h)
  end.

(** ** The page and its worker as one system *)

(** [postMessage] hands the controller a structured clone of the result:
    fresh objects in the store of the page. *)
Definition alloc (o : gmap string jsval) (h : heap) : jsval * heap :=
  let ref := fresh (dom h) in
  (JObject ref, <[ref := o]> h).

Fixpoint alloc_all (objs : list (gmap string jsval)) (h : heap) : list jsval * heap :=
  match objs with
  | [] => ([], h)
  | o :: rest =>
      let '(v, h) := alloc o h in
      let '(vs, h) := alloc_all rest h in
      (v :: vs, h)
  end.

Definition of_count (n : nat) : jsval := JNumber (Num.of_Z (Z.of_nat n)).

Definition clone_result (r : AggregateResult) (h : heap) : jsval * heap :=
  let '(vs, h) :=
    alloc_all (map (fun v => {["date" := JString (Visit.date v);
                               "value" := of_count (Visit.value v)]}) (visits r)) h in
  let '(ds, h) :=
    alloc_all (map (fun d => {["index" := of_count (Sample.index d);
                               "value" := JNumber (Sample.value d)]}) (duration r)) h in
  let '(ss, h) :=
    alloc_all (map (fun s => {["category" := JString (StateCount.category s);
                               "value" := of_count (StateCount.value s)]}) (states r)) h in
  let '(os, h) :=
    alloc_all (map (fun o => {["name" := JString (OperatorCount.name o);
                               "value" := of_count (OperatorCount.value o)]}) (operators r)) h in
  alloc {["visits" := JArray vs; "duration" := JArray ds; "states" := JArray ss;
          "operators" := JArray os; "volume" := JArray (volume r)]} h.

Definition deliver (r : response) (h : heap) : page_message * heap :=
  match r with
  | READY => (PReady, h)
  | ANALYSIS_COMPLETE result =>
      let '(payload, h) := clone_result result h in (PComplete payload, h)
  | ERROR error => (PError (JString error), h)
  end.

(** The life of a worker: its script is loading and sql.js initialising
    ([Booting]); it runs its message loop ([Running]); its script failed and
    the [error] event is on its way to the page ([Crashed]) or has been
    handled ([Dead]). *)
Inductive phase : Type := Booting | Running | Crashed | Dead.

Record worker_thread : Type := {
  stage : phase;
  globals : worker;
  awaiting : option (result AggregateResult);
}.

Definition new_thread : worker_thread :=
  {| stage := Booting;
     globals := {| SQL := false; db := None; busy := false; handles := ∅; opened := O |};
     awaiting := None |}.

(** The controller, the store of the page, the worker thread, the messages
    posted to the worker and by the worker that wait for their handler, and
    the file readers at work. *)
Record system : Type := {
  app : app_state;
  page : heap;
  thread : worker_thread;
  inbox : list request;
  outbox : list response;
  readers : list (list Byte.byte);
}.

Definition accepts_messages (t : worker_thread) : bool :=
  match stage t with Booting | Running => true | Crashed | Dead => false end.

(** Terminating a worker discards what it posted and what was posted to it. *)
Definition perform (s : system) (act : action) : system :=
  match act with
  | SpawnWorker =>
      {| app := app s; page := page s; thread := new_thread;
         inbox := []; outbox := []; readers := readers s |}
  | StartRead bytes =>
      {| app := app s; page := page s; thread := thread s;
         inbox := inbox s; outbox := outbox s; readers := readers s ++ [bytes] |}
  | PostToWorker req =>
      {| app := app s; page := page s; thread := thread s;
         inbox := if accepts_messages (thread s) then inbox s ++ [req] else inbox s;
         outbox := outbox s; readers := readers s |}
  end.

Definition with_app (s : system) (r : app_state * list action) : system :=
  foldl perform
    {| app := fst r; page := page s; thread := thread s;
       inbox := inbox s; outbox := outbox s; readers := readers s |} (snd r).

Definition with_thread (s : system) (t : worker_thread) (posts : list response) : system :=
  {| app := app s; page := page s; thread := t;
     inbox := inbox s; outbox := outbox s ++ posts; readers := readers s |}.

Inductive event : Type :=
  | FileSelected (file : option (list Byte.byte))
  | ReadLoad (i : nat)
  | ReadError (i : nat)
  | BootTimer
  | WorkerError
  | AppMessage
  | InitResolved
  | InitRejected (why : string)
  | ScriptError
  | WorkerMessage
  | WorkerResume.

Section System.
Context (H : host) (E : sql_engine) (P : page_host).

(** One event of the page or of the worker; [None] when the event cannot
    occur in the state. The only exception that escapes the worker is a
    failure while its script loads: [init] and [onmessage] catch the rest. *)
Definition step (ev : event) (s : system) : option system :=
  match ev with
  | FileSelected file => Some (with_app s (handleFileUpload file (app s)))
  | ReadLoad i =>
      bytes ← readers s !! i;
      Some (with_app
              {| app := app s; page := page s; thread := thread s; inbox := inbox s;
                 outbox := outbox s; readers := delete i (readers s) |}
              (onReadLoad bytes (app s)))
  | ReadError i =>
      _ ← readers s !! i;
      Some (with_app
              {| app := app s; page := page s; thread := thread s; inbox := inbox s;
                 outbox := outbox s; readers := delete i (readers s) |}
              (onReadError (app s)))
  | BootTimer =>
      if workerBootTimer (app s) then Some (with_app s (onBootTimeout (app s)))
      else None
  | WorkerError =>
      match stage (thread s) with
      | Crashed =>
          Some (with_app
                  {| app := app s; page := page s;
                     thread := {| stage := Dead; globals := globals (thread s);
                                  awaiting := awaiting (thread s) |};
                     inbox := inbox s; outbox := outbox s; readers := readers s |}
                  (onWorkerCrash "WORKER CRASH" (app s)))
      | _ => None
      end
  | AppMessage =>
      match outbox s with
      | [] => None
      | r :: rest =>
          let '(msg, h) := deliver r (page s) in
          let '(a, h) := handleWorkerMessage P msg (app s) h in
          Some {| app := a; page := h; thread := thread s; inbox := inbox s;
                  outbox := rest; readers := readers s |}
      end
  | InitResolved =>
      match stage (thread s) with
      | Booting =>
          let w := globals (thread s) in
          Some (with_thread s
                  {| stage := Running;
                     globals := {| SQL := true; db := db w; busy := busy w;
                                   handles := handles w; opened := opened w |};
                     awaiting := awaiting (thread s) |}
                  [READY])
      | _ => None
      end
  | InitRejected why =>
      match stage (thread s) with
      | Booting =>
          Some (with_thread s
                  {| stage := Running; globals := globals (thread s);
                     awaiting := awaiting (thread s) |}
                  [ERROR ("INIT_FAILED: " ++ why)])
      | _ => None
      end
  | ScriptError =>
      match stage (thread s) with
      | Booting =>
          Some (with_thread s
                  {| stage := Crashed; globals := globals (thread s);
                     awaiting := awaiting (thread s) |} [])
      | _ => None
      end
  | WorkerMessage =>
      match inbox s with
      | [] => None
      | req :: rest =>
          if accepts_messages (thread s) then
            let s := {| app := app s; page := page s; thread := thread s;
                        inbox := rest; outbox := outbox s; readers := readers s |} in
            match onmessage_begin H E (globals (thread s)) req with
            | (Returned posts, w) =>
                Some (with_thread s
                        {| stage := stage (thread s); globals := w;
                           awaiting := awaiting (thread s) |} posts)
            | (Awaiting outcome, w) =>
                Some (with_thread s
                        {| stage := stage (thread s); globals := w;
                           awaiting := Some outcome |} [])
            end
          else None
      end
  | WorkerResume =>
      match awaiting (thread s) with
      | None => None
      | Some outcome =>
          let '(posts, w) := onmessage_resume (globals (thread s)) outcome in
          Some (with_thread s
                  {| stage := stage (thread s); globals := w; awaiting := None |} posts)
      end
  end.

Definition steps (s s' : system) : Prop := exists ev, step ev s = Some s'.

(** The page after [bootstrap()], showing the demonstration data [demo]. *)
Definition initial (demo : gmap string jsval) : system :=
  {| app := {| has_worker := true; workerReady := false; workerBootTimer := true;
               workerRestarts := O; status := IDLE;
               message := "Waiting for data input"; data := Some demo;
               isProcessing := false |};
     page := ∅; thread := new_thread; inbox := []; outbox := []; readers := [] |}.

Definition reachable (s : system) : Prop := exists demo, rtc steps (initial demo) s.

End System.

Definition is_reply (r : response) : bool :=
  match r with READY => false | ANALYSIS_COMPLETE _ | ERROR _ => true end.

(** The jobs under way: files being read, requests the worker has not taken
    up, the analysis whose reply the worker has not posted, and replies the
    controller has not handled. *)
Definition jobs_in_flight (s : system) : nat :=
  (length (readers s) + length (inbox s)
   + match awaiting (thread s) with Some _ => 1 | None => 0 end
   + length (filter (fun r => is_reply r = true) (outbox s)))%nat.

(** ** Vocabulary of the properties *)

(** The store after an accepted validation of [payload]. *)
Definition defaulted (h : heap) (payload : jsval) : heap :=
  default_series "volume" payload
    (default_series "operators" payload
       (default_series "states" payload
          (default_series "duration" payload h))).

Definition empty_payload : gmap string jsval :=
  {["visits" := JArray []; "duration" := JArray []; "states" := JArray [];
    "operators" := JArray []; "volume" := JArray []]}.

Definition partial_payload : gmap string jsval :=
  {["visits" := JArray []; "states" := JString "none"]}.

(** The buffers that pass the guards of [analyzeDatabase]. *)
Definition admitted (bytes : list Byte.byte) : Prop :=
  bytes ≠ [] ∧ Z.of_nat (length bytes) <= MAX_DB_BYTES.

(** The body of [analyzeDatabase] once the handle is opened. *)
Definition analysis (H : host) (E : sql_engine) (w : worker) : result AggregateResult :=
  tables ← listTables w;
  if (length tables =? 0)%nat then Throw (Reason NO_TABLES_FOUND)
  else
    match find (JsString.test_i TABLE_PATTERN) tables with
    | None => Throw (Reason INVALID_SCHEMA)
    | Some mainTable =>
        if String.eqb mainTable "" then Throw (Reason INVALID_SCHEMA)
        else aggregateTable H E w mainTable
    end.

(** A result that is not one of the worker's own reasons being thrown. *)
Definition foreign {A : Type} (r : result A) : Prop :=
  forall rs, r ≠ Throw (Reason rs).

(** The caps on the four series of a result. *)
Definition within_caps (r : AggregateResult) : Prop :=
  (length (visits r) <= 24)%nat ∧ (length (states r) <= 50)%nat
  ∧ (length (operators r) <= 50)%nat ∧ (length (duration r) <= 100)%nat.

(** A host in UTC that parses no date string, and a worker that is ready. *)
Definition sample_host : host :=
  {| Date_parse := fun _ => None; LocalTZA := fun _ _ => 0;
     Number_toString := fun x => match Num.truncate x with
                                 | Some z => if 0 <=? z then decimal z else "-" ++ decimal (- z)
                                 | None => "NaN"
                                 end |}.

Definition ready_worker : worker :=
  {| SQL := true; db := None; busy := false; handles := ∅; opened := O |}.

Definition one_byte : list Byte.byte := [Byte.x53].

(** A table with sixty distinct status values. *)
Definition crowded_table : table :=
  {| tbl_name := "event_log"; tbl_columns := ["status"];
     tbl_rows := map (fun i => [SInteger (Z.of_nat i)]) (seq 0 60) |}.

Definition crowded_engine : sql_engine := sqlite (fun _ => Some [Table crowded_table]).

Definition result_or_empty (r : result AggregateResult) : AggregateResult :=
  match r with
  | Ok a => a
  | Throw _ =>
      {| visits := []; duration := []; states := []; operators := []; volume := [] |}
  end.

(** The numeric value of a number, under which INTEGER and REAL compare. *)
Definition Sql_measure (v : sqlval) : option Sql.numeric :=
  match v with
  | SInteger z => Some (Sql.Fin z 0)
  | SReal x => Some (Sql.numeric_of_real x)
  | _ => None
  end.

(** A clinic export: an audit table, then the table the worker picks, whose
    status column holds ADMIT, ADMIT, TRIAGE and NULL. *)
Definition clinic_table : table :=
  {| tbl_name := "patient_log"; tbl_columns := ["id"; "status"];
     tbl_rows := [[SInteger 1; SText "ADMIT"]; [SInteger 2; SText "ADMIT"];
                  [SInteger 3; SText "TRIAGE"]; [SInteger 4; SNull]] |}.

Definition clinic_db : database :=
  [Table {| tbl_name := "audit"; tbl_columns := ["id"]; tbl_rows := [] |};
   Other "index" "patient_log_idx";
   Table clinic_table].

(** The engine on this export when its index is not on the status column. *)
Definition clinic_engine : sql_engine := sqlite (fun _ => Some clinic_db).

(** The engine on this export when its index [patient_log_idx] is on the
    status column: the grouping by status is answered from the index. *)
Definition indexed_clinic_engine : sql_engine :=
  sqlite_indexed (fun _ => Some clinic_db).

(** The number of values of a column that SQL takes for equal to [k]. *)
Definition occurrences (k : sqlval) (vals : list sqlval) : nat :=
  length (filter (fun v => Sql.eqb k v = true) vals).

(** The count of the first group whose key equals [x], if there is one. *)
Definition count_in (groups : list (sqlval * nat)) (x : sqlval) : nat :=
  match find (fun g => Sql.eqb (fst g) x) groups with
  | Some g => snd g
  | None => O
  end.

(** [groups] has one entry per distinct value of [vals], with its number of
    rows: the keys are pairwise different values, every entry counts the
    rows equal to its key, and every value has its entry. *)
Record is_grouping (vals : list sqlval) (groups : list (sqlval * nat)) : Prop := {
  grouping_distinct :
    ForallOrdPairs (fun a b => Sql.eqb (fst a) (fst b) = false) groups;
  grouping_counts :
    forall k n, (k, n) ∈ groups -> n = occurrences k vals /\ (0 < n)%nat;
  grouping_covers :
    forall v, v ∈ vals -> exists k n, (k, n) ∈ groups /\ Sql.eqb k v = true;
}.

Definition state_entry (H : host) (row : sqlval * nat) : StateCount.t :=
  {| StateCount.category := label H "UNKNOWN" (cell_of (fst row));
     StateCount.value := snd row |}.

Definition operator_entry (H : host) (row : sqlval * nat) : OperatorCount.t :=
  {| OperatorCount.name := label H "SYSTEM" (cell_of (fst row));
     OperatorCount.value := snd row |}.

(** Descending by count. *)
Definition count_desc (a b : sqlval * nat) : Prop := (snd b <= snd a)%nat.

(** The status column of the design document's scenario. *)
Definition status_scenario : list sqlval :=
  [SText "ADMIT"; SText "ADMIT"; SText "TRIAGE"; SNull].

Definition clinic_worker : worker := openDb clinic_engine one_byte ready_worker.

Definition indexed_clinic_worker : worker :=
  openDb indexed_clinic_engine one_byte ready_worker.

Definition admit_2 : StateCount.t :=
  {| StateCount.category := "ADMIT"; StateCount.value := 2 |}.
Definition triage_1 : StateCount.t :=
  {| StateCount.category := "TRIAGE"; StateCount.value := 1 |}.
Definition unknown_1 : StateCount.t :=
  {| StateCount.category := "UNKNOWN"; StateCount.value := 1 |}.

(** The worker holds every handle that is open in the engine. *)
Definition tidy (w : worker) : Prop :=
  forall i, is_Some (handles w !! i) -> db w = Some i.

(** A call with [buffer] gets past the guards of [analyzeDatabase]. *)
Definition passes_guards (w : worker) (buffer : option (list Byte.byte)) : Prop :=
  SQL w = true /\ exists bytes, buffer = Some bytes /\ admitted bytes.

(** A database without tables. *)
Definition bare_engine : sql_engine := sqlite (fun _ => Some []).

(** The rows [buildVisits] reads: the first [MAX_ROWS_SCAN] values of the
    column in the ascending order of the engine, as [stmt.get()] returns them. *)
Definition scanned (E : sql_engine) (vals : list sqlval) : list cell :=
  map cell_of (take MAX_ROWS_SCAN (order_by_asc E vals)).

(** What the loop of [buildVisits] does with a row: it skips it ([None]),
    counts it under a key, or throws. *)
Definition bucket_key (H : host) (raw : cell) : option (result string) :=
  hour_key H <$> normalizeDate H raw.

(** A row that the loop skips or counts. *)
Definition datable (H : host) (raw : cell) : Prop :=
  forall e, bucket_key H raw <> Some (Throw e).

(** The keys of the rows that are counted, row by row. *)
Definition keys_of (H : host) (rows : list cell) : list string :=
  omap (fun raw => match bucket_key H raw with
                   | Some (Ok key) => Some key
                   | _ => None
                   end) rows.

(** [buckets[key] = (buckets[key] || 0) + 1] *)
Definition count_key (buckets : gmap string nat) (key : string) : gmap string nat :=
  <[key := S (default O (buckets !! key))]> buckets.

(** The strict order of strings by code unit. *)
Definition string_lt (a b : string) : Prop := String.compare a b = Lt.

(** The local time of a time value and the top of its hour. *)
Definition local_time (H : host) (tv : Z) : Z := tv + LocalTZA H tv true.
Definition top_of_hour (t : Z) : Z := t / JsDate.msPerHour * JsDate.msPerHour.

(** A host half an hour off the full hours (UTC+05:30). *)
Definition half_hour_host : host :=
  {| Date_parse := fun _ => None; LocalTZA := fun _ _ => 19800000;
     Number_toString := Number_toString sample_host |}.

(** A table with a column of timestamps. *)
Definition visits_table (stamps : list sqlval) : table :=
  {| tbl_name := "patient_visits"; tbl_columns := ["timestamp"];
     tbl_rows := map (fun v => [v]) stamps |}.

Definition visits_worker (stamps : list sqlval) : worker :=
  openDb (sqlite (fun _ => Some [Table (visits_table stamps)])) one_byte ready_worker.

Definition visits_engine (stamps : list sqlval) : sql_engine :=
  sqlite (fun _ => Some [Table (visits_table stamps)]).

(** Thirty rows, in epoch seconds, that span three hours: 10, 12 and 8 rows. *)
Definition three_hours : list sqlval :=
  map (fun i => SInteger (1700000000 + 300 * Z.of_nat i)) (seq 0 30).

(** The decision of [datable]. *)
Definition datableb (H : host) (raw : cell) : bool :=
  match bucket_key H raw with
  | Some (Throw _) => false
  | _ => true
  end.

(** 5001 rows with one and the same timestamp. *)
Definition one_hour_crowd : list sqlval :=
  repeat (SInteger 1700000000) (S (50 * 100)).

(** A timestamp beyond the range of [Date]. *)
Definition far_future : list sqlval := [SInteger 9000000000000000].

(** What holds of the page and its worker between any two events: a job is
    under way only while the controller is processing, the controller
    processes only with a worker that has reported ready, and what a worker
    posted before it was ready is its one boot message. *)
Record coherent (s : system) : Prop := {
  co_has_worker : has_worker (app s) = true;
  co_processing : isProcessing (app s) = true -> workerReady (app s) = true;
  co_ready : workerReady (app s) = true ->
             stage (thread s) = Running /\ Forall (fun r => is_reply r = true) (outbox s);
  co_one_job : isProcessing (app s) = true -> (jobs_in_flight s <= 1)%nat;
  co_idle : isProcessing (app s) = false ->
            readers s = [] /\ inbox s = [] /\ awaiting (thread s) = None
            /\ (length (outbox s) <= 1)%nat
            /\ (workerReady (app s) = true -> outbox s = []);
  co_boot : stage (thread s) <> Running -> outbox s = [];
}.

(** A run of events from a state. *)
Fixpoint run (H : host) (E : sql_engine) (P : page_host) (evs : list event) (s : system)
  : option system :=
  match evs with
  | [] => Some s
  | ev :: rest =>
      match step H E P ev s with
      | Some s' => run H E P rest s'
      | None => None
      end
  end.

Definition identity_page : page_host := {| visit_point := fun _ d => Some d |}.

(** The worker comes up, a file is selected, and a second one while the first
    is being read. *)
Definition two_selections : list event :=
  [InitResolved; AppMessage; FileSelected (Some one_byte); FileSelected (Some one_byte)].

Definition system_or_initial (o : option system) : system :=
  match o with Some s => s | None => initial ∅ end.

(** ** Further parts of the program *)

(** The double quote character. *)
Definition dquote : ascii := ascii_of_nat 34.

(** The [replace] of [escapeId]: every double quote is written twice. *)
Fixpoint double_quotes (s : string) : string :=
  match s with
  | EmptyString => EmptyString
  | String c s' =>
      if Ascii.eqb c dquote then String dquote (String dquote (double_quotes s'))
      else String c (double_quotes s')
  end.

(** [escapeId(id)] of the worker, for a name [id]. *)
Definition escapeId (id : string) : string :=
  String dquote (double_quotes id ++ String dquote EmptyString).

(** How SQL reads a quoted identifier from the text after its opening quote:
    two quotes in a row stand for one quote of the name, a single quote ends
    the name; the result is the name and the text that follows, or [None]
    when the text ends first. *)
Fixpoint read_name (s : string) : option (string * string) :=
  match s with
  | EmptyString => None
  | String c s' =>
      if Ascii.eqb c dquote then
        match s' with
        | String c' s'' =>
            if Ascii.eqb c' dquote then
              match read_name s'' with
              | Some (name, rest) => Some (String dquote name, rest)
              | None => None
              end
            else Some (EmptyString, s')
        | EmptyString => Some (EmptyString, EmptyString)
        end
      else
        match read_name s' with
        | Some (name, rest) => Some (String c name, rest)
        | None => None
        end
  end.

Definition read_quoted (s : string) : option (string * string) :=
  match s with
  | String c s' => if Ascii.eqb c dquote then read_name s' else None
  | EmptyString => None
  end.

(** The text does not go on with a quote. *)
Definition no_quote_ahead (s : string) : Prop :=
  match s with
  | String c _ => Ascii.eqb c dquote = false
  | EmptyString => True
  end.

(** The sum of the counts of a list of groups. *)
Definition total_rows (groups : list (sqlval * nat)) : nat :=
  list_sum (map snd groups).


(** What [toSafeDate] of the controller reads in its argument: a [Date]
    object with its time value, a number, or any other value with the string
    [String(v)] gives for it. *)
Inductive date_like : Type :=
  | ADate (d : JsDate.t)
  | ANumber (x : number)
  | AOther (text : string).

(** [toSafeDate(v)]; [now] is the time value of [new Date()] and [parse] the
    date parser of the page. *)
Definition toSafeDate (parse : string -> option Z) (now : Z) (v : date_like) : JsDate.t :=
  let or_now (d : JsDate.t) := match d with Some tv => Some tv | None => JsDate.clip now end in
  match v with
  | ADate (Some tv) => Some tv
  | ADate None => or_now (parse "Invalid Date")
  | ANumber x =>
      let ms := if Num.gt (Num.of_Z 10000000000) x
                then Num.mul x (Num.of_Z 1000) else x in
      or_now (JsDate.of_number ms)
  | AOther text => or_now (parse text)
  end.

(** A buffer the controller lets through: no larger than [MAX_FILE_BYTES]. *)
Definition fits (bytes : list Byte.byte) : Prop :=
  Z.of_nat (length bytes) <= MAX_FILE_BYTES.

(** A request as the controller posts it: [ANALYZE] with a buffer that fits. *)
Definition well_sized (req : request) : Prop :=
  exists bytes, req = ANALYZE (Some bytes) /\ fits bytes.

(** What holds between the controller and its worker besides the single job:
    the worker is initialised once it has posted [READY] and once the
    controller takes it for ready, it is busy exactly while an analysis waits
    for its reply to be posted, the files being read and the requests posted
    fit the limit of the controller, and the restarts stay within the
    budget. *)
Record attuned (s : system) : Prop := {
  at_ready : workerReady (app s) = true -> SQL (globals (thread s)) = true;
  at_posted : READY ∈ outbox s -> SQL (globals (thread s)) = true;
  at_busy : busy (globals (thread s)) = true <-> awaiting (thread s) <> None;
  at_readers : Forall fits (readers s);
  at_inbox : Forall well_sized (inbox s);
  at_restarts : (workerRestarts (app s) <= MAX_WORKER_RESTARTS)%nat;
}.

(** An action a handler of the controller may ask for, given the state it
    leaves: a new worker only when none is taken for ready, a read or a
    request only of a buffer that fits. *)
Definition allowed (a : app_state) (act : action) : Prop :=
  match act with
  | SpawnWorker => workerReady a = false
  | StartRead bytes => fits bytes
  | PostToWorker req => well_sized req
  end.

(** The outcome [r] of a handler run in state [a] keeps the budget, does not
    by itself take the worker for ready, and asks for allowed actions only. *)
Definition measured (a : app_state) (r : app_state * list action) : Prop :=
  (workerReady (fst r) = true -> workerReady a = true)
  /\ ((workerRestarts a <= MAX_WORKER_RESTARTS)%nat ->
      (workerRestarts (fst r) <= MAX_WORKER_RESTARTS)%nat)
  /\ Forall (allowed (fst r)) (snd r).

(** A file too large for the controller. *)
Definition oversize (bytes : list Byte.byte) : Prop :=
  MAX_FILE_BYTES < Z.of_nat (length bytes).

(** The number [stmt.get()] returns for a value of numeric storage. *)
Definition sql_number (v : sqlval) : number :=
  match cell_of v with
  | Num x => x
  | _ => S754_nan
  end.

(** The columns [PRAGMA table_info] reports for a name: those of the table
    or view the name stands for, none when it stands for neither. *)
Definition columns_of (d : database) (table : string) : list string :=
  match Sql.find_table d table with
  | Some t => tbl_columns t
  | None => []
  end.

Definition empty_result : AggregateResult :=
  {| visits := []; duration := []; states := []; operators := []; volume := [] |}.

(** A table of notes: rows, but no column with a role. *)
Definition notes_table : table :=
  {| tbl_name := "visit_notes"; tbl_columns := ["id"; "note"];
     tbl_rows := [[SInteger 1; SText "first"]; [SInteger 2; SText "second"]] |}.

Definition notes_db : database := [Table notes_table].

Definition notes_worker : worker :=
  openDb (sqlite (fun _ => Some notes_db)) one_byte ready_worker.

(** A table whose name and column are declared in capitals. *)
Definition capitals_db : database :=
  [Table {| tbl_name := "EVENT_LOG"; tbl_columns := ["STATUS"];
            tbl_rows := [[SText "a"]; [SText "a"]; [SText "b"]] |}].

Definition capitals_engine : sql_engine := sqlite (fun _ => Some capitals_db).

(** A column of durations with a NULL and a text among the numbers. *)
Definition mixed_durations : list sqlval :=
  [SInteger 12; SNull; SReal (Num.of_Z 7); SText "n/a"; SInteger 30].

Definition durations_db : database :=
  [Table {| tbl_name := "event_log"; tbl_columns := ["id"; "duration_min"; "note"];
            tbl_rows := imap (fun i v => [SInteger (Z.of_nat (S i)); v; SText "-"])
                          mixed_durations |}].

(** The engine on this table as it is, and with an index on the duration
    column from which the engine answers. *)
Definition durations_engine : sql_engine := sqlite (fun _ => Some durations_db).
Definition indexed_durations_engine : sql_engine :=
  sqlite_indexed (fun _ => Some durations_db).

Definition durations_worker : worker := openDb durations_engine one_byte ready_worker.


(** A file of one byte more than the controller accepts. *)
Definition huge_file : list Byte.byte :=
  repeat Byte.x00 (Z.to_nat (MAX_FILE_BYTES + 1)).

(** The worker has taken up the request for a file of one byte. *)
Definition one_request : list event :=
  [InitResolved; AppMessage; FileSelected (Some one_byte); ReadLoad O].

(** The worker has failed for good: its script crashed, the restart budget is
    spent, and nothing is under way. *)
Definition stranded (s : system) : Prop :=
  stage (thread s) = Dead /\ workerReady (app s) = false
  /\ workerRestarts (app s) = MAX_WORKER_RESTARTS
  /\ isProcessing (app s) = false
  /\ readers s = [] /\ inbox s = [] /\ outbox s = [] /\ awaiting (thread s) = None.

(** The script of the worker fails to load, and that of its replacement too. *)
Definition two_crashes : list event :=
  [ScriptError; WorkerError; ScriptError; WorkerError].

(** * Properties *)

(** Membership in an explicit list of distinct literals. *)
Ltac list_mem := repeat first [apply list_elem_of_here | apply list_elem_of_further].
Ltac list_not_mem :=
  repeat (apply not_elem_of_cons; split; [discriminate|]); apply not_elem_of_nil.

(** ** Error mapping *)

(** C1 (as the code behaves): every reason code the worker emits is spelled
    with underscores, no key of the error map occurs in it, and
    [mapErrorToUser] answers it with the generic fallback message. *)
Theorem mapErrorToUser_engine_codes_fall_back :
  forall r : reason, mapErrorToUser (reason_code r) = GENERIC_MESSAGE.
Proof. intros []; reflexivity. Qed.

(** The keys of the map are matched when the reason is spelled with spaces. *)
Lemma mapErrorToUser_spaced_no_tables :
  mapErrorToUser "NO TABLES FOUND" = "Not a valid EMR export (no tables detected).".
Proof. reflexivity. Qed.

Lemma mapErrorToUser_no_tables_code :
  mapErrorToUser (reason_code NO_TABLES_FOUND)
  <> "Not a valid EMR export (no tables detected).".
Proof. discriminate. Qed.


(** ** Payload validation *)

Section Validation.
Implicit Types (h : heap) (ref : nat) (k : string).

Lemma props_set h ref k x :
  props (set h (JObject ref) k x) ref = <[k := x]> (props h ref).
Proof. unfold props, set. by rewrite lookup_insert_eq. Qed.

Lemma lookup_set_other h ref ref' k x :
  ref' ≠ ref → set h (JObject ref) k x !! ref' = h !! ref'.
Proof. intros Hne. unfold set. by rewrite lookup_insert_ne. Qed.

Lemma props_default_series h ref k :
  props (default_series k (JObject ref) h) ref =
  if isArray (get h (JObject ref) k) then props h ref
  else <[k := JArray []]> (props h ref).
Proof.
  unfold default_series. destruct (isArray _); [done|]. apply props_set.
Qed.

Lemma lookup_default_series_other h ref ref' k :
  ref' ≠ ref → default_series k (JObject ref) h !! ref' = h !! ref'.
Proof.
  intros Hne. unfold default_series. destruct (isArray _); [done|].
  by apply lookup_set_other.
Qed.

(** What [default_series k] leaves in property [k'] of the object. *)
Lemma get_default_series h ref k k' :
  get (default_series k (JObject ref) h) (JObject ref) k' =
  if decide (k = k') then
    if isArray (get h (JObject ref) k) then get h (JObject ref) k else JArray []
  else get h (JObject ref) k'.
Proof.
  unfold get at 1. rewrite props_default_series.
  destruct (isArray (get h (JObject ref) k)) eqn:Harr.
  - case_decide; subst; reflexivity.
  - case_decide; subst.
    + by rewrite lookup_insert_eq.
    + by rewrite lookup_insert_ne.
Qed.

Lemma default_series_non_object k v h :
  (forall ref, v ≠ JObject ref) → default_series k v h = h.
Proof.
  intros Hv. unfold default_series, get, set.
  destruct v; try reflexivity. by destruct (Hv ref).
Qed.

Lemma validatePayload_accept h ref :
  isArray (get h (JObject ref) "visits") = true →
  validatePayload h (JObject ref)
  = ({| ok := true; reason_text := None |}, defaulted h (JObject ref)).
Proof.
  intros Hv. unfold validatePayload.
  change (negb (truthy (JObject ref))
          || negb (String.eqb (typeof (JObject ref)) "object")) with false.
  cbv iota. by rewrite Hv.
Qed.

Lemma get_defaulted_optional h ref k :
  k ∈ optional_series →
  get (defaulted h (JObject ref)) (JObject ref) k =
  if isArray (get h (JObject ref) k) then get h (JObject ref) k else JArray [].
Proof.
  intros Hk. unfold defaulted, optional_series in *.
  repeat (apply elem_of_cons in Hk as [->|Hk]); [..|by apply elem_of_nil in Hk].
  all: rewrite !get_default_series.
  all: repeat case_decide; try discriminate; try congruence.
  all: by destruct (isArray _).
Qed.

Lemma props_defaulted_other h ref k :
  k ∉ optional_series →
  props (defaulted h (JObject ref)) ref !! k = props h ref !! k.
Proof.
  intros Hk. unfold defaulted.
  assert (Hne : k ≠ "duration" ∧ k ≠ "states" ∧ k ≠ "operators" ∧ k ≠ "volume").
  { unfold optional_series in Hk. repeat split; intros ->; apply Hk; list_mem. }
  destruct Hne as (? & ? & ? & ?).
  repeat (rewrite props_default_series;
          destruct (isArray _); [|rewrite lookup_insert_ne by done]).
  all: reflexivity.
Qed.

Lemma lookup_defaulted_other h ref ref' :
  ref' ≠ ref → defaulted h (JObject ref) !! ref' = h !! ref'.
Proof.
  intros Hne. unfold defaulted.
  by rewrite !lookup_default_series_other.
Qed.

Lemma get_object_is_array h v k :
  isArray (get h v k) = true → exists ref, v = JObject ref.
Proof. destruct v; simpl; try discriminate. eauto. Qed.

End Validation.

(** C7: [validatePayload] rejects exactly the payloads that are absent, are
    not objects, or have no array in [visits]; every other payload is
    accepted, and then each of [duration], [states], [operators] and [volume]
    holds the array it held before or, when it held none, an empty array. A
    payload whose series are all present and empty is accepted. *)
Theorem validatePayload_contract (h : heap) (payload : jsval) :
  let v := fst (validatePayload h payload) in
  let h' := snd (validatePayload h payload) in
  (ok v = false <->
     payload = JUndefined \/ payload = JNull \/ typeof payload <> "object"
     \/ isArray (get h payload "visits") = false)
  /\ (ok v = true ->
      forall k, k ∈ optional_series ->
        get h' payload k
        = if isArray (get h payload k) then get h payload k else JArray [])
  /\ (get h payload "visits" = JArray [] ->
      get h payload "duration" = JArray [] ->
      get h payload "states" = JArray [] ->
      get h payload "operators" = JArray [] ->
      ok v = true).
Proof.
  cbv zeta.
  destruct (isArray (get h payload "visits")) eqn:Hvisits.
  - destruct (get_object_is_array _ _ _ Hvisits) as [ref ->].
    rewrite validatePayload_accept by done. cbn [fst snd ok].
    split; [|split].
    + split; [discriminate|]. intros [?|[?|[Hty|?]]]; try discriminate.
      by destruct Hty.
    + intros _ k Hk. by apply get_defaulted_optional.
    + done.
  - assert (Hrej : ok (fst (validatePayload h payload)) = false
                   ∧ snd (validatePayload h payload) = h).
    { unfold validatePayload.
      destruct (negb (truthy payload) || negb (String.eqb (typeof payload) "object"));
        [done|]. by rewrite Hvisits. }
    destruct Hrej as [-> ->].
    split; [|split].
    + split; [|done]. intros _. by do 3 right.
    + discriminate.
    + intros Hv. rewrite Hv in Hvisits. discriminate.
Qed.

Lemma validatePayload_contract_witness :
  ok (fst (validatePayload {[O := empty_payload]} (JObject O))) = true.
Proof.
  apply (validatePayload_contract {[O := empty_payload]} (JObject O));
    vm_compute; reflexivity.
Defined.

(** C10: on an object whose [visits] is an array, [validatePayload] writes to
    the object it was given: each of [duration], [states], [operators] and
    [volume] that is not an array is overwritten with an empty array, [visits]
    and every other property keep their value, no other object changes, and
    the store does change when one of the four was not an array. The handler
    of [ANALYSIS_COMPLETE] then builds [state.data] from the properties of
    that same, mutated object. *)
Theorem validatePayload_mutates_payload
    (P : page_host) (a : app_state) (h : heap) (ref : nat) :
  isArray (get h (JObject ref) "visits") = true ->
  let payload := JObject ref in
  let h' := snd (validatePayload h payload) in
  ok (fst (validatePayload h payload)) = true
  /\ (forall k, k ∈ optional_series ->
        props h' ref !! k
        = Some (if isArray (get h payload k) then get h payload k else JArray []))
  /\ (forall k, k ∉ optional_series -> props h' ref !! k = props h ref !! k)
  /\ get h' payload "visits" = get h payload "visits"
  /\ (forall ref', ref' ≠ ref -> h' !! ref' = h !! ref')
  /\ ((exists k, k ∈ optional_series /\ isArray (get h payload k) = false) -> h' ≠ h)
  /\ snd (handleWorkerMessage P (PComplete payload) a h) = h'
  /\ (forall visits,
        mapM (visit_point P h') (array_elems (get h' payload "visits")) = Some visits ->
        data (fst (handleWorkerMessage P (PComplete payload) a h))
        = Some (<["visits" := JArray visits]> (props h' ref))).
Proof.
  intros Hvisits payload h'. subst payload h'.
  rewrite validatePayload_accept by done. cbn [fst snd ok].
  assert (Hopt : forall k, k ∈ optional_series ->
            props (defaulted h (JObject ref)) ref !! k
            = Some (if isArray (get h (JObject ref) k)
                    then get h (JObject ref) k else JArray [])).
  { intros k Hk. pose proof (get_defaulted_optional h ref k Hk) as Hget.
    unfold get at 1 in Hget.
    destruct (props (defaulted h (JObject ref)) ref !! k) as [x|] eqn:Hx.
    - cbn [default from_option id] in Hget. by rewrite Hget.
    - cbn [default from_option id] in Hget.
      destruct (isArray (get h (JObject ref) k)) eqn:Harr;
        [rewrite <- Hget in Harr|]; discriminate. }
  assert (Hkeep : forall k, k ∉ optional_series ->
            props (defaulted h (JObject ref)) ref !! k = props h ref !! k)
    by (intros; by apply props_defaulted_other).
  assert (Hv : get (defaulted h (JObject ref)) (JObject ref) "visits"
               = get h (JObject ref) "visits").
  { unfold get. rewrite Hkeep; [done|]. unfold optional_series. list_not_mem. }
  repeat split; try done.
  - intros ref' Hne. by apply lookup_defaulted_other.
  - intros (k & Hk & Harr) Heq.
    specialize (Hopt k Hk). rewrite Heq, Harr in Hopt.
    unfold get in Harr. rewrite Hopt in Harr. discriminate.
  - unfold handleWorkerMessage. rewrite validatePayload_accept by done.
    cbn [ok negb]. by destruct (mapM _ _).
  - intros visits Hmap. unfold handleWorkerMessage.
    rewrite validatePayload_accept by done. cbn [ok negb].
    rewrite Hmap. reflexivity.
Qed.

Lemma validatePayload_mutates_payload_witness :
  props (snd (validatePayload {[O := partial_payload]} (JObject O))) O !! "states"
  = Some (JArray []).
Proof.
  pose proof (validatePayload_mutates_payload
                {| visit_point := fun _ d => Some d |}
                {| has_worker := true; workerReady := true; workerBootTimer := false;
                   workerRestarts := O; status := PROCESSING; message := "";
                   data := None; isProcessing := true |}
                {[O := partial_payload]} O eq_refl) as (_ & Hopt & _).
  apply (Hopt "states"). unfold optional_series. list_mem.
Defined.

(** ** The worker: guards, handle, candidate table *)

Section Worker.
Context (H : host) (E : sql_engine).
Implicit Types (w : worker) (bytes : list Byte.byte).

Lemma analyzeDatabase_admitted w bytes :
  SQL w = true → admitted bytes →
  analyzeDatabase H E w (Some bytes)
  = (analysis H E (openDb E bytes (closeDb w)), openDb E bytes (closeDb w)).
Proof.
  intros Hsql [Hne Hcap]. unfold analyzeDatabase. rewrite Hsql. simpl negb. cbv iota.
  destruct bytes as [|b bytes]; [done|].
  change (length (b :: bytes) =? 0)%nat with false. cbv iota.
  destruct (Z.of_nat (length (b :: bytes)) >? MAX_DB_BYTES) eqn:Hgt; [lia|].
  reflexivity.
Qed.

Lemma analyzeDatabase_not_ready w buffer :
  SQL w = false →
  analyzeDatabase H E w buffer = (Throw (Reason WORKER_NOT_READY), w).
Proof. intros Hsql. unfold analyzeDatabase. by rewrite Hsql. Qed.

Lemma analyzeDatabase_guarded w buffer :
  SQL w = false ∨ buffer = None ∨ buffer = Some []
  ∨ (exists bytes, buffer = Some bytes ∧ MAX_DB_BYTES < Z.of_nat (length bytes)) →
  exists r, analyzeDatabase H E w buffer = (Throw (Reason r), w)
            ∧ (r = WORKER_NOT_READY ∨ r = EMPTY_FILE ∨ r = FILE_EXCEEDS_CAPACITY).
Proof.
  intros Hcase. unfold analyzeDatabase.
  destruct (SQL w); simpl; [|eauto].
  destruct Hcase as [?|[->|[->|(bytes & -> & Hbig)]]]; [done|eauto|eauto|].
  destruct bytes as [|b bytes]; [eauto|].
  change (length (b :: bytes) =? 0)%nat with false. cbv iota.
  destruct (_ >? _) eqn:Hgt; [eauto|]. lia.
Qed.

Lemma db_closeDb w : db (closeDb w) = None.
Proof. unfold closeDb. by destruct (db w) eqn:Hdb. Qed.

Lemma prepare_openDb w bytes :
  prepare (openDb E bytes w)
  = match open_database E bytes with
    | Some d => Ok d
    | None => Throw (EngineError "file is not a database")
    end.
Proof. unfold prepare, openDb. simpl. by rewrite lookup_insert_eq. Qed.

Lemma foreign_Ok {A : Type} (a : A) : foreign (Ok a).
Proof. intros rs. discriminate. Qed.

Lemma foreign_bind {A B : Type} (r : result A) (k : A → result B) :
  foreign r → (forall a, r = Ok a → foreign (k a)) → foreign (r ≫= k).
Proof.
  intros Hr Hk rs. destruct r as [a|e]; simpl.
  - by apply Hk.
  - intros [= ->]. by apply (Hr rs).
Qed.

Lemma foreign_prepare w : foreign (prepare w).
Proof.
  intros rs. unfold prepare.
  destruct (db w) as [i|]; [|discriminate].
  by destruct (handles w !! i) as [[d|]|].
Qed.

Lemma foreign_select w table col : foreign (select w table col).
Proof.
  apply foreign_bind; [apply foreign_prepare|]. intros d _ rs.
  destruct (Sql.find_table d table) as [t|]; [|discriminate].
  by destruct (Sql.column t col).
Qed.

Lemma foreign_scan_visits rows buckets : foreign (scan_visits H rows buckets).
Proof.
  revert buckets. induction rows as [|raw rows IH]; intros buckets rs; simpl.
  - discriminate.
  - destruct (normalizeDate H raw) as [date|]; [|apply IH].
    unfold hour_key. destruct (JsDate.toISOString _); simpl; [apply IH|discriminate].
Qed.

Lemma foreign_buildVisits w table col : foreign (buildVisits H E w table col).
Proof.
  apply foreign_bind; [apply foreign_select|]. intros vals _.
  apply foreign_bind; [apply foreign_scan_visits|]. intros; apply foreign_Ok.
Qed.

Lemma foreign_buildDuration w table col : foreign (buildDuration E w table col).
Proof.
  apply foreign_bind; [apply foreign_select|]. intros; apply foreign_Ok.
Qed.

Lemma foreign_grouped w table col : foreign (grouped E w table col).
Proof.
  apply foreign_bind; [apply foreign_select|]. intros; apply foreign_Ok.
Qed.

Lemma foreign_buildStates w table col : foreign (buildStates H E w table col).
Proof.
  apply foreign_bind; [apply foreign_grouped|]. intros; apply foreign_Ok.
Qed.

Lemma foreign_buildOperators w table col : foreign (buildOperators H E w table col).
Proof.
  apply foreign_bind; [apply foreign_grouped|]. intros; apply foreign_Ok.
Qed.

Lemma foreign_series {A : Type} col (build : string → result (list A)) :
  (forall c, foreign (build c)) → foreign (series col build).
Proof. intros Hb. destruct col; simpl; [apply Hb|apply foreign_Ok]. Qed.

Lemma foreign_aggregateTable w table : foreign (aggregateTable H E w table).
Proof.
  unfold aggregateTable.
  apply foreign_bind.
  { apply foreign_bind; [apply foreign_prepare|]. intros; apply foreign_Ok. }
  intros columns _.
  apply foreign_bind;
    [apply foreign_series; intros; apply foreign_buildVisits|intros ? _].
  apply foreign_bind;
    [apply foreign_series; intros; apply foreign_buildDuration|intros ? _].
  apply foreign_bind;
    [apply foreign_series; intros; apply foreign_buildStates|intros ? _].
  apply foreign_bind;
    [apply foreign_series; intros; apply foreign_buildOperators|intros ? _].
  apply foreign_Ok.
Qed.

(** [tables.find(p)] returns the first element that satisfies [p]. *)
Lemma find_first {A : Type} (p : A → bool) (l : list A) (x : A) :
  find p l = Some x ↔
  exists before after,
    l = (before ++ x :: after)%list ∧ p x = true ∧ Forall (fun y => p y = false) before.
Proof.
  induction l as [|y l IH]; simpl.
  - split; [discriminate|]. intros (before & after & Heq & _). by destruct before.
  - destruct (p y) eqn:Hy.
    + split.
      * intros [= ->]. exists [], l. by repeat split.
      * intros (before & after & Heq & Hx & Hbefore).
        destruct before as [|z before]; simpl in Heq.
        -- by injection Heq as ->.
        -- injection Heq as -> _. inversion Hbefore; congruence.
    + rewrite IH. split.
      * intros (before & after & -> & Hx & Hbefore).
        exists (y :: before), after. repeat split; [done|by constructor].
      * intros (before & after & Heq & Hx & Hbefore).
        destruct before as [|z before]; simpl in Heq.
        -- injection Heq as -> _. congruence.
        -- injection Heq as -> ->. inversion Hbefore; subst. eauto.
Qed.

Lemma find_none {A : Type} (p : A → bool) (l : list A) :
  find p l = None ↔ Forall (fun y => p y = false) l.
Proof.
  induction l as [|y l IH]; simpl.
  - split; [constructor|done].
  - destruct (p y) eqn:Hy.
    + split; [discriminate|]. inversion 1; congruence.
    + rewrite IH. split; [by constructor|by inversion 1].
Qed.

Lemma test_i_nonempty alts :
  JsString.test_i alts "" = true → "" ∈ alts.
Proof.
  unfold JsString.test_i. intros Hex.
  apply existsb_exists in Hex as (word & Hin & Hinc).
  apply list_elem_of_In in Hin.
  destruct word; [done|]. simpl in Hinc. discriminate.
Qed.

(** The analysis on a handle whose bytes decoded to [d]. *)
Lemma analysis_outcome w d :
  prepare w = Ok d →
  analysis H E w
  = match table_names d with
    | [] => Throw (Reason NO_TABLES_FOUND)
    | tables =>
        match find (JsString.test_i TABLE_PATTERN) tables with
        | None => Throw (Reason INVALID_SCHEMA)
        | Some mainTable => aggregateTable H E w mainTable
        end
    end.
Proof.
  intros Hprep. unfold analysis, listTables. rewrite Hprep. cbn [mbind result_bind].
  destruct (table_names d) as [|t0 tables]; [done|].
  change (length (t0 :: tables) =? 0)%nat with false. cbv iota.
  destruct (find _ (t0 :: tables)) as [t|] eqn:Hfind; [|done].
  apply find_first in Hfind as (before & after & _ & Ht & _).
  destruct (String.eqb_spec t "") as [->|]; [|done].
  apply test_i_nonempty in Ht. unfold TABLE_PATTERN in Ht.
  repeat (apply elem_of_cons in Ht as [Ht|Ht]; [discriminate|]).
  by apply elem_of_nil in Ht.
Qed.

End Worker.

(** ** Case-insensitive matching *)

Lemma append_cons (c : ascii) (s post : string) :
  String c s ++ post = String c (s ++ post).
Proof. reflexivity. Qed.

Lemma prefix_spec (key s : string) :
  String.prefix key s = true ↔ exists post, s = key ++ post.
Proof.
  revert s. induction key as [|c key IH]; intros s.
  - split; [intros _; by exists s|]. intros _. by destruct s.
  - setoid_rewrite append_cons. destruct s as [|c' s]; simpl.
    + split; [discriminate|]. intros [post Heq]. discriminate.
    + destruct (ascii_dec c c') as [->|Hne].
      * rewrite IH. split; intros [post Heq]; exists post; congruence.
      * split; [discriminate|]. intros [post [= ? _]]. done.
Qed.

Lemma includes_nil (key : string) :
  JsString.includes key "" = String.prefix key "".
Proof. unfold JsString.includes. apply orb_false_r. Qed.

Lemma includes_cons (key : string) (c : ascii) (s : string) :
  JsString.includes key (String c s)
  = String.prefix key (String c s) || JsString.includes key s.
Proof. reflexivity. Qed.

(** [includes] is the substring test. *)
Lemma includes_spec (key s : string) :
  JsString.includes key s = true ↔ exists pre post, s = pre ++ key ++ post.
Proof.
  induction s as [|c s IH].
  - rewrite includes_nil, prefix_spec. split.
    + intros [post Heq]. by exists "", post.
    + intros (pre & post & Heq). destruct pre; [by exists post|discriminate].
  - rewrite includes_cons, orb_true_iff, prefix_spec, IH. split.
    + intros [[post Heq]|(pre & post & ->)].
      * by exists "", post.
      * by exists (String c pre), post.
    + intros (pre & post & Heq). destruct pre as [|c' pre].
      * left. by exists post.
      * right. rewrite append_cons in Heq. injection Heq as -> ->. by exists pre, post.
Qed.

(** A name passes [/w1|w2|.../i] when, letter case apart, it contains one of
    the words. *)
Lemma test_i_spec (alts : list string) (s : string) :
  JsString.test_i alts s = true ↔
  exists w pre post,
    w ∈ alts ∧ JsString.fold_case s = pre ++ JsString.fold_case w ++ post.
Proof.
  unfold JsString.test_i. rewrite existsb_exists. split.
  - intros (w & Hin & Hinc). apply includes_spec in Hinc as (pre & post & Heq).
    exists w, pre, post. split; [by apply list_elem_of_In|done].
  - intros (w & pre & post & Hin & Heq). exists w.
    split; [by apply list_elem_of_In|]. apply includes_spec. eauto.
Qed.

(** ** Candidate table *)

(** C4: for a buffer that passes the guards and decodes to a database, the
    analysis fails with [NO_TABLES_FOUND] exactly when the table list is
    empty, fails with [INVALID_SCHEMA] exactly when the list is not empty and
    no name passes the pattern, and otherwise aggregates the first table of
    the list whose name passes it. *)
Theorem candidate_table_selection
    (H : host) (E : sql_engine) (w : worker) (bytes : list Byte.byte) (d : database) :
  SQL w = true -> admitted bytes -> open_database E bytes = Some d ->
  let tables := table_names d in
  let outcome := fst (analyzeDatabase H E w (Some bytes)) in
  (outcome = Throw (Reason NO_TABLES_FOUND) <-> tables = [])
  /\ (outcome = Throw (Reason INVALID_SCHEMA) <->
      tables <> [] /\ Forall (fun t => JsString.test_i TABLE_PATTERN t = false) tables)
  /\ (forall before mainTable after,
        tables = (before ++ mainTable :: after)%list ->
        JsString.test_i TABLE_PATTERN mainTable = true ->
        Forall (fun t => JsString.test_i TABLE_PATTERN t = false) before ->
        outcome = aggregateTable H E (openDb E bytes (closeDb w)) mainTable).
Proof.
  intros Hsql Hadm Hopen tables outcome. subst outcome.
  rewrite analyzeDatabase_admitted by done. cbn [fst].
  rewrite (analysis_outcome H E _ d) by (by rewrite prepare_openDb, Hopen).
  fold tables. clearbody tables.
  pose proof (foreign_aggregateTable H E (openDb E bytes (closeDb w))) as Hforeign.
  destruct tables as [|t0 tables'].
  { split; [done|]. split.
    - split; [discriminate|]. by intros [? _].
    - intros before mainTable after Heq. by destruct before. }
  set (tables := t0 :: tables') in *.
  destruct (find (JsString.test_i TABLE_PATTERN) tables) as [t|] eqn:Hfind.
  - split; [|split].
    + split; [intros Hthrow; by destruct (Hforeign _ _ Hthrow)|discriminate].
    + split; [intros Hthrow; by destruct (Hforeign _ _ Hthrow)|].
      intros [_ Hall]. apply find_none in Hall. congruence.
    + intros before mainTable after Heq Hmain Hbefore.
      assert (Hfind' : find (JsString.test_i TABLE_PATTERN) tables = Some mainTable).
      { apply find_first. by exists before, after. }
      congruence.
  - pose proof (proj1 (find_none _ _) Hfind) as Hall.
    split; [|split].
    + split; discriminate.
    + split; [|done]. intros _. split; [discriminate|done].
    + intros before mainTable after Heq Hmain _.
      rewrite Heq in Hall. apply Forall_app in Hall as [_ Hall].
      inversion Hall; congruence.
Qed.

Lemma admitted_one_byte : admitted one_byte.
Proof. split; [discriminate|]. unfold MAX_DB_BYTES, one_byte. simpl. lia. Qed.

Lemma candidate_table_selection_witness :
  fst (analyzeDatabase sample_host clinic_engine ready_worker (Some one_byte))
  = aggregateTable sample_host clinic_engine
      (openDb clinic_engine one_byte (closeDb ready_worker)) "patient_log".
Proof.
  apply (proj2 (proj2 (candidate_table_selection sample_host clinic_engine
                         ready_worker one_byte clinic_db eq_refl
                         admitted_one_byte eq_refl))
           ["audit"] "patient_log" []).
  - reflexivity.
  - vm_compute. reflexivity.
  - repeat constructor.
Defined.

(** ** Insertion sort *)

Section InsertionSort.
Context {A : Type} (le : A → A → bool).
Hypothesis le_total : forall x y, le x y = false → le y x = true.

Lemma insert_sorted_perm x l : Sql.insert_sorted le x l ≡ₚ x :: l.
Proof.
  induction l as [|y l IH]; simpl; [done|].
  destruct (le x y); [done|]. rewrite IH. apply Permutation_swap.
Qed.

Lemma sort_perm l : Sql.sort le l ≡ₚ l.
Proof.
  induction l as [|x l IH]; simpl; [done|].
  rewrite insert_sorted_perm. by rewrite IH.
Qed.

Lemma HdRel_insert_sorted x y l :
  le y x = true → HdRel (fun a b => le a b = true) y l →
  HdRel (fun a b => le a b = true) y (Sql.insert_sorted le x l).
Proof.
  intros Hyx Hhd. destruct l as [|z l]; simpl; [by constructor|].
  destruct (le x z); constructor; [done|]. by inversion Hhd.
Qed.

Lemma insert_sorted_Sorted x l :
  Sorted (fun a b => le a b = true) l →
  Sorted (fun a b => le a b = true) (Sql.insert_sorted le x l).
Proof.
  induction 1 as [|y l Hsorted IH Hhd]; simpl.
  - by repeat constructor.
  - destruct (le x y) eqn:Hxy.
    + constructor; [by constructor|by constructor].
    + constructor; [done|]. apply HdRel_insert_sorted; [|done]. by apply le_total.
Qed.

Lemma sort_Sorted l : Sorted (fun a b => le a b = true) (Sql.sort le l).
Proof.
  induction l as [|x l IH]; simpl; [constructor|]. by apply insert_sorted_Sorted.
Qed.

End InsertionSort.

(** ** Rows in the order of the engine *)

Lemma map_snd_imap {A B : Type} (f : nat → A → B * A) (l : list A) :
  (forall i a, snd (f i a) = a) → map snd (imap f l) = l.
Proof.
  revert f. induction l as [|a l IH]; intros f Hf; [done|].
  rewrite imap_cons. cbn [map]. rewrite Hf. f_equal. apply IH. intros i b. apply Hf.
Qed.

(** Whatever way the engine walks a table, it visits every row once. *)
Lemma visited_perm (E : sql_engine) (table col : string) (vals : list sqlval) :
  visited E table col vals ≡ₚ vals.
Proof.
  unfold visited.
  rewrite <- (map_snd_imap (fun i v => (i, v)) vals) at 2 by done.
  apply Permutation_map, sort_perm.
Qed.

(** ** Bounded series *)

Section Caps.
Context (H : host) (E : sql_engine).
Implicit Types (w : worker).

Lemma length_slice_last {A : Type} (n : nat) (l : list A) :
  length (slice_last n l) = Nat.min n (length l).
Proof. unfold slice_last. rewrite length_drop. lia. Qed.

Lemma length_sorted_keys (buckets : gmap string nat) :
  length (sorted_keys buckets) = size buckets.
Proof.
  unfold sorted_keys.
  rewrite (Permutation_length (merge_sort_Permutation _ _)).
  rewrite length_map. apply length_map_to_list.
Qed.

Lemma length_number_from i rows : length (number_from i rows) = length rows.
Proof. revert i. induction rows as [|v rows IH]; intros i; simpl; [done|]. by rewrite IH. Qed.

Lemma buildVisits_length w table col vals buckets :
  select w table col = Ok vals →
  scan_visits H (map cell_of (take MAX_ROWS_SCAN (order_by_asc E vals))) ∅ = Ok buckets →
  exists l, buildVisits H E w table col = Ok l
            ∧ length l = Nat.min 24 (size buckets).
Proof.
  intros Hsel Hscan. unfold buildVisits. rewrite Hsel. simpl. rewrite Hscan. simpl.
  eexists. split; [reflexivity|].
  by rewrite length_map, length_slice_last, length_sorted_keys.
Qed.

Lemma buildVisits_cap w table col l :
  buildVisits H E w table col = Ok l → (length l <= 24)%nat.
Proof.
  unfold buildVisits. destruct (select w table col) as [vals|]; [|discriminate]. simpl.
  destruct (scan_visits _ _ _) as [buckets|]; [|discriminate]. simpl.
  intros [= <-]. rewrite length_map, length_slice_last. lia.
Qed.

Lemma buildDuration_length w table col vals :
  select w table col = Ok vals →
  exists l, buildDuration E w table col = Ok l
            ∧ length l
              = Nat.min 100 (length (filter (fun v => Sql.is_numeric v = true) vals)).
Proof.
  intros Hsel. unfold buildDuration. rewrite Hsel. simpl.
  eexists. split; [reflexivity|]. rewrite length_number_from, length_take.
  by rewrite (visited_perm E table col vals).
Qed.

Lemma buildDuration_cap w table col l :
  buildDuration E w table col = Ok l → (length l <= 100)%nat.
Proof.
  unfold buildDuration. destruct (select w table col) as [vals|]; [|discriminate]. simpl.
  intros [= <-]. rewrite length_number_from, length_take. lia.
Qed.

Lemma grouped_length w table col vals :
  select w table col = Ok vals →
  exists rows, grouped E w table col = Ok rows
               ∧ rows = take MAX_GROUP_ROWS (order_by_count_desc E (Sql.group_count vals)).
Proof. intros Hsel. unfold grouped. rewrite Hsel. simpl. eauto. Qed.

Lemma grouped_cap w table col rows :
  grouped E w table col = Ok rows → (length rows <= 50)%nat.
Proof.
  unfold grouped. destruct (select w table col) as [vals|]; [|discriminate]. simpl.
  intros [= <-]. rewrite length_take. unfold MAX_GROUP_ROWS. lia.
Qed.

Lemma buildStates_cap w table col l :
  buildStates H E w table col = Ok l → (length l <= 50)%nat.
Proof.
  unfold buildStates. destruct (grouped E w table col) as [rows|] eqn:Hg; [|discriminate].
  simpl. intros [= <-]. rewrite length_map. by eapply grouped_cap.
Qed.

Lemma buildOperators_cap w table col l :
  buildOperators H E w table col = Ok l → (length l <= 50)%nat.
Proof.
  unfold buildOperators. destruct (grouped E w table col) as [rows|] eqn:Hg; [|discriminate].
  simpl. intros [= <-]. rewrite length_map. by eapply grouped_cap.
Qed.

Lemma series_cap {A : Type} (n : nat) col (build : string → result (list A)) l :
  (forall c l, build c = Ok l → (length l <= n)%nat) →
  series col build = Ok l → (length l <= n)%nat.
Proof.
  intros Hb. destruct col as [c|]; simpl; [apply Hb|]. intros [= <-]. simpl. lia.
Qed.

Lemma aggregateTable_caps w table r :
  aggregateTable H E w table = Ok r → within_caps r.
Proof.
  unfold aggregateTable.
  destruct (listColumns w table) as [columns|]; [|discriminate]. simpl.
  destruct (series (find _ columns) (buildVisits H E w table)) as [vs|] eqn:Hv;
    [|discriminate]. simpl.
  destruct (series (find _ columns) (buildDuration E w table)) as [ds|] eqn:Hd;
    [|discriminate]. simpl.
  destruct (series (find _ columns) (buildStates H E w table)) as [ss|] eqn:Hs;
    [|discriminate]. simpl.
  destruct (series (find _ columns) (buildOperators H E w table)) as [os|] eqn:Ho;
    [|discriminate]. simpl.
  intros [= <-]. unfold within_caps. simpl. repeat split.
  - eapply series_cap; [|exact Hv]. apply buildVisits_cap.
  - eapply series_cap; [|exact Hs]. apply buildStates_cap.
  - eapply series_cap; [|exact Ho]. apply buildOperators_cap.
  - eapply series_cap; [|exact Hd]. apply buildDuration_cap.
Qed.

Lemma analysis_caps w r : analysis H E w = Ok r → within_caps r.
Proof.
  unfold analysis. destruct (listTables w) as [tables|]; [|discriminate]. simpl.
  destruct (length tables =? 0)%nat; [discriminate|].
  destruct (find _ tables) as [t|]; [|discriminate].
  destruct (String.eqb t ""); [discriminate|]. apply aggregateTable_caps.
Qed.

(** The outcome of a call is a guard's reason or that of the analysis on
    the handle the call opened. *)
Lemma analyzeDatabase_cases w buffer :
  (exists r, analyzeDatabase H E w buffer = (Throw (Reason r), w)
             ∧ (r = WORKER_NOT_READY ∨ r = EMPTY_FILE ∨ r = FILE_EXCEEDS_CAPACITY))
  ∨ (exists bytes, buffer = Some bytes ∧ SQL w = true ∧ admitted bytes
      ∧ analyzeDatabase H E w buffer
        = (analysis H E (openDb E bytes (closeDb w)), openDb E bytes (closeDb w))).
Proof.
  destruct (SQL w) eqn:Hsql; [|left; apply analyzeDatabase_guarded; eauto].
  destruct buffer as [bytes|]; [|left; apply analyzeDatabase_guarded; eauto].
  destruct bytes as [|b bytes]; [left; apply analyzeDatabase_guarded; eauto|].
  destruct (Z_le_gt_dec (Z.of_nat (length (b :: bytes))) MAX_DB_BYTES) as [Hle|Hgt].
  - right. exists (b :: bytes). repeat split; try done.
    by apply analyzeDatabase_admitted.
  - left. apply analyzeDatabase_guarded. do 3 right. exists (b :: bytes).
    split; [done|lia].
Qed.

End Caps.

(** C3: a successful analysis returns at most 24 visit buckets, 50 states,
    50 operators and 100 duration samples; and under an engine that orders as
    SQL requires the series of a column are the available groups, samples and
    buckets cut to these caps, whatever their number. *)
Theorem series_within_caps (H : host) (E : sql_engine) :
  (forall w buffer r w',
      analyzeDatabase H E w buffer = (Ok r, w') -> within_caps r)
  /\ (sql_conforming E ->
      forall w table col vals,
        select w table col = Ok vals ->
        (exists l, buildStates H E w table col = Ok l
                   /\ length l = Nat.min 50 (length (Sql.group_count vals)))
        /\ (exists l, buildOperators H E w table col = Ok l
                      /\ length l = Nat.min 50 (length (Sql.group_count vals)))
        /\ (exists l, buildDuration E w table col = Ok l
                      /\ length l
                         = Nat.min 100
                             (length (filter (fun v => Sql.is_numeric v = true) vals)))
        /\ (forall buckets,
              scan_visits H (map cell_of (take MAX_ROWS_SCAN (order_by_asc E vals))) ∅
              = Ok buckets ->
              exists l, buildVisits H E w table col = Ok l
                        /\ length l = Nat.min 24 (size buckets))).
Proof.
  split.
  - intros w buffer r w' Hrun.
    destruct (analyzeDatabase_cases H E w buffer)
      as [(rs & Heq & _)|(bytes & -> & _ & _ & Heq)]; rewrite Heq in Hrun.
    + discriminate.
    + injection Hrun as Hrun _. by eapply analysis_caps.
  - intros Hconf w table col vals Hsel.
    destruct (grouped_length E w table col vals Hsel) as (rows & Hrows & ->).
    assert (Hlen : length (take MAX_GROUP_ROWS
                             (order_by_count_desc E (Sql.group_count vals)))
                   = Nat.min 50 (length (Sql.group_count vals))).
    { rewrite length_take.
      by rewrite (Permutation_length (order_by_count_desc_perm E Hconf _)). }
    repeat split.
    + unfold buildStates. rewrite Hrows. simpl. eexists. split; [reflexivity|].
      by rewrite length_map.
    + unfold buildOperators. rewrite Hrows. simpl. eexists. split; [reflexivity|].
      by rewrite length_map.
    + by apply buildDuration_length.
    + intros buckets Hscan. by eapply buildVisits_length.
Qed.

Lemma series_within_caps_witness :
  within_caps
    (result_or_empty
       (fst (analyzeDatabase sample_host crowded_engine ready_worker (Some one_byte))))
  /\ length (states (result_or_empty
       (fst (analyzeDatabase sample_host crowded_engine ready_worker (Some one_byte)))))
     = 50%nat.
Proof.
  split; [|vm_compute; reflexivity].
  apply (proj1 (series_within_caps sample_host crowded_engine)
           ready_worker (Some one_byte) _
           (snd (analyzeDatabase sample_host crowded_engine ready_worker (Some one_byte)))).
  vm_compute. reflexivity.
Defined.

(** ** The order of SQL values *)

Module SqlOrder.

Lemma numeric_compare_antisym a b :
  Sql.numeric_compare b a = CompOpp (Sql.numeric_compare a b).
Proof.
  destruct a as [|m1 e1|], b as [|m2 e2|]; simpl; try reflexivity.
  rewrite (Z.min_comm e2 e1). apply Z.compare_antisym.
Qed.

Lemma bytes_compare_antisym a b :
  Sql.bytes_compare b a = CompOpp (Sql.bytes_compare a b).
Proof.
  revert b. induction a as [|x a IH]; intros [|y b]; simpl; try reflexivity.
  rewrite (N.compare_antisym (Byte.to_N x) (Byte.to_N y)).
  destruct (Byte.to_N x ?= Byte.to_N y)%N; simpl; auto.
Qed.

Lemma compare_antisym a b : Sql.compare b a = CompOpp (Sql.compare a b).
Proof.
  destruct a, b; cbn [Sql.compare]; try reflexivity;
    auto using Z.compare_antisym, numeric_compare_antisym,
      String.compare_antisym, bytes_compare_antisym.
Qed.

Lemma leb_total a b : Sql.leb a b = false → Sql.leb b a = true.
Proof.
  unfold Sql.leb. rewrite (compare_antisym a b).
  by destruct (Sql.compare a b).
Qed.

Lemma compare_refl a : Sql.compare a a = Eq.
Proof.
  pose proof (compare_antisym a a) as Hanti.
  by destruct (Sql.compare a a).
Qed.

Lemma eqb_refl a : Sql.eqb a a = true.
Proof. unfold Sql.eqb. by rewrite compare_refl. Qed.

Lemma eqb_sym a b : Sql.eqb a b = Sql.eqb b a.
Proof.
  unfold Sql.eqb. rewrite (compare_antisym a b).
  by destruct (Sql.compare a b).
Qed.

(** Two dyadic numbers compare equal exactly when they agree on any common
    scale. *)
Lemma scaled_eq m1 e1 m2 e2 e :
  e <= e1 → e <= e2 →
  (m1 * 2 ^ (e1 - Z.min e1 e2) = m2 * 2 ^ (e2 - Z.min e1 e2)
   ↔ m1 * 2 ^ (e1 - e) = m2 * 2 ^ (e2 - e)).
Proof.
  intros H1 H2. set (lo := Z.min e1 e2).
  assert (Hlo : e <= lo) by lia.
  replace (e1 - e) with ((e1 - lo) + (lo - e)) by lia.
  replace (e2 - e) with ((e2 - lo) + (lo - e)) by lia.
  rewrite !Z.pow_add_r by lia. rewrite !Z.mul_assoc.
  assert (Hpos : 0 < 2 ^ (lo - e)) by (apply Z.pow_pos_nonneg; lia).
  split; [by intros ->|]. intros Heq. apply Z.mul_cancel_r in Heq; lia.
Qed.

Lemma numeric_compare_eq_trans a b c :
  Sql.numeric_compare a b = Eq → Sql.numeric_compare b c = Eq →
  Sql.numeric_compare a c = Eq.
Proof.
  destruct a as [|m1 e1|], b as [|m2 e2|], c as [|m3 e3|]; simpl; try done.
  rewrite !Z.compare_eq_iff. intros H12 H23.
  set (e := Z.min e1 (Z.min e2 e3)).
  apply (scaled_eq m1 e1 m2 e2 e) in H12; [|lia..].
  apply (scaled_eq m2 e2 m3 e3 e) in H23; [|lia..].
  apply (scaled_eq m1 e1 m3 e3 e); [lia..|]. congruence.
Qed.

Lemma bytes_compare_eq a b : Sql.bytes_compare a b = Eq → a = b.
Proof.
  revert b. induction a as [|x a IH]; intros [|y b]; simpl; try done.
  destruct (Byte.to_N x ?= Byte.to_N y)%N eqn:Hxy; try done.
  intros Hab. apply N.compare_eq_iff in Hxy.
  f_equal; [|by apply IH].
  assert (Some x = Some y) as [= ->]; [|done].
  rewrite <- (Byte.of_to_N x), <- (Byte.of_to_N y). by rewrite Hxy.
Qed.

Lemma compare_Sql_measure a b x y :
  Sql_measure a = Some x → Sql_measure b = Some y →
  Sql.compare a b = Sql.numeric_compare x y.
Proof.
  destruct a, b; simpl; try done; intros [= <-] [= <-]; try reflexivity.
  simpl. by rewrite !Z.mul_1_r.
Qed.

Lemma eqb_trans a b c :
  Sql.eqb a b = true → Sql.eqb b c = true → Sql.eqb a c = true.
Proof.
  unfold Sql.eqb.
  destruct (Sql.compare a b) eqn:Hab; try done.
  destruct (Sql.compare b c) eqn:Hbc; try done. intros _ _.
  enough (Sql.compare a c = Eq) as -> by done.
  destruct (Sql_measure a) as [x|] eqn:Hx, (Sql_measure b) as [y|] eqn:Hy,
           (Sql_measure c) as [z|] eqn:Hz.
  - rewrite (compare_Sql_measure a c x z) by done.
    rewrite (compare_Sql_measure a b x y) in Hab by done.
    rewrite (compare_Sql_measure b c y z) in Hbc by done.
    by eapply numeric_compare_eq_trans.
  - destruct a, b, c; simpl in *; done.
  - destruct a, b, c; simpl in *; done.
  - destruct a, b, c; simpl in *; done.
  - destruct a, b, c; simpl in *; done.
  - destruct a, b, c; simpl in *; done.
  - destruct a, b, c; simpl in *; done.
  - destruct a, b, c; simpl in *; try done.
    + apply String.compare_eq_iff in Hab, Hbc. subst.
      pose proof (String.compare_antisym s1 s1). by destruct (s1 ?= s1)%string.
    + apply bytes_compare_eq in Hab, Hbc. subst.
      pose proof (bytes_compare_antisym bytes1 bytes1).
      by destruct (Sql.bytes_compare bytes1 bytes1).
Qed.

End SqlOrder.

Lemma Sorted_impl {A : Type} (R1 R2 : A → A → Prop) (l : list A) :
  (forall a b, R1 a b → R2 a b) → Sorted R1 l → Sorted R2 l.
Proof.
  intros HR. induction 1 as [|x l Hs IH Hhd]; constructor; [done|].
  destruct Hhd; constructor; auto.
Qed.

(** The stable sort by descending count lists by descending count. *)
Lemma sort_count_desc (g : list (sqlval * nat)) :
  Sorted (fun a b => (snd b <= snd a)%nat)
    (Sql.sort (fun a b => Nat.leb (snd b) (snd a)) g).
Proof.
  eapply Sorted_impl; [|apply sort_Sorted].
  - intros a b Hle. simpl in Hle. by apply Nat.leb_le.
  - intros a b Hle. simpl in *. apply Nat.leb_le. apply Nat.leb_gt in Hle. lia.
Qed.

(** SQLite orders as SQL requires, on a plain table and on an indexed one. *)
Lemma sqlite_conforming decode : sql_conforming (sqlite decode).
Proof.
  split; simpl.
  - intros l. apply sort_perm.
  - intros l. apply sort_Sorted. apply SqlOrder.leb_total.
  - intros g. by rewrite sort_perm, <- Permutation_rev, sort_perm.
  - intros g. apply sort_count_desc.
Qed.

Lemma sqlite_indexed_conforming decode : sql_conforming (sqlite_indexed decode).
Proof.
  split; simpl.
  - intros l. apply sort_perm.
  - intros l. apply sort_Sorted. apply SqlOrder.leb_total.
  - intros g. by rewrite !sort_perm.
  - intros g. apply sort_count_desc.
Qed.

(** ** Grouping *)

Section Grouping.
Implicit Types (g : list (sqlval * nat)) (v x k : sqlval) (p vals : list sqlval).

Lemma eqb_false_trans k v x :
  Sql.eqb k v = true → Sql.eqb k x = false → Sql.eqb v x = false.
Proof.
  intros Hkv Hkx. destruct (Sql.eqb v x) eqn:Hvx; [|done].
  by rewrite (SqlOrder.eqb_trans k v x) in Hkx.
Qed.

Lemma count_in_cons a g x :
  count_in (a :: g) x = if Sql.eqb (fst a) x then snd a else count_in g x.
Proof. unfold count_in. simpl. by destruct (Sql.eqb (fst a) x). Qed.

(** [bump v] adds one row to the group of [v]. *)
Lemma count_in_bump v g x :
  count_in (Sql.bump v g) x
  = (count_in g x + if Sql.eqb v x then 1 else 0)%nat.
Proof.
  induction g as [|[k n] g IH]; simpl.
  - unfold count_in. simpl. by destruct (Sql.eqb v x).
  - destruct (Sql.eqb k v) eqn:Hkv.
    + rewrite !count_in_cons. simpl. destruct (Sql.eqb k x) eqn:Hkx.
      * rewrite (SqlOrder.eqb_trans v k x); [lia| |done].
        by rewrite SqlOrder.eqb_sym.
      * rewrite (eqb_false_trans k v x) by done. lia.
    + rewrite !count_in_cons. simpl. destruct (Sql.eqb k x) eqn:Hkx; [|apply IH].
      destruct (Sql.eqb v x) eqn:Hvx; [|lia].
      rewrite (SqlOrder.eqb_trans k x v) in Hkv; [done|done|].
      by rewrite SqlOrder.eqb_sym.
Qed.

Lemma occurrences_snoc x p v :
  occurrences x (p ++ [v]) = (occurrences x p + if Sql.eqb v x then 1 else 0)%nat.
Proof.
  unfold occurrences. rewrite filter_app, length_app.
  rewrite (SqlOrder.eqb_sym v x). f_equal.
  rewrite filter_cons. destruct (decide (Sql.eqb x v = true)) as [->|Hne].
  - reflexivity.
  - by destruct (Sql.eqb x v).
Qed.

Lemma group_count_snoc p v :
  Sql.group_count (p ++ [v]) = Sql.bump v (Sql.group_count p).
Proof. unfold Sql.group_count. by rewrite fold_left_app. Qed.

Lemma count_in_group_count vals x :
  count_in (Sql.group_count vals) x = occurrences x vals.
Proof.
  induction vals as [|v p IH] using rev_ind; [done|].
  by rewrite group_count_snoc, count_in_bump, occurrences_snoc, IH.
Qed.

Lemma Forall_bump (P : sqlval → Prop) v g :
  P v → Forall (fun a => P (fst a)) g → Forall (fun a => P (fst a)) (Sql.bump v g).
Proof.
  intros Hv. induction 1 as [|[k n] g Hk Hg IH]; simpl.
  - by repeat constructor.
  - destruct (Sql.eqb k v); constructor; done.
Qed.

Lemma distinct_bump v g :
  ForallOrdPairs (fun a b => Sql.eqb (fst a) (fst b) = false) g →
  ForallOrdPairs (fun a b => Sql.eqb (fst a) (fst b) = false) (Sql.bump v g).
Proof.
  induction 1 as [|[k n] g Hk Hg IH]; simpl.
  - repeat constructor.
  - destruct (Sql.eqb k v) eqn:Hkv.
    + constructor; [|done]. exact Hk.
    + constructor; [|done].
      apply (Forall_bump (fun y => Sql.eqb k y = false)); done.
Qed.

Lemma positive_bump v g :
  Forall (fun a => (0 < snd a)%nat) g → Forall (fun a => (0 < snd a)%nat) (Sql.bump v g).
Proof.
  induction 1 as [|[k n] g Hk Hg IH]; simpl.
  - repeat constructor.
  - destruct (Sql.eqb k v); constructor; simpl in *; try done; lia.
Qed.

Lemma distinct_group_count vals :
  ForallOrdPairs (fun a b => Sql.eqb (fst a) (fst b) = false) (Sql.group_count vals).
Proof.
  induction vals as [|v p IH] using rev_ind; [constructor|].
  rewrite group_count_snoc. by apply distinct_bump.
Qed.

Lemma positive_group_count vals :
  Forall (fun a => (0 < snd a)%nat) (Sql.group_count vals).
Proof.
  induction vals as [|v p IH] using rev_ind; [constructor|].
  rewrite group_count_snoc. by apply positive_bump.
Qed.

(** Among groups of pairwise different keys, the group of a key is found
    by that key. *)
Lemma count_in_member g k n :
  ForallOrdPairs (fun a b => Sql.eqb (fst a) (fst b) = false) g →
  (k, n) ∈ g → count_in g k = n.
Proof.
  induction 1 as [|[k0 n0] g Hk0 Hg IH]; intros Hin.
  - by apply elem_of_nil in Hin.
  - rewrite count_in_cons. simpl. apply elem_of_cons in Hin as [[= -> ->]|Hin].
    + by rewrite SqlOrder.eqb_refl.
    + rewrite Forall_forall in Hk0. specialize (Hk0 (k, n)).
      simpl in Hk0. rewrite (Hk0 Hin). by apply IH.
Qed.

Lemma find_elem_of {A : Type} (f : A → bool) (l : list A) (a : A) :
  find f l = Some a → a ∈ l ∧ f a = true.
Proof.
  induction l as [|b l IH]; simpl; [done|].
  destruct (f b) eqn:Hb.
  - intros [= ->]. split; [apply list_elem_of_here|done].
  - intros Hfind. destruct (IH Hfind). split; [by apply list_elem_of_further|done].
Qed.

(** [GROUP BY] with [COUNT( * )] yields the grouping of the column. *)
Lemma group_count_is_grouping vals : is_grouping vals (Sql.group_count vals).
Proof.
  split.
  - apply distinct_group_count.
  - intros k n Hin. split.
    + rewrite <- count_in_group_count. symmetry.
      apply count_in_member; [apply distinct_group_count|done].
    + pose proof (positive_group_count vals) as Hpos.
      rewrite Forall_forall in Hpos.
      by apply (Hpos (k, n)).
  - intros v Hv.
    assert (Hocc : (0 < occurrences v vals)%nat).
    { unfold occurrences.
      assert (Hin : v ∈ filter (fun y => Sql.eqb v y = true) vals).
      { apply list_elem_of_filter. split; [apply SqlOrder.eqb_refl|done]. }
      destruct (filter _ vals); [by apply elem_of_nil in Hin|simpl; lia]. }
    rewrite <- count_in_group_count in Hocc. unfold count_in in Hocc.
    destruct (find _ (Sql.group_count vals)) as [[k n]|] eqn:Hfind; [|lia].
    apply find_elem_of in Hfind as [Hin Hk]. by exists k, n.
Qed.

Lemma Sorted_take {A : Type} (R : A → A → Prop) (n : nat) (l : list A) :
  Sorted R l → Sorted R (take n l).
Proof.
  intros Hs. revert n. induction Hs as [|x l Hs IH Hhd]; intros [|n]; simpl;
    try constructor.
  - apply IH.
  - destruct Hhd as [|y l]; destruct n; simpl; by constructor.
Qed.

End Grouping.

(** ** States and operators *)

Section GroupSeries.
Context (H : host) (E : sql_engine).

Lemma buildStates_rows w table col rows :
  grouped E w table col = Ok rows →
  buildStates H E w table col = Ok (map (state_entry H) rows).
Proof.
  intros Hg. unfold buildStates. rewrite Hg. cbn [mbind result_bind].
  f_equal. apply map_ext. by intros [k n].
Qed.

Lemma buildOperators_rows w table col rows :
  grouped E w table col = Ok rows →
  buildOperators H E w table col = Ok (map (operator_entry H) rows).
Proof.
  intros Hg. unfold buildOperators. rewrite Hg. cbn [mbind result_bind].
  f_equal. apply map_ext. by intros [k n].
Qed.

(** A list sorted by descending count that permutes a group of two rows and
    two groups of one starts with the group of two. *)
Lemma scenario_order (a t u : sqlval * nat) (ordered : list (sqlval * nat)) :
  snd a = 2%nat → snd t = 1%nat → snd u = 1%nat →
  ordered ≡ₚ [a; t; u] → Sorted count_desc ordered →
  exists second third, ordered = [a; second; third] ∧ [second; third] ≡ₚ [t; u].
Proof.
  intros Ha Ht Hu Hperm Hsorted.
  pose proof (Permutation_length Hperm) as Hlen.
  destruct ordered as [|x ordered]; [discriminate|].
  destruct ordered as [|y ordered]; [discriminate|].
  destruct ordered as [|z ordered]; [discriminate|].
  destruct ordered; [|discriminate].
  assert (Hy : (snd y <= snd x)%nat).
  { inversion Hsorted as [|? ? ? Hhd]; subst. by inversion Hhd. }
  assert (Hz : (snd z <= snd y)%nat).
  { inversion Hsorted as [|? ? Hs' ?]; subst.
    inversion Hs' as [|? ? ? Hhd]; subst. by inversion Hhd. }
  assert (Hin : a ∈ [x; y; z]) by (rewrite Hperm; apply list_elem_of_here).
  assert (Hx : x ∈ [a; t; u]) by (rewrite <- Hperm; apply list_elem_of_here).
  assert (Hxa : x = a).
  { apply elem_of_cons in Hx as [->|Hx]; [done|].
    assert (snd x = 1%nat) as Hx1.
    { apply elem_of_cons in Hx as [->|Hx]; [done|].
      apply elem_of_cons in Hx as [->|Hx]; [done|]. by apply elem_of_nil in Hx. }
    apply elem_of_cons in Hin as [->|Hin]; [done|].
    apply elem_of_cons in Hin as [->|Hin]; [lia|].
    apply elem_of_cons in Hin as [->|Hin]; [lia|]. by apply elem_of_nil in Hin. }
  subst x. exists y, z. split; [done|]. by apply Permutation_cons_inv in Hperm.
Qed.

End GroupSeries.

(** C6 (amended): under an engine that orders as SQL requires, [buildStates]
    and [buildOperators] return the first 50 rows of the grouping of the
    column (one entry per distinct value, with its number of rows) listed by
    descending count; the order among groups of equal count is the engine's.
    NULL is labelled UNKNOWN by the first and SYSTEM by the second, and a
    text value is its own label. On the values ADMIT, ADMIT, TRIAGE, NULL the
    states are ADMIT with 2, then TRIAGE with 1 and UNKNOWN with 1 in the
    order of the engine. *)
Theorem group_series_by_count
    (H : host) (E : sql_engine) (w : worker) (table col : string) (vals : list sqlval) :
  sql_conforming E -> select w table col = Ok vals ->
  (exists rows,
      buildStates H E w table col = Ok (map (state_entry H) rows)
      /\ buildOperators H E w table col = Ok (map (operator_entry H) rows)
      /\ rows = take MAX_GROUP_ROWS (order_by_count_desc E (Sql.group_count vals))
      /\ order_by_count_desc E (Sql.group_count vals) ≡ₚ Sql.group_count vals
      /\ is_grouping vals (Sql.group_count vals)
      /\ Sorted count_desc rows
      /\ (length rows <= 50)%nat)
  /\ (forall k n,
        StateCount.category (state_entry H (k, n))
        = match k with SNull => "UNKNOWN" | SText s => s | _ => label H "" (cell_of k) end
        /\ OperatorCount.name (operator_entry H (k, n))
           = match k with SNull => "SYSTEM" | SText s => s | _ => label H "" (cell_of k) end
        /\ StateCount.value (state_entry H (k, n)) = n
        /\ OperatorCount.value (operator_entry H (k, n)) = n)
  /\ (vals = status_scenario ->
      exists second third,
        buildStates H E w table col = Ok [admit_2; second; third]
        /\ [second; third] ≡ₚ [triage_1; unknown_1]).
Proof.
  intros Hconf Hsel.
  destruct (grouped_length E w table col vals Hsel) as (rows & Hrows & Hdef).
  pose proof (order_by_count_desc_perm E Hconf (Sql.group_count vals)) as Hperm.
  pose proof (order_by_count_desc_sorted E Hconf (Sql.group_count vals)) as Hsorted.
  split; [|split].
  - exists rows.
    split; [by apply buildStates_rows|].
    split; [by apply buildOperators_rows|].
    split; [done|]. split; [done|].
    split; [apply group_count_is_grouping|].
    split; [rewrite Hdef; by apply Sorted_take|].
    by eapply grouped_cap.
  - intros k n. by destruct k.
  - intros ->.
    change (Sql.group_count status_scenario)
      with [(SText "ADMIT", 2%nat); (SText "TRIAGE", 1%nat); (SNull, 1%nat)] in *.
    destruct (scenario_order (SText "ADMIT", 2%nat) (SText "TRIAGE", 1%nat)
                (SNull, 1%nat) _ eq_refl eq_refl eq_refl Hperm Hsorted)
      as (second & third & Hord & Hrest).
    rewrite Hord in Hdef. cbn [take MAX_GROUP_ROWS] in Hdef. subst rows.
    exists (state_entry H second), (state_entry H third). split.
    + by rewrite (buildStates_rows H E _ _ _ _ Hrows).
    + change [triage_1; unknown_1]
        with (map (state_entry H) [(SText "TRIAGE", 1%nat); (SNull, 1%nat)]).
      change [state_entry H second; state_entry H third]
        with (map (state_entry H) [second; third]).
      by apply Permutation_map.
Qed.

Lemma group_series_by_count_witness :
  exists second third,
    buildStates sample_host clinic_engine clinic_worker "patient_log" "status"
    = Ok [admit_2; second; third]
    /\ [second; third] ≡ₚ [triage_1; unknown_1].
Proof.
  apply (proj2 (proj2 (group_series_by_count sample_host clinic_engine clinic_worker
                         "patient_log" "status" status_scenario
                         (sqlite_conforming _) eq_refl))).
  reflexivity.
Defined.

(** C6, as stated, fails when the status column is indexed: SQLite then
    lists the groups of equal count in ascending order of their key, NULL
    first, so UNKNOWN comes before TRIAGE, in [buildStates] and in the result
    of the whole analysis. *)
Lemma states_scenario_order :
  select indexed_clinic_worker "patient_log" "status" = Ok status_scenario
  /\ buildStates sample_host indexed_clinic_engine indexed_clinic_worker
       "patient_log" "status"
     = Ok [admit_2; unknown_1; triage_1]
  /\ buildStates sample_host indexed_clinic_engine indexed_clinic_worker
       "patient_log" "status"
     <> Ok [admit_2; triage_1; unknown_1]
  /\ states (result_or_empty
               (fst (analyzeDatabase sample_host indexed_clinic_engine ready_worker
                       (Some one_byte))))
     = [admit_2; unknown_1; triage_1].
Proof.
  split; [reflexivity|]. split; [vm_compute; reflexivity|].
  split; [vm_compute; discriminate|]. vm_compute. reflexivity.
Qed.

(** On the same rows without an index on the status column, SQLite lists the
    groups of equal count in descending order of their key: TRIAGE comes
    before UNKNOWN. *)
Lemma states_scenario_plain :
  buildStates sample_host clinic_engine clinic_worker "patient_log" "status"
  = Ok [admit_2; triage_1; unknown_1].
Proof. vm_compute. reflexivity. Qed.

(** ** The database handle *)

Section Handle.
Context (H : host) (E : sql_engine).
Implicit Types (w : worker).

Lemma passes_guards_dec w buffer :
  passes_guards w buffer
  ∨ (SQL w = false ∨ buffer = None ∨ buffer = Some []
     ∨ exists bytes, buffer = Some bytes ∧ MAX_DB_BYTES < Z.of_nat (length bytes)).
Proof.
  destruct (SQL w) eqn:Hsql; [|by right; left].
  destruct buffer as [bytes|]; [|by right; right; left].
  destruct bytes as [|b bytes]; [by right; right; right; left|].
  destruct (Z_le_gt_dec (Z.of_nat (length (b :: bytes))) MAX_DB_BYTES) as [Hle|Hgt].
  - left. split; [done|]. exists (b :: bytes). by repeat split.
  - right. do 3 right. exists (b :: bytes). split; [done|lia].
Qed.

Lemma handles_closeDb_tidy w : tidy w → handles (closeDb w) = ∅.
Proof.
  intros Htidy. unfold closeDb. destruct (db w) as [i|] eqn:Hdb; simpl.
  - apply map_eq. intros j. rewrite lookup_empty.
    destruct (decide (i = j)) as [->|Hne]; [by rewrite lookup_delete_eq|].
    rewrite lookup_delete_ne by done.
    destruct (handles w !! j) eqn:Hj; [|done].
    assert (db w = Some j) by (apply Htidy; by rewrite Hj). congruence.
  - apply map_eq. intros j. rewrite lookup_empty.
    destruct (handles w !! j) eqn:Hj; [|done].
    assert (db w = Some j) by (apply Htidy; by rewrite Hj). congruence.
Qed.

End Handle.

(** C2 (amended): a call that passes the guards closes the handle the worker
    holds, then opens exactly one handle, and that handle is still open when
    the call exits, whether it returns or throws; a call stopped by a guard
    opens and closes nothing. When the worker holds every open handle before
    the call it does so after it, and at most one handle is open. *)
Theorem one_handle_per_job
    (H : host) (E : sql_engine) (w : worker) (buffer : option (list Byte.byte)) :
  let w' := snd (analyzeDatabase H E w buffer) in
  (~ passes_guards w buffer -> w' = w)
  /\ (forall bytes,
        SQL w = true -> buffer = Some bytes -> admitted bytes ->
        db w' = Some (opened w)
        /\ opened w' = S (opened w)
        /\ handles w' = <[opened w := open_database E bytes]> (handles (closeDb w))
        /\ handles w' !! opened w = Some (open_database E bytes)
        /\ (forall i, db w = Some i -> i <> opened w -> handles w' !! i = None))
  /\ (tidy w -> tidy w' /\ (size (handles w') <= 1)%nat).
Proof.
  cbv zeta. split; [|split].
  - intros Hguard.
    destruct (passes_guards_dec w buffer) as [Hpass|Hstop]; [done|].
    destruct (analyzeDatabase_guarded H E w buffer Hstop) as (r & -> & _). done.
  - intros bytes Hsql -> Hadm. rewrite analyzeDatabase_admitted by done. cbn [snd].
    unfold openDb. cbn [db opened handles].
    assert (Hopened : opened (closeDb w) = opened w).
    { unfold closeDb. by destruct (db w). }
    rewrite Hopened. split; [done|]. split; [done|]. split; [done|].
    split; [by rewrite lookup_insert_eq|].
    intros i Hdb Hne. rewrite lookup_insert_ne by done.
    unfold closeDb. rewrite Hdb. cbn [handles]. by rewrite lookup_delete_eq.
  - intros Htidy.
    destruct (passes_guards_dec w buffer) as [(Hsql & bytes & -> & Hadm)|Hstop].
    + rewrite analyzeDatabase_admitted by done. cbn [snd].
      unfold tidy, openDb. cbn [db handles].
      rewrite (handles_closeDb_tidy w Htidy).
      split.
      * intros i [x Hx]. apply lookup_insert_Some in Hx as [[<- _]|[_ Hx]]; [done|].
        by rewrite lookup_empty in Hx.
      * rewrite map_size_insert_None by apply lookup_empty.
        rewrite map_size_empty. lia.
    + destruct (analyzeDatabase_guarded H E w buffer Hstop) as (r & -> & _).
      cbn [snd]. split; [done|].
      destruct (db w) as [i|] eqn:Hdb.
      * assert (Hsub : handles w ⊆ {[i := default None (handles w !! i)]}).
        { apply map_subseteq_spec. intros j x Hj.
          assert (db w = Some j) as Hj' by (apply Htidy; by rewrite Hj).
          assert (j = i) as -> by congruence.
          rewrite lookup_singleton_eq. by rewrite Hj. }
        apply map_subseteq_size in Hsub. rewrite map_size_singleton in Hsub. exact Hsub.
      * assert (handles w = ∅) as ->; [|rewrite map_size_empty; lia].
        apply map_eq. intros j. rewrite lookup_empty.
        destruct (handles w !! j) eqn:Hj; [|done].
        assert (db w = Some j) by (apply Htidy; by rewrite Hj). congruence.
Qed.

Lemma tidy_ready_worker : tidy ready_worker.
Proof. intros i [x Hx]. cbn [ready_worker handles] in Hx. by rewrite lookup_empty in Hx. Qed.

Lemma one_handle_per_job_witness :
  tidy (snd (analyzeDatabase sample_host clinic_engine ready_worker (Some one_byte)))
  /\ (size (handles (snd (analyzeDatabase sample_host clinic_engine ready_worker
                            (Some one_byte)))) <= 1)%nat.
Proof.
  apply (proj2 (proj2 (one_handle_per_job sample_host clinic_engine ready_worker
                         (Some one_byte)))).
  exact tidy_ready_worker.
Defined.

(** C2, as stated, fails: after a call that returns a result, and after a
    call that throws [NO_TABLES_FOUND], the handle the call opened is still
    held by the worker and open in the engine. *)
Lemma handle_left_open :
  (exists r w',
      analyzeDatabase sample_host clinic_engine ready_worker (Some one_byte) = (Ok r, w')
      /\ db w' = Some O /\ handles w' !! O = Some (Some clinic_db))
  /\ (exists w',
        analyzeDatabase sample_host bare_engine ready_worker (Some one_byte)
        = (Throw (Reason NO_TABLES_FOUND), w')
        /\ db w' = Some O /\ handles w' !! O = Some (Some [])).
Proof.
  split.
  - eexists _, _. split; [vm_compute; reflexivity|]. split; reflexivity.
  - eexists. split; [vm_compute; reflexivity|]. split; reflexivity.
Qed.

(** ** Determinism of the analysis *)

Section Determinism.
Context (H : host) (E : sql_engine).
Implicit Types (w : worker).

(** The aggregation reads the worker only through the database behind its
    handle. *)
Lemma select_prepare w1 w2 table col :
  prepare w1 = prepare w2 → select w1 table col = select w2 table col.
Proof. intros Hp. unfold select. by rewrite Hp. Qed.

Lemma series_ext {A : Type} col (f g : string → result (list A)) :
  (forall c, f c = g c) → series col f = series col g.
Proof. intros Hfg. destruct col; simpl; [apply Hfg|done]. Qed.

Lemma aggregateTable_prepare w1 w2 table :
  prepare w1 = prepare w2 →
  aggregateTable H E w1 table = aggregateTable H E w2 table.
Proof.
  intros Hp.
  assert (Hsel : forall c, select w1 table c = select w2 table c)
    by (intros; by apply select_prepare).
  unfold aggregateTable, listColumns. rewrite Hp.
  destruct (prepare w2) as [d|e]; [|reflexivity]. cbn [mbind result_bind].
  rewrite (series_ext _ (buildVisits H E w1 table) (buildVisits H E w2 table)).
  2: { intros c. unfold buildVisits. by rewrite Hsel. }
  rewrite (series_ext _ (buildDuration E w1 table) (buildDuration E w2 table)).
  2: { intros c. unfold buildDuration. by rewrite Hsel. }
  rewrite (series_ext _ (buildStates H E w1 table) (buildStates H E w2 table)).
  2: { intros c. unfold buildStates, grouped. by rewrite Hsel. }
  rewrite (series_ext _ (buildOperators H E w1 table) (buildOperators H E w2 table)).
  2: { intros c. unfold buildOperators, grouped. by rewrite Hsel. }
  reflexivity.
Qed.

Lemma analysis_prepare w1 w2 :
  prepare w1 = prepare w2 → analysis H E w1 = analysis H E w2.
Proof.
  intros Hp. pose proof (aggregateTable_prepare w1 w2) as Hagg.
  unfold analysis, listTables. rewrite Hp.
  destruct (prepare w2) as [d|e] eqn:Hp2; [|reflexivity]. cbn [mbind result_bind].
  destruct (length (table_names d) =? 0)%nat; [reflexivity|].
  destruct (find _ _) as [t|]; [|reflexivity].
  destruct (String.eqb t ""); [reflexivity|]. apply Hagg. congruence.
Qed.

Lemma analyzeDatabase_outcome w1 w2 buffer :
  SQL w1 = SQL w2 →
  fst (analyzeDatabase H E w1 buffer) = fst (analyzeDatabase H E w2 buffer).
Proof.
  intros Hsql.
  destruct (analyzeDatabase_cases H E w1 buffer)
    as [(r1 & Heq1 & Hr1)|(bytes & -> & Hsql1 & Hadm & Heq1)].
  - unfold analyzeDatabase in *. rewrite <- Hsql.
    destruct (SQL w1); cbn [negb] in *; [|done].
    destruct buffer as [bytes|]; [|done].
    destruct (length bytes =? 0)%nat; [done|].
    destruct (Z.of_nat (length bytes) >? MAX_DB_BYTES); [done|].
    cbn [fst snd] in *. injection Heq1 as Heq1 Hw.
    exfalso. clear -Hw. unfold openDb in Hw.
    assert (Hop : opened w1 = S (opened (closeDb w1))) by (by rewrite <- Hw at 1).
    unfold closeDb in Hop. destruct (db w1); simpl in Hop; lia.
  - rewrite Heq1, analyzeDatabase_admitted by congruence. cbn [fst].
    apply analysis_prepare. by rewrite !prepare_openDb.
Qed.

Lemma SQL_analyzeDatabase w buffer :
  SQL (snd (analyzeDatabase H E w buffer)) = SQL w.
Proof.
  destruct (analyzeDatabase_cases H E w buffer)
    as [(r & -> & _)|(bytes & -> & _ & _ & ->)]; [done|].
  cbn [snd]. unfold openDb, closeDb. by destruct (db w).
Qed.

Lemma busy_analyzeDatabase w buffer :
  busy (snd (analyzeDatabase H E w buffer)) = busy w.
Proof.
  destruct (analyzeDatabase_cases H E w buffer)
    as [(r & -> & _)|(bytes & -> & _ & _ & ->)]; [done|].
  cbn [snd]. unfold openDb, closeDb. by destruct (db w).
Qed.

End Determinism.

(** C9: a second run of [analyzeDatabase] on the same bytes, from the state
    the first run left, returns the result of the first; and so do two
    [ANALYZE] messages with these bytes handled one after the other. The
    result does not depend on the handle or the flags the worker starts with. *)
Theorem sequential_runs_agree
    (H : host) (E : sql_engine) (w : worker) (buffer : option (list Byte.byte))
    (r : AggregateResult) (w' : worker) :
  analyzeDatabase H E w buffer = (Ok r, w') ->
  (exists w'', analyzeDatabase H E w' buffer = (Ok r, w''))
  /\ (forall w0, SQL w0 = true -> fst (analyzeDatabase H E w0 buffer) = Ok r)
  /\ (busy w = false ->
      exists w1 w2,
        onmessage H E w (ANALYZE buffer) = ([ANALYSIS_COMPLETE r], w1)
        /\ onmessage H E w1 (ANALYZE buffer) = ([ANALYSIS_COMPLETE r], w2)).
Proof.
  intros Hrun.
  assert (Hsql : SQL w = true).
  { destruct (SQL w) eqn:Hsql; [done|].
    rewrite analyzeDatabase_not_ready in Hrun by done. discriminate. }
  assert (Hany : forall w0, SQL w0 = true -> fst (analyzeDatabase H E w0 buffer) = Ok r).
  { intros w0 Hw0. rewrite (analyzeDatabase_outcome H E w0 w) by congruence.
    by rewrite Hrun. }
  assert (Hsql' : SQL w' = true).
  { pose proof (SQL_analyzeDatabase H E w buffer) as Hs. rewrite Hrun in Hs.
    cbn [snd] in Hs. congruence. }
  split; [|split].
  - exists (snd (analyzeDatabase H E w' buffer)).
    rewrite <- (Hany w' Hsql'). by destruct (analyzeDatabase H E w' buffer).
  - exact Hany.
  - intros Hbusy.
    set (start (x : worker) := {| SQL := SQL x; db := db x; busy := true;
                                  handles := handles x; opened := opened x |}).
    set (finish (x : worker) := {| SQL := SQL x; db := db x; busy := false;
                                   handles := handles x; opened := opened x |}).
    assert (Hstep : forall x, SQL x = true -> busy x = false ->
              onmessage H E x (ANALYZE buffer)
              = ([ANALYSIS_COMPLETE r],
                 finish (snd (analyzeDatabase H E (start x) buffer)))).
    { intros x Hx Hbx. unfold onmessage, onmessage_begin. rewrite Hbx.
      fold (start x).
      pose proof (Hany (start x) Hx) as Hres.
      destruct (analyzeDatabase H E (start x) buffer) as [outcome x'].
      cbn [fst snd] in *. subst outcome. reflexivity. }
    eexists _, _. split; [by apply Hstep|]. apply Hstep.
    + unfold finish. cbn [SQL]. by rewrite SQL_analyzeDatabase.
    + reflexivity.
Qed.

Lemma sequential_runs_agree_witness :
  fst (analyzeDatabase sample_host clinic_engine
         (snd (analyzeDatabase sample_host clinic_engine ready_worker (Some one_byte)))
         (Some one_byte))
  = Ok (result_or_empty
          (fst (analyzeDatabase sample_host clinic_engine ready_worker (Some one_byte)))).
Proof.
  apply (proj1 (proj2 (sequential_runs_agree sample_host clinic_engine ready_worker
                         (Some one_byte)
                         (result_or_empty
                            (fst (analyzeDatabase sample_host clinic_engine
                                    ready_worker (Some one_byte))))
                         (snd (analyzeDatabase sample_host clinic_engine
                                 ready_worker (Some one_byte)))
                         ltac:(vm_compute; reflexivity)))).
  reflexivity.
Defined.

(** ** The order of strings *)

Lemma ascii_compare_lt_trans (a b c : ascii) :
  Ascii.compare a b = Lt → Ascii.compare b c = Lt → Ascii.compare a c = Lt.
Proof.
  unfold Ascii.compare. rewrite !N.compare_lt_iff. apply N.lt_trans.
Qed.

Lemma string_compare_refl (s : string) : String.compare s s = Eq.
Proof.
  pose proof (String.compare_antisym s s) as Hanti.
  by destruct (String.compare s s).
Qed.

Lemma string_lt_trans (a b c : string) :
  string_lt a b → string_lt b c → string_lt a c.
Proof.
  unfold string_lt. revert b c.
  induction a as [|x a IH]; intros [|y b] [|z c]; simpl; try done.
  destruct (Ascii.compare x y) eqn:Hxy, (Ascii.compare y z) eqn:Hyz; try done.
  - apply Ascii.compare_eq_iff in Hxy, Hyz. subst.
    pose proof (Ascii.compare_antisym z z) as Hanti.
    destruct (Ascii.compare z z); try done. apply IH.
  - apply Ascii.compare_eq_iff in Hxy. subst. by rewrite Hyz.
  - apply Ascii.compare_eq_iff in Hyz. subst. by rewrite Hxy.
  - by rewrite (ascii_compare_lt_trans x y z).
Qed.

Lemma le_cases (a b : string) : JsString.le a b ↔ a = b ∨ string_lt a b.
Proof.
  unfold JsString.le, string_lt, String.leb.
  destruct (String.compare a b) eqn:Hab.
  - apply String.compare_eq_iff in Hab. subst. by split; [left|].
  - by split; [right|].
  - split; [done|]. intros [->|?]; [|done]. by rewrite string_compare_refl in Hab.
Qed.

#[local] Instance le_total : Total JsString.le.
Proof. intros a b. apply String.leb_total. Qed.

#[local] Instance le_trans : Transitive JsString.le.
Proof.
  intros a b c. rewrite !le_cases. intros [->|Hab] [->|Hbc]; auto.
  right. by eapply string_lt_trans.
Qed.

Lemma string_lt_irrefl (a : string) : ¬ string_lt a a.
Proof. unfold string_lt. by rewrite string_compare_refl. Qed.

(** ** Hourly visits *)

Section Visits.
Context (H : host) (E : sql_engine).
Implicit Types (buckets : gmap string nat) (keys : list string) (rows : list cell).

Lemma keys_of_cons raw rows :
  keys_of H (raw :: rows)
  = match bucket_key H raw with
    | Some (Ok key) => key :: keys_of H rows
    | _ => keys_of H rows
    end.
Proof. unfold keys_of. simpl. by destruct (bucket_key H raw) as [[key|e]|]. Qed.

(** On rows that do not throw, the loop counts the keys. *)
Lemma scan_visits_keys rows buckets :
  Forall (datable H) rows →
  scan_visits H rows buckets = Ok (foldl count_key buckets (keys_of H rows)).
Proof.
  intros Hrows. revert buckets.
  induction Hrows as [|raw rows Hraw Hrows IH]; intros buckets; [done|].
  rewrite keys_of_cons. unfold datable, bucket_key in *. simpl.
  destruct (normalizeDate H raw) as [date|]; simpl in *; [|apply IH].
  destruct (hour_key H date) as [key|e]; simpl; [apply IH|].
  by destruct (Hraw e).
Qed.

(** A row that throws stops the loop with its error. *)
Lemma scan_visits_throw rows raw rest buckets e :
  Forall (datable H) rows → bucket_key H raw = Some (Throw e) →
  scan_visits H (rows ++ raw :: rest) buckets = Throw e.
Proof.
  intros Hrows Hraw. revert buckets.
  induction Hrows as [|r rows Hr Hrows IH]; intros buckets; simpl.
  - unfold bucket_key in Hraw. destruct (normalizeDate H raw) as [date|]; [|done].
    simpl in Hraw. injection Hraw as ->. done.
  - unfold datable, bucket_key in Hr.
    destruct (normalizeDate H r) as [date|]; simpl in *; [|apply IH].
    destruct (hour_key H date) as [key|e']; simpl; [apply IH|].
    by destruct (Hr e').
Qed.

Lemma lookup_count_keys keys buckets k :
  foldl count_key buckets keys !! k
  = match count_occ string_dec keys k with
    | O => buckets !! k
    | S c => Some (default O (buckets !! k) + S c)%nat
    end.
Proof.
  revert buckets. induction keys as [|x keys IH]; intros buckets; [done|].
  cbn [foldl count_occ]. rewrite IH. unfold count_key.
  destruct (string_dec x k) as [->|Hne].
  - rewrite lookup_insert_eq. cbn [default from_option id].
    destruct (count_occ string_dec keys k); f_equal; lia.
  - by rewrite lookup_insert_ne.
Qed.

Lemma lookup_counted keys k :
  foldl count_key ∅ keys !! k
  = match count_occ string_dec keys k with
    | O => None
    | S c => Some (S c)
    end.
Proof.
  rewrite lookup_count_keys, lookup_empty. by destruct (count_occ string_dec keys k).
Qed.

Lemma elem_of_sorted_keys buckets k : k ∈ sorted_keys buckets ↔ is_Some (buckets !! k).
Proof.
  unfold sorted_keys. rewrite merge_sort_Permutation.
  change (map fst (map_to_list buckets)) with ((map_to_list buckets).*1).
  rewrite list_elem_of_fmap. split.
  - intros ([k' n] & -> & Hin). apply elem_of_map_to_list in Hin. by exists n.
  - intros [n Hn]. exists (k, n). split; [done|]. by apply elem_of_map_to_list.
Qed.

Lemma NoDup_sorted_keys buckets : NoDup (sorted_keys buckets).
Proof.
  unfold sorted_keys. rewrite merge_sort_Permutation. apply NoDup_fst_map_to_list.
Qed.

Lemma sorted_keys_ascending buckets : StronglySorted JsString.le (sorted_keys buckets).
Proof. unfold sorted_keys. apply StronglySorted_merge_sort; apply _. Qed.

(** Sorted without repetition is strictly ascending. *)
Lemma strictly_ascending (l : list string) :
  StronglySorted JsString.le l → NoDup l → StronglySorted string_lt l.
Proof.
  induction 1 as [|x l Hl IH Hx]; intros Hnd; [constructor|].
  apply NoDup_cons in Hnd as [Hnotin Hnd]. constructor; [by apply IH|].
  rewrite Forall_forall in Hx |- *. intros y Hy.
  destruct (proj1 (le_cases x y) (Hx y Hy)) as [->|Hlt]; [done|done].
Qed.

Lemma slice_last_split {A : Type} (n : nat) (l : list A) :
  l = (take (length l - n) l ++ slice_last n l)%list.
Proof. unfold slice_last. by rewrite take_drop. Qed.

End Visits.

Section VisitSeries.
Context (H : host) (E : sql_engine).

Lemma dates_of_buckets (buckets : gmap string nat) (keys : list string) :
  map Visit.date
    (map (fun k => {| Visit.date := k; Visit.value := default O (buckets !! k) |}) keys)
  = keys.
Proof. rewrite map_map. simpl. apply map_id. Qed.

Lemma buildVisits_datable w table col vals :
  select w table col = Ok vals →
  Forall (datable H) (scanned E vals) →
  buildVisits H E w table col
  = Ok (map (fun k => {| Visit.date := k;
                         Visit.value :=
                           default O (foldl count_key ∅ (keys_of H (scanned E vals)) !! k) |})
          (slice_last 24 (sorted_keys (foldl count_key ∅ (keys_of H (scanned E vals)))))).
Proof.
  intros Hsel Hrows. unfold buildVisits. rewrite Hsel. cbn [mbind result_bind].
  fold (scanned E vals). by rewrite scan_visits_keys.
Qed.

(** A row that throws makes [buildVisits] throw. *)
Lemma buildVisits_throw w table col vals rows raw rest e :
  select w table col = Ok vals →
  scanned E vals = (rows ++ raw :: rest)%list →
  Forall (datable H) rows → bucket_key H raw = Some (Throw e) →
  buildVisits H E w table col = Throw e.
Proof.
  intros Hsel Hscan Hrows Hraw. unfold buildVisits. rewrite Hsel.
  cbn [mbind result_bind]. fold (scanned E vals). rewrite Hscan.
  by rewrite (scan_visits_throw H rows raw rest ∅ e).
Qed.

Lemma top_of_hour_spec (t : Z) :
  top_of_hour t <= t < top_of_hour t + JsDate.msPerHour
  ∧ top_of_hour t mod JsDate.msPerHour = 0.
Proof.
  unfold top_of_hour, JsDate.msPerHour. split.
  - pose proof (Z.mod_pos_bound t 3600000 ltac:(lia)).
    pose proof (Z.div_mod t 3600000 ltac:(lia)). lia.
  - apply Z.mod_mul. lia.
Qed.

End VisitSeries.

(** C5 (amended): [normalizeDate] reads a number above 1e12 as epoch
    milliseconds, a number above 1e9 as epoch seconds, and anything else
    through the date constructor, giving [null] for NULL and for what does
    not parse; [setMinutes(0, 0, 0)] moves a timestamp to the top of its hour
    in the local time of the worker. [buildVisits] scans the first 5000
    values in the ascending order of the engine; when none of them makes
    [toISOString] throw, it returns at most 24 buckets, strictly ascending by
    key, each with the number of scanned rows that fall under its key, and a
    key that is left out is below every key returned, which are then 24. *)
Theorem hourly_visits
    (H : host) (E : sql_engine) (w : worker) (table col : string) (vals : list sqlval) :
  select w table col = Ok vals ->
  Forall (datable H) (scanned E vals) ->
  let keys := keys_of H (scanned E vals) in
  (exists out,
      buildVisits H E w table col = Ok out
      /\ StronglySorted string_lt (map Visit.date out)
      /\ (length out <= 24)%nat
      /\ (forall v, v ∈ out ->
            Visit.value v = count_occ string_dec keys (Visit.date v)
            /\ (0 < Visit.value v)%nat)
      /\ (forall k, k ∈ keys ->
            k ∈ map Visit.date out
            \/ (length out = 24%nat
                /\ forall d, d ∈ map Visit.date out -> string_lt k d)))
  /\ (forall x,
        normalizeDate H (Num x)
        = if Num.gt x (Num.of_Z 1000000000000) then Some (JsDate.TimeClip x)
          else if Num.gt x (Num.of_Z 1000000000)
               then Some (JsDate.TimeClip (Num.mul x (Num.of_Z 1000)))
               else match JsDate.TimeClip x with
                    | Some tv => Some (Some tv)
                    | None => None
                    end)
  /\ normalizeDate H Null = None
  /\ (forall s,
        normalizeDate H (Str s)
        = match Date_parse H s with Some tv => Some (Some tv) | None => None end)
  /\ (forall tv,
        let top := top_of_hour (local_time H tv) in
        top <= local_time H tv < top + 3600000
        /\ top mod 3600000 = 0
        /\ hour_key H (Some tv)
           = match JsDate.clip (top - LocalTZA H top false) with
             | Some u => Ok (JsDate.iso_string u)
             | None => Throw (RangeError "Invalid time value")
             end).
Proof.
  intros Hsel Hrows keys.
  split; [|split; [|split; [|split]]].
  - set (buckets := foldl count_key ∅ keys).
    exists (map (fun k => {| Visit.date := k; Visit.value := default O (buckets !! k) |})
              (slice_last 24 (sorted_keys buckets))).
    split; [by apply buildVisits_datable|].
    rewrite dates_of_buckets.
    pose proof (strictly_ascending _ (sorted_keys_ascending buckets)
                  (NoDup_sorted_keys buckets)) as Hasc.
    rewrite (slice_last_split 24 (sorted_keys buckets)) in Hasc.
    apply StronglySorted_app in Hasc as (Hsplit & _ & Hsuf).
    split; [done|].
    split; [rewrite length_map, length_slice_last; lia|].
    split.
    + intros v Hv. apply list_elem_of_In, in_map_iff in Hv as (k & <- & Hk).
      apply list_elem_of_In in Hk. cbn [Visit.date Visit.value].
      assert (Hin : k ∈ sorted_keys buckets).
      { rewrite (slice_last_split 24 (sorted_keys buckets)).
        apply elem_of_app. by right. }
      apply elem_of_sorted_keys in Hin as [n Hn].
      unfold buckets in Hn |- *. rewrite lookup_counted in Hn |- *.
      destruct (count_occ string_dec keys k); [done|].
      cbn [default from_option id]. split; [done|lia].
    + intros k Hk.
      assert (Hin : k ∈ sorted_keys buckets).
      { apply elem_of_sorted_keys. unfold buckets. rewrite lookup_counted.
        apply list_elem_of_In in Hk.
        apply (count_occ_In string_dec) in Hk.
        destruct (count_occ string_dec keys k); [lia|done]. }
      rewrite (slice_last_split 24 (sorted_keys buckets)) in Hin.
      apply elem_of_app in Hin as [Hpre|Hsuf']; [right|by left].
      split.
      * rewrite length_map, length_slice_last.
        assert (Hlen : (0 < length (take (length (sorted_keys buckets) - 24)
                                      (sorted_keys buckets)))%nat).
        { destruct (take _ _); [by apply elem_of_nil in Hpre|simpl; lia]. }
        rewrite length_take in Hlen. lia.
      * intros d Hd. by apply Hsplit.
  - intros x. unfold normalizeDate, JsDate.of_number. cbv zeta.
    destruct (Num.gt x (Num.of_Z 1000000000000)); [reflexivity|].
    destruct (Num.gt x (Num.of_Z 1000000000)); [reflexivity|].
    by destruct (JsDate.TimeClip x).
  - done.
  - intros s. unfold normalizeDate, JsDate.of_string. cbv zeta.
    by destruct (Date_parse H s).
  - intros tv top. subst top.
    destruct (top_of_hour_spec (local_time H tv)) as [Hbound Hmod].
    split; [exact Hbound|]. split; [exact Hmod|].
    unfold hour_key, JsDate.setMinutes_0_0_0, JsDate.toISOString.
    fold (local_time H tv). fold (top_of_hour (local_time H tv)).
    by destruct (JsDate.clip _).
Qed.

Lemma datableb_datable (H : host) (rows : list cell) :
  forallb (datableb H) rows = true → Forall (datable H) rows.
Proof.
  intros Hall. apply Forall_forall. intros raw Hraw e Hthrow.
  rewrite forallb_forall in Hall. specialize (Hall raw (proj1 (list_elem_of_In _ _) Hraw)).
  unfold datableb in Hall. by rewrite Hthrow in Hall.
Qed.

Lemma hourly_visits_witness :
  exists out,
    buildVisits sample_host (visits_engine three_hours) (visits_worker three_hours)
      "patient_visits" "timestamp" = Ok out
    /\ StronglySorted string_lt (map Visit.date out)
    /\ (length out <= 24)%nat.
Proof.
  destruct (proj1 (hourly_visits sample_host (visits_engine three_hours)
                     (visits_worker three_hours) "patient_visits" "timestamp"
                     three_hours
                     ltac:(vm_compute; reflexivity)
                     ltac:(apply datableb_datable; vm_compute; reflexivity)))
    as (out & Hout & Hsorted & Hlen & _).
  exists out. split; [exact Hout|]. split; [exact Hsorted|exact Hlen].
Defined.

(** Thirty rows in three hours give three buckets with the rows of each hour. *)
Lemma three_hours_three_buckets :
  buildVisits sample_host (visits_engine three_hours) (visits_worker three_hours)
    "patient_visits" "timestamp"
  = Ok [ {| Visit.date := "2023-11-14T22:00:00.000Z"; Visit.value := 10 |};
         {| Visit.date := "2023-11-14T23:00:00.000Z"; Visit.value := 12 |};
         {| Visit.date := "2023-11-15T00:00:00.000Z"; Visit.value := 8 |} ].
Proof. vm_compute. reflexivity. Qed.

(** C5, as stated, fails: a number above 8.64e15 is not skipped but makes
    [toISOString] throw; of 5001 rows in one hour only 5000 are counted; and
    in a zone half an hour off the full hours the key of a bucket has its
    minutes at 30. *)
Lemma visits_as_stated_fail :
  buildVisits sample_host (visits_engine far_future) (visits_worker far_future)
    "patient_visits" "timestamp"
  = Throw (RangeError "Invalid time value")
  /\ (length one_hour_crowd = S (50 * 100)
      /\ buildVisits sample_host (visits_engine one_hour_crowd)
           (visits_worker one_hour_crowd) "patient_visits" "timestamp"
         = Ok [ {| Visit.date := "2023-11-14T22:00:00.000Z";
                   Visit.value := 50 * 100 |} ])
  /\ buildVisits half_hour_host (visits_engine [SInteger 1700000000])
       (visits_worker [SInteger 1700000000]) "patient_visits" "timestamp"
     = Ok [ {| Visit.date := "2023-11-14T21:30:00.000Z"; Visit.value := 1 |} ].
Proof.
  split; [vm_compute; reflexivity|]. split; [|vm_compute; reflexivity].
  split; [vm_compute; reflexivity|]. vm_compute. reflexivity.
Qed.

(** ** One job at a time *)

Ltac flags :=
  cbn [app page thread inbox outbox readers stage globals awaiting fst snd
       setStatus set_isProcessing set_data has_worker workerReady isProcessing
       foldl perform with_app with_thread new_thread accepts_messages] in *.

Section SingleJob.
Context (H : host) (E : sql_engine) (P : page_host).
Implicit Types (s : system) (a : app_state).

Lemma maybeRestartWorker_cases a :
  (maybeRestartWorker a = (a, []))
  ∨ (exists a', maybeRestartWorker a = (a', [SpawnWorker])
                ∧ has_worker a' = true ∧ workerReady a' = false
                ∧ isProcessing a' = isProcessing a).
Proof.
  unfold maybeRestartWorker, initWorker.
  destruct (MAX_WORKER_RESTARTS <=? workerRestarts a)%nat; [by left|].
  right. eexists. by repeat split.
Qed.

(** What [handleWorkerMessage] does to the flags of the controller. *)
Lemma flags_after_message r a h :
  let a' := fst (handleWorkerMessage P (fst (deliver r h)) a (snd (deliver r h))) in
  has_worker a' = has_worker a
  ∧ workerReady a' = match r with READY => true | _ => workerReady a end
  ∧ isProcessing a' = match r with READY => isProcessing a | _ => false end.
Proof.
  destruct r as [|payload|error]; cbn [deliver].
  - by cbn.
  - destruct (clone_result payload h) as [v h'] eqn:Hclone. cbn [fst snd].
    unfold handleWorkerMessage.
    destruct (validatePayload h' v) as [validated h''].
    destruct (negb (ok validated)); [by cbn|].
    destruct (mapM _ _); by cbn.
  - by cbn.
Qed.

Lemma replies_le (l : list response) :
  (length (filter (fun r => is_reply r = true) l) <= length l)%nat.
Proof. apply length_filter. Qed.

Lemma replies_all (l : list response) :
  Forall (fun r => is_reply r = true) l →
  filter (fun r => is_reply r = true) l = l.
Proof.
  induction 1 as [|r l Hr Hl IH]; [done|].
  rewrite filter_cons. destruct (decide (is_reply r = true)); [by rewrite IH|done].
Qed.

(** [coherent] reads the controller through its three flags only. *)
Lemma coherent_flags s a h :
  coherent s →
  has_worker a = has_worker (app s) → workerReady a = workerReady (app s) →
  isProcessing a = isProcessing (app s) →
  coherent {| app := a; page := h; thread := thread s; inbox := inbox s;
              outbox := outbox s; readers := readers s |}.
Proof.
  intros [Hw Hpr Hrd Hjob Hidle Hboot] Hw' Hr' Hp'.
  split; unfold jobs_in_flight in *; flags; rewrite ?Hw', ?Hr', ?Hp'; done.
Qed.

(** A restart, if any, leaves an idle controller with a booting worker. *)
Lemma coherent_restart s a :
  coherent s → isProcessing (app s) = false → workerReady (app s) = false →
  has_worker a = true → workerReady a = false → isProcessing a = false →
  coherent (with_app s (maybeRestartWorker a)).
Proof.
  intros Hco Hidle Hready Hw Hr Hp.
  destruct (maybeRestartWorker_cases a) as [->|(a' & -> & Hw' & Hr' & Hp')].
  - unfold with_app. flags. apply coherent_flags; [done|..].
    + by rewrite (co_has_worker _ Hco).
    + congruence.
    + congruence.
  - destruct (co_idle _ Hco Hidle) as (Hreaders & _).
    unfold with_app. flags.
    split; unfold jobs_in_flight; flags.
    + done.
    + congruence.
    + congruence.
    + rewrite Hreaders. cbn. lia.
    + intros _. rewrite Hreaders. repeat split; cbn; try done; lia.
    + done.
Qed.

Lemma coherent_idle_jobs s :
  coherent s → isProcessing (app s) = false → (jobs_in_flight s <= 1)%nat.
Proof.
  intros Hco Hidle. unfold jobs_in_flight.
  destruct (co_idle _ Hco Hidle) as (-> & -> & -> & Hlen & _).
  pose proof (replies_le (outbox s)). cbn [length]. lia.
Qed.

Lemma coherent_jobs s : coherent s → (jobs_in_flight s <= 1)%nat.
Proof.
  intros Hco. destruct (isProcessing (app s)) eqn:Hp.
  - by apply (co_one_job _ Hco).
  - by apply coherent_idle_jobs.
Qed.

(** While the controller processes, the one job is all there is. *)
Lemma coherent_ready s :
  coherent s → isProcessing (app s) = true →
  workerReady (app s) = true ∧ stage (thread s) = Running
  ∧ filter (fun r => is_reply r = true) (outbox s) = outbox s.
Proof.
  intros Hco Hp. pose proof (co_processing _ Hco Hp) as Hr.
  destruct (co_ready _ Hco Hr) as [Hst Hall]. by rewrite replies_all.
Qed.

End SingleJob.

Section SingleJobSteps.
Context (H : host) (E : sql_engine) (P : page_host).
Implicit Types (s : system) (a : app_state).

(** The one job of a processing controller, when it is a file being read. *)
Lemma sole_reader s i bytes :
  coherent s → readers s !! i = Some bytes →
  isProcessing (app s) = true ∧ workerReady (app s) = true
  ∧ stage (thread s) = Running
  ∧ readers s = [bytes] ∧ i = O ∧ inbox s = [] ∧ awaiting (thread s) = None
  ∧ outbox s = [].
Proof.
  intros Hco Hi.
  destruct (isProcessing (app s)) eqn:Hp.
  2: { destruct (co_idle _ Hco Hp) as (Hrd & _). by rewrite Hrd in Hi. }
  destruct (coherent_ready s Hco Hp) as (Hr & Hst & Hall).
  pose proof (co_one_job _ Hco Hp) as Hjob. unfold jobs_in_flight in Hjob.
  rewrite Hall in Hjob.
  destruct (readers s) as [|b rs] eqn:Hrd; [done|]. cbn [length] in Hjob.
  assert (rs = []) as -> by (apply nil_length_inv; lia).
  assert (inbox s = []) as Hin by (apply nil_length_inv; lia).
  assert (outbox s = []) as Hout by (apply nil_length_inv; lia).
  assert (awaiting (thread s) = None) as Haw
    by (destruct (awaiting (thread s)); [lia|done]).
  destruct i as [|i]; [|done]. injection Hi as ->. done.
Qed.

Lemma coherent_FileSelected s file :
  coherent s → coherent (with_app s (handleFileUpload file (app s))).
Proof.
  intros Hco. unfold handleFileUpload.
  assert (Hsame : coherent (with_app s (app s, []))).
  { unfold with_app. flags. by apply coherent_flags. }
  destruct file as [bytes|]; [|done].
  destruct (isProcessing (app s)) eqn:Hp; [done|].
  destruct (Z.of_nat (length bytes) >? MAX_FILE_BYTES).
  { unfold with_app. flags. by apply coherent_flags. }
  flags. rewrite (co_has_worker _ Hco). cbn [negb orb].
  destruct (workerReady (app s)) eqn:Hr; cbn [negb].
  - destruct (co_idle _ Hco Hp) as (Hrd & Hin & Haw & _ & Hout).
    specialize (Hout Hr).
    destruct (co_ready _ Hco Hr) as [Hst _].
    unfold with_app. flags. rewrite Hrd.
    split; unfold jobs_in_flight; flags.
    + apply (co_has_worker _ Hco).
    + done.
    + intros _. split; [done|]. rewrite Hout. constructor.
    + intros _. rewrite Hin, Haw, Hout. cbn. lia.
    + done.
    + intros Hne. by destruct Hne.
  - apply coherent_restart; try done. flags. apply (co_has_worker _ Hco).
Qed.

Lemma coherent_ReadLoad s i bytes :
  coherent s → readers s !! i = Some bytes →
  coherent (with_app
              {| app := app s; page := page s; thread := thread s; inbox := inbox s;
                 outbox := outbox s; readers := delete i (readers s) |}
              (onReadLoad bytes (app s))).
Proof.
  intros Hco Hi.
  destruct (sole_reader s i bytes Hco Hi)
    as (Hp & Hr & Hst & Hrd & -> & Hin & Haw & Hout).
  unfold onReadLoad. rewrite (co_has_worker _ Hco).
  unfold with_app. flags. unfold accepts_messages.
  rewrite Hst, Hrd, Hin. cbn [delete list_delete app].
  split; unfold jobs_in_flight; flags.
  - apply (co_has_worker _ Hco).
  - done.
  - intros _. split; [done|]. rewrite Hout. constructor.
  - intros _. rewrite Haw, Hout. cbn. lia.
  - congruence.
  - intros Hne. by destruct Hne.
Qed.

Lemma coherent_ReadError s i bytes :
  coherent s → readers s !! i = Some bytes →
  coherent (with_app
              {| app := app s; page := page s; thread := thread s; inbox := inbox s;
                 outbox := outbox s; readers := delete i (readers s) |}
              (onReadError (app s))).
Proof.
  intros Hco Hi.
  destruct (sole_reader s i bytes Hco Hi)
    as (Hp & Hr & Hst & Hrd & -> & Hin & Haw & Hout).
  unfold onReadError, with_app. flags. rewrite Hrd. cbn [delete list_delete].
  split; unfold jobs_in_flight; flags.
  - apply (co_has_worker _ Hco).
  - done.
  - intros _. split; [done|]. rewrite Hout. constructor.
  - done.
  - intros _. rewrite Hout. repeat split; try done. cbn. lia.
  - intros Hne. by destruct Hne.
Qed.

Lemma coherent_BootTimer s :
  coherent s → coherent (with_app s (onBootTimeout (app s))).
Proof.
  intros Hco. unfold onBootTimeout. cbn [workerReady].
  destruct (workerReady (app s)) eqn:Hr.
  - unfold with_app. flags. by apply coherent_flags.
  - assert (Hp : isProcessing (app s) = false).
    { destruct (isProcessing (app s)) eqn:Hp; [|done].
      pose proof (co_processing _ Hco Hp). congruence. }
    apply coherent_restart; try done. flags. apply (co_has_worker _ Hco).
Qed.

Lemma not_ready_idle s :
  coherent s → workerReady (app s) = false → isProcessing (app s) = false.
Proof.
  intros Hco Hr. destruct (isProcessing (app s)) eqn:Hp; [|done].
  pose proof (co_processing _ Hco Hp). congruence.
Qed.

Lemma not_running_not_ready s :
  coherent s → stage (thread s) <> Running → workerReady (app s) = false.
Proof.
  intros Hco Hst. destruct (workerReady (app s)) eqn:Hr; [|done].
  by destruct (co_ready _ Hco Hr).
Qed.

(** The worker changes its stage away from a job: nothing is under way. *)
Lemma coherent_stage s t posts :
  coherent s → workerReady (app s) = false →
  awaiting t = None →
  (stage t <> Running → outbox s = [] ∧ posts = []) →
  (length (outbox s ++ posts) <= 1)%nat →
  coherent (with_thread s t posts).
Proof.
  intros Hco Hr Haw Hboot Hlen.
  pose proof (not_ready_idle s Hco Hr) as Hp.
  destruct (co_idle _ Hco Hp) as (Hrd & Hin & _ & _ & _).
  unfold with_thread.
  split; unfold jobs_in_flight; flags.
  - apply (co_has_worker _ Hco).
  - congruence.
  - congruence.
  - congruence.
  - intros _. repeat split; try done. congruence.
  - intros Hne. destruct (Hboot Hne) as [-> ->]. done.
Qed.

Lemma coherent_WorkerError s :
  coherent s → stage (thread s) = Crashed →
  coherent (with_app
              {| app := app s; page := page s;
                 thread := {| stage := Dead; globals := globals (thread s);
                              awaiting := awaiting (thread s) |};
                 inbox := inbox s; outbox := outbox s; readers := readers s |}
              (onWorkerCrash "WORKER CRASH" (app s))).
Proof.
  intros Hco Hst.
  assert (Hne : stage (thread s) <> Running) by congruence.
  pose proof (not_running_not_ready s Hco Hne) as Hr.
  pose proof (not_ready_idle s Hco Hr) as Hp.
  pose proof (co_boot _ Hco Hne) as Hout.
  destruct (co_idle _ Hco Hp) as (Hrd & Hin & Haw & _ & _).
  unfold onWorkerCrash.
  apply coherent_restart; flags; try done.
  - pose proof (coherent_stage s
                  {| stage := Dead; globals := globals (thread s);
                     awaiting := awaiting (thread s) |} [] Hco Hr Haw) as Hdead.
    unfold with_thread in Hdead. rewrite app_nil_r in Hdead.
    apply Hdead; [done|]. rewrite Hout. cbn. lia.
  - apply (co_has_worker _ Hco).
Qed.

Lemma coherent_AppMessage s r rest a h :
  coherent s → outbox s = r :: rest →
  handleWorkerMessage P (fst (deliver r (page s))) (app s) (snd (deliver r (page s)))
  = (a, h) →
  coherent {| app := a; page := h; thread := thread s; inbox := inbox s;
              outbox := rest; readers := readers s |}.
Proof.
  intros Hco Hout Hmsg.
  destruct (flags_after_message P r (app s) (page s)) as (Hw & Hr & Hp).
  rewrite Hmsg in Hw, Hr, Hp. cbn [fst] in Hw, Hr, Hp.
  assert (Hrunning : stage (thread s) = Running).
  { destruct (stage (thread s)) eqn:Hst; try done;
      (rewrite (co_boot _ Hco) in Hout; [done|congruence]). }
  assert (Hrest : readers s = [] ∧ inbox s = [] ∧ awaiting (thread s) = None
                  ∧ rest = []
                  ∧ (workerReady (app s) = true → is_reply r = true)).
  { destruct (isProcessing (app s)) eqn:Hproc.
    - destruct (coherent_ready s Hco Hproc) as (Hready & _ & Hall).
      pose proof (co_one_job _ Hco Hproc) as Hjob. unfold jobs_in_flight in Hjob.
      rewrite Hall, Hout in Hjob. cbn [length] in Hjob.
      destruct (co_ready _ Hco Hready) as [_ Hreplies]. rewrite Hout in Hreplies.
      repeat split; try (apply nil_length_inv; lia).
      + destruct (awaiting (thread s)); [lia|done].
      + intros _. by inversion Hreplies.
    - destruct (co_idle _ Hco Hproc) as (Hrd & Hin & Haw & Hlen & Hempty).
      rewrite Hout in Hlen. cbn [length] in Hlen.
      repeat split; try done; [apply nil_length_inv; lia|].
      intros Hready. specialize (Hempty Hready). congruence. }
  destruct Hrest as (Hrd & Hin & Haw & -> & Hreply).
  split; unfold jobs_in_flight; flags; rewrite ?Hw, ?Hr, ?Hp.
  - apply (co_has_worker _ Hco).
  - destruct r; done.
  - intros _. split; [done|constructor].
  - intros _. rewrite Hrd, Hin, Haw. cbn. lia.
  - intros _. repeat split; try done. cbn. lia.
  - done.
Qed.

Lemma coherent_boot s t posts :
  coherent s → stage (thread s) = Booting →
  awaiting t = awaiting (thread s) →
  (stage t <> Running → posts = []) → (length posts <= 1)%nat →
  coherent (with_thread s t posts).
Proof.
  intros Hco Hst Haw Hposts Hlen.
  assert (Hne : stage (thread s) <> Running) by congruence.
  pose proof (not_running_not_ready s Hco Hne) as Hr.
  pose proof (not_ready_idle s Hco Hr) as Hp.
  pose proof (co_boot _ Hco Hne) as Hout.
  destruct (co_idle _ Hco Hp) as (_ & _ & Haw' & _ & _).
  apply coherent_stage; try done.
  - congruence.
  - intros Hne'. split; [done|by apply Hposts].
  - rewrite Hout. by cbn.
Qed.

Lemma coherent_WorkerMessage s req rest :
  coherent s → inbox s = req :: rest → accepts_messages (thread s) = true →
  coherent
    (let s0 := {| app := app s; page := page s; thread := thread s;
                  inbox := rest; outbox := outbox s; readers := readers s |} in
     match onmessage_begin H E (globals (thread s)) req with
     | (Returned posts, w) =>
         with_thread s0 {| stage := stage (thread s); globals := w;
                           awaiting := awaiting (thread s) |} posts
     | (Awaiting outcome, w) =>
         with_thread s0 {| stage := stage (thread s); globals := w;
                           awaiting := Some outcome |} []
     end).
Proof.
  intros Hco Hin Hacc. cbv zeta.
  destruct (isProcessing (app s)) eqn:Hp.
  2: { destruct (co_idle _ Hco Hp) as (_ & Hin' & _). congruence. }
  destruct (coherent_ready s Hco Hp) as (Hr & Hst & Hall).
  pose proof (co_one_job _ Hco Hp) as Hjob. unfold jobs_in_flight in Hjob.
  rewrite Hall, Hin in Hjob. cbn [length] in Hjob.
  assert (readers s = []) as Hrd by (apply nil_length_inv; lia).
  assert (rest = []) as -> by (apply nil_length_inv; lia).
  assert (outbox s = []) as Hout by (apply nil_length_inv; lia).
  assert (awaiting (thread s) = None) as Haw
    by (destruct (awaiting (thread s)); [lia|done]).
  assert (Hposts : forall posts w,
            Forall (fun r => is_reply r = true) posts → (length posts <= 1)%nat →
            coherent (with_thread
                        {| app := app s; page := page s; thread := thread s;
                           inbox := []; outbox := outbox s; readers := readers s |}
                        {| stage := stage (thread s); globals := w;
                           awaiting := awaiting (thread s) |} posts)).
  { intros posts w Hreplies Hlen. unfold with_thread.
    split; unfold jobs_in_flight; flags; rewrite ?Hout, ?Hrd, ?Haw.
    - apply (co_has_worker _ Hco).
    - done.
    - intros _. split; [done|]. by rewrite app_nil_l.
    - intros _. pose proof (replies_le posts). rewrite app_nil_l. cbn [length] in *. lia.
    - congruence.
    - intros Hne. by destruct Hne. }
  unfold onmessage_begin. destruct req as [buffer|].
  - destruct (busy (globals (thread s))).
    + apply Hposts; [by repeat constructor|cbn; lia].
    + destruct (analyzeDatabase H E _ buffer) as [outcome w].
      unfold with_thread.
      split; unfold jobs_in_flight; flags; rewrite ?Hout, ?Hrd.
      * apply (co_has_worker _ Hco).
      * done.
      * intros _. split; [done|]. by rewrite app_nil_l.
      * intros _. rewrite app_nil_l, filter_nil. cbn [length]. lia.
      * congruence.
      * intros Hne. by destruct Hne.
  - apply Hposts; [constructor|cbn; lia].
Qed.

Lemma coherent_WorkerResume s outcome :
  coherent s → awaiting (thread s) = Some outcome →
  coherent
    (with_thread s
       {| stage := stage (thread s);
          globals := snd (onmessage_resume (globals (thread s)) outcome);
          awaiting := None |}
       (fst (onmessage_resume (globals (thread s)) outcome))).
Proof.
  intros Hco Haw.
  destruct (isProcessing (app s)) eqn:Hp.
  2: { destruct (co_idle _ Hco Hp) as (_ & _ & Haw' & _). congruence. }
  destruct (coherent_ready s Hco Hp) as (Hr & Hst & Hall).
  pose proof (co_one_job _ Hco Hp) as Hjob. unfold jobs_in_flight in Hjob.
  rewrite Hall, Haw in Hjob. cbv iota in Hjob.
  assert (readers s = []) as Hrd by (apply nil_length_inv; lia).
  assert (inbox s = []) as Hin by (apply nil_length_inv; lia).
  assert (outbox s = []) as Hout by (apply nil_length_inv; lia).
  unfold onmessage_resume, with_thread.
  split; unfold jobs_in_flight; flags; rewrite ?Hout, ?Hrd, ?Hin.
  - apply (co_has_worker _ Hco).
  - done.
  - intros _. split; [done|]. destruct outcome; by repeat constructor.
  - intros _. rewrite app_nil_l.
    destruct outcome;
      match goal with |- context [filter _ ?l] => pose proof (replies_le l) end;
      cbn [length] in *; lia.
  - congruence.
  - intros Hne. by destruct Hne.
Qed.

End SingleJobSteps.

Section SingleJobTheorem.
Context (H : host) (E : sql_engine) (P : page_host).
Implicit Types (s : system).

Lemma coherent_initial demo : coherent (initial demo).
Proof.
  split; unfold jobs_in_flight; cbn; try done.
  - intros _. repeat split; try done. lia.
Qed.

Lemma coherent_step ev s s' :
  coherent s → step H E P ev s = Some s' → coherent s'.
Proof.
  intros Hco Hstep. destruct ev; unfold step in Hstep.
  - injection Hstep as <-. by apply coherent_FileSelected.
  - destruct (readers s !! i) as [bytes|] eqn:Hi; [|done].
    cbn [mbind option_bind] in Hstep. injection Hstep as <-.
    by apply coherent_ReadLoad.
  - destruct (readers s !! i) as [bytes|] eqn:Hi; [|done].
    cbn [mbind option_bind] in Hstep. injection Hstep as <-.
    by eapply coherent_ReadError.
  - destruct (workerBootTimer (app s)); [|done]. injection Hstep as <-.
    by apply coherent_BootTimer.
  - destruct (stage (thread s)) eqn:Hst; try done. injection Hstep as <-.
    by apply coherent_WorkerError.
  - destruct (outbox s) as [|r rest] eqn:Hout; [done|].
    destruct (deliver r (page s)) as [msg h] eqn:Hdel.
    destruct (handleWorkerMessage P msg (app s) h) as [a h'] eqn:Hmsg.
    injection Hstep as <-.
    apply (coherent_AppMessage P s r rest a h' Hco Hout).
    by rewrite Hdel.
  - destruct (stage (thread s)) eqn:Hst; try done. injection Hstep as <-.
    apply coherent_boot; try done; cbn; lia.
  - destruct (stage (thread s)) eqn:Hst; try done. injection Hstep as <-.
    apply coherent_boot; try done; cbn; lia.
  - destruct (stage (thread s)) eqn:Hst; try done. injection Hstep as <-.
    apply coherent_boot; try done; cbn; lia.
  - destruct (inbox s) as [|req rest] eqn:Hin; [done|].
    destruct (accepts_messages (thread s)) eqn:Hacc; [|done].
    pose proof (coherent_WorkerMessage H E s req rest Hco Hin Hacc) as Hnext.
    cbv zeta in Hnext, Hstep. cbn [thread] in Hstep.
    destruct (onmessage_begin H E (globals (thread s)) req) as [[posts|outcome] w];
      cbv beta iota in Hstep, Hnext; injection Hstep as <-; exact Hnext.
  - destruct (awaiting (thread s)) as [outcome|] eqn:Haw; [|done].
    pose proof (coherent_WorkerResume s outcome Hco Haw) as Hnext.
    destruct (onmessage_resume (globals (thread s)) outcome) as [posts w].
    cbv beta iota in Hstep. cbn [fst snd] in Hnext. injection Hstep as <-. exact Hnext.
Qed.

Lemma coherent_rtc s0 s : rtc (steps H E P) s0 s → coherent s0 → coherent s.
Proof.
  induction 1 as [|s0 s1 s2 [ev Hstep] Hrest IH]; [done|].
  intros Hco. apply IH. by eapply coherent_step.
Qed.

Lemma coherent_reachable s : reachable H E P s → coherent s.
Proof.
  intros [demo Hrtc]. eapply coherent_rtc; [done|]. apply coherent_initial.
Qed.

Lemma run_reachable evs s s' :
  reachable H E P s → run H E P evs s = Some s' → reachable H E P s'.
Proof.
  revert s. induction evs as [|ev evs IH]; intros s Hreach Hrun; simpl in Hrun.
  - by injection Hrun as <-.
  - destruct (step H E P ev s) as [s1|] eqn:Hstep; [|done].
    apply (IH s1); [|done]. destruct Hreach as [demo Hrtc]. exists demo.
    eapply rtc_r; [done|]. by exists ev.
Qed.

End SingleJobTheorem.

(** C8: in every state the page and its worker can reach, at most one job is
    under way (a file being read, a request not yet taken up, an analysis
    whose reply is not posted, a reply not yet handled), and none while the
    controller is not processing. A file selected while the controller is
    processing changes nothing: no reader is started and nothing is posted.
    An [ANALYZE] message that finds the worker busy is answered with
    [WORKER_BUSY] and leaves the worker as it was: no handle is opened and
    nothing is kept for later. *)
Theorem single_job_in_flight (H : host) (E : sql_engine) (P : page_host) (s : system) :
  reachable H E P s ->
  (jobs_in_flight s <= 1)%nat
  /\ (isProcessing (app s) = false ->
      readers s = [] /\ inbox s = [] /\ awaiting (thread s) = None)
  /\ (isProcessing (app s) = true ->
      forall file, step H E P (FileSelected file) s = Some s)
  /\ (forall w buffer,
        busy w = true ->
        onmessage_begin H E w (ANALYZE buffer) = (Returned [ERROR "WORKER_BUSY"], w)
        /\ onmessage H E w (ANALYZE buffer) = ([ERROR "WORKER_BUSY"], w)).
Proof.
  intros Hreach. pose proof (coherent_reachable H E P s Hreach) as Hco.
  split; [by apply coherent_jobs|]. split; [|split].
  - intros Hidle. destruct (co_idle _ Hco Hidle) as (? & ? & ? & _). done.
  - intros Hp file. unfold step, handleFileUpload. rewrite Hp.
    destruct s. by destruct file.
  - intros w buffer Hbusy. unfold onmessage, onmessage_begin. by rewrite Hbusy.
Qed.

Lemma single_job_in_flight_witness :
  (jobs_in_flight
     (system_or_initial (run sample_host clinic_engine identity_page two_selections
                           (initial ∅))) <= 1)%nat.
Proof.
  apply (single_job_in_flight sample_host clinic_engine identity_page).
  apply (run_reachable sample_host clinic_engine identity_page two_selections (initial ∅)).
  - exists ∅. apply rtc_refl.
  - vm_compute. reflexivity.
Defined.

(** The second selection of the run is ignored and one reader is at work. *)
Lemma second_selection_ignored :
  run sample_host clinic_engine identity_page two_selections (initial ∅)
  = run sample_host clinic_engine identity_page (take 3 two_selections) (initial ∅)
  /\ jobs_in_flight
       (system_or_initial (run sample_host clinic_engine identity_page two_selections
                             (initial ∅))) = 1%nat.
Proof. split; vm_compute; reflexivity. Qed.

(** * Further properties *)

(** ** Quoted identifiers *)

Lemma append_assoc (a b c : string) : (a ++ b) ++ c = a ++ (b ++ c).
Proof. induction a as [|x a IH]; [done|]. rewrite !append_cons. by rewrite IH. Qed.

Lemma read_name_escaped (id rest : string) :
  no_quote_ahead rest →
  read_name (double_quotes id ++ String dquote rest) = Some (id, rest).
Proof.
  intros Hrest. induction id as [|c id IH].
  - change (double_quotes "" ++ String dquote rest) with (String dquote rest).
    cbn [read_name]. rewrite Ascii.eqb_refl.
    destruct rest as [|c' rest]; [done|]. cbn [no_quote_ahead] in Hrest. by rewrite Hrest.
  - cbn [double_quotes]. destruct (Ascii.eqb c dquote) eqn:Hc.
    + apply Ascii.eqb_eq in Hc as ->. rewrite !append_cons.
      cbn [read_name]. rewrite !Ascii.eqb_refl. by rewrite IH.
    + rewrite append_cons. cbn [read_name]. rewrite Hc. by rewrite IH.
Qed.

(** X1: whatever characters a table or column name holds, the text
    [escapeId] makes of it is read by SQL as one quoted identifier that is
    this very name, and the query text after it is left as it is. *)
Theorem escapeId_read_back (id rest : string) :
  no_quote_ahead rest ->
  read_quoted (escapeId id ++ rest) = Some (id, rest).
Proof.
  intros Hrest. unfold escapeId. rewrite append_cons.
  cbn [read_quoted]. rewrite Ascii.eqb_refl.
  rewrite append_assoc. rewrite append_cons.
  change ("" ++ rest) with rest. by apply read_name_escaped.
Qed.

Lemma escapeId_read_back_witness :
  read_quoted (escapeId (String dquote "; DROP TABLE visits; --") ++ " ORDER BY 1")
  = Some (String dquote "; DROP TABLE visits; --", " ORDER BY 1").
Proof. apply escapeId_read_back. reflexivity. Defined.

(** ** Guards and replies of the worker *)

(** X2: [analyzeDatabase] checks readiness first, then the buffer, then its
    size: a worker that is not initialised throws [WORKER_NOT_READY]
    whatever the buffer, a missing or empty buffer throws [EMPTY_FILE], a
    buffer above 100 MB throws [FILE_EXCEEDS_CAPACITY]; in each case the
    state of the worker, its handle included, is left as it was. *)
Theorem analyzeDatabase_guards
    (H : host) (E : sql_engine) (w : worker) (buffer : option (list Byte.byte)) :
  (SQL w = false ->
   analyzeDatabase H E w buffer = (Throw (Reason WORKER_NOT_READY), w))
  /\ (SQL w = true -> buffer = None \/ buffer = Some [] ->
      analyzeDatabase H E w buffer = (Throw (Reason EMPTY_FILE), w))
  /\ (SQL w = true ->
      forall bytes, buffer = Some bytes -> MAX_DB_BYTES < Z.of_nat (length bytes) ->
      analyzeDatabase H E w buffer = (Throw (Reason FILE_EXCEEDS_CAPACITY), w)).
Proof.
  split; [|split].
  - apply analyzeDatabase_not_ready.
  - intros Hsql Hbuf. unfold analyzeDatabase. rewrite Hsql. cbn [negb].
    by destruct Hbuf as [->| ->].
  - intros Hsql bytes -> Hbig. unfold analyzeDatabase. rewrite Hsql. cbn [negb].
    destruct bytes as [|b bytes]; [cbn in Hbig; unfold MAX_DB_BYTES in Hbig; lia|].
    change (length (b :: bytes) =? 0)%nat with false. cbv iota.
    destruct (_ >? _) eqn:Hgt; [done|lia].
Qed.

Lemma analyzeDatabase_guards_witness :
  analyzeDatabase sample_host clinic_engine clinic_worker (Some [])
  = (Throw (Reason EMPTY_FILE), clinic_worker).
Proof.
  apply (proj1 (proj2 (analyzeDatabase_guards sample_host clinic_engine clinic_worker
                         (Some [])))).
  - reflexivity.
  - by right.
Defined.

(** X3: a worker that is not busy answers every [ANALYZE] message with
    exactly one message: [ANALYSIS_COMPLETE] with the result when the
    analysis returns, [ERROR] with the message of what it threw otherwise;
    the busy flag is clear again afterwards whichever way the analysis
    ended. Any other message gets no answer and changes nothing. *)
Theorem onmessage_one_reply
    (H : host) (E : sql_engine) (w : worker) (buffer : option (list Byte.byte)) :
  busy w = false ->
  (exists w',
      onmessage H E w (ANALYZE buffer)
      = ([match fst (analyzeDatabase H E w buffer) with
          | Ok result => ANALYSIS_COMPLETE result
          | Throw err => ERROR (error_message err)
          end], w')
      /\ busy w' = false /\ SQL w' = SQL w)
  /\ onmessage H E w OTHER = ([], w).
Proof.
  intros Hbusy. split; [|done].
  unfold onmessage, onmessage_begin. rewrite Hbusy.
  set (w1 := {| SQL := SQL w; db := db w; busy := true;
                handles := handles w; opened := opened w |}).
  assert (Hout : fst (analyzeDatabase H E w1 buffer) = fst (analyzeDatabase H E w buffer))
    by (by apply analyzeDatabase_outcome).
  pose proof (SQL_analyzeDatabase H E w1 buffer) as Hsql.
  destruct (analyzeDatabase H E w1 buffer) as [outcome w2].
  cbn [fst snd] in Hout, Hsql. subst outcome.
  unfold onmessage_resume.
  exists {| SQL := SQL w2; db := db w2; busy := false;
            handles := handles w2; opened := opened w2 |}.
  split; [|by split].
  by destruct (fst (analyzeDatabase H E w buffer)).
Qed.

Lemma onmessage_one_reply_witness :
  exists w',
    onmessage sample_host bare_engine ready_worker (ANALYZE (Some one_byte))
    = ([match fst (analyzeDatabase sample_host bare_engine ready_worker (Some one_byte)) with
        | Ok result => ANALYSIS_COMPLETE result
        | Throw err => ERROR (error_message err)
        end], w')
    /\ busy w' = false /\ SQL w' = SQL ready_worker.
Proof.
  apply (proj1 (onmessage_one_reply sample_host bare_engine ready_worker
                  (Some one_byte) eq_refl)).
Defined.

(** ** Tables, columns and series *)

Lemma fold_case_six (pre : string) :
  JsString.fold_case pre = "SQLITE" →
  exists c1 c2 c3 c4 c5 c6,
    pre = String c1 (String c2 (String c3 (String c4 (String c5 (String c6 ""))))).
Proof.
  intros Hpre.
  destruct pre as [|c1 pre]; [done|]. destruct pre as [|c2 pre]; [done|].
  destruct pre as [|c3 pre]; [done|]. destruct pre as [|c4 pre]; [done|].
  destruct pre as [|c5 pre]; [done|]. destruct pre as [|c6 pre]; [done|].
  destruct pre as [|c7 pre]; [|done]. by exists c1, c2, c3, c4, c5, c6.
Qed.

(** The names that [LIKE 'sqlite_%'] matches: the word sqlite in any letter
    case, followed by at least one character. *)
Lemma like_sqlite_spec (t : string) :
  Sql.like_sqlite_ t = true ↔
  exists pre rest, t = pre ++ rest ∧ JsString.fold_case pre = "SQLITE" ∧ rest ≠ "".
Proof.
  unfold Sql.like_sqlite_. rewrite andb_true_iff. split.
  - intros [Hpre Hlen]. apply String.eqb_eq in Hpre. apply Nat.ltb_lt in Hlen.
    destruct t as [|c1 t]; [simpl in Hlen; lia|].
    destruct t as [|c2 t]; [simpl in Hlen; lia|].
    destruct t as [|c3 t]; [simpl in Hlen; lia|].
    destruct t as [|c4 t]; [simpl in Hlen; lia|].
    destruct t as [|c5 t]; [simpl in Hlen; lia|].
    destruct t as [|c6 t]; [simpl in Hlen; lia|].
    destruct t as [|c7 t]; [simpl in Hlen; lia|].
    exists (String c1 (String c2 (String c3 (String c4 (String c5 (String c6 "")))))),
      (String c7 t).
    split; [reflexivity|]. split; [exact Hpre|done].
  - intros (pre & rest & -> & Hpre & Hrest).
    destruct (fold_case_six pre Hpre) as (c1 & c2 & c3 & c4 & c5 & c6 & ->).
    destruct rest as [|c7 rest]; [done|]. split.
    + apply String.eqb_eq. exact Hpre.
    + apply Nat.ltb_lt. simpl. lia.
Qed.

Lemma elem_of_table_names (d : database) (t : string) :
  t ∈ table_names d ↔
  (exists tb, Table tb ∈ d ∧ tbl_name tb = t) ∧ Sql.like_sqlite_ t = false.
Proof.
  unfold table_names. rewrite list_elem_of_omap. split.
  - intros (o & Ho & Hname). destruct o as [tb|tb|ty nm]; [|done|done].
    destruct (Sql.like_sqlite_ (tbl_name tb)) eqn:Hlike; [done|].
    injection Hname as <-. split; [by exists tb|done].
  - intros [(tb & Hin & <-) Hlike]. exists (Table tb). split; [done|].
    by rewrite Hlike.
Qed.

(** X4: [listTables] returns the names of the table rows of [sqlite_master]
    and of no other object, and leaves out every name made of the word
    sqlite, in any letter case, and at least one more character: the
    underscore of the pattern stands for any character. *)
Theorem listTables_skips_internal (w : worker) (d : database) :
  prepare w = Ok d ->
  listTables w = Ok (table_names d)
  /\ (forall t,
        t ∈ table_names d <->
        (exists tb, Table tb ∈ d /\ tbl_name tb = t) /\ Sql.like_sqlite_ t = false)
  /\ (forall t,
        Sql.like_sqlite_ t = true <->
        exists pre rest,
          t = pre ++ rest /\ JsString.fold_case pre = "SQLITE" /\ rest <> "").
Proof.
  intros Hprep. split; [|split].
  - unfold listTables. by rewrite Hprep.
  - apply elem_of_table_names.
  - apply like_sqlite_spec.
Qed.

Lemma listTables_skips_internal_witness :
  listTables clinic_worker = Ok ["audit"; "patient_log"].
Proof.
  apply (proj1 (listTables_skips_internal clinic_worker clinic_db eq_refl)).
Defined.

(** A table named SQLiteEvents is not listed, though it holds events. *)
Lemma sqlite_events_hidden :
  table_names [Table {| tbl_name := "SQLiteEvents"; tbl_columns := ["time"];
                        tbl_rows := [] |}] = [].
Proof. reflexivity. Qed.

Section Roles.
Context (H : host) (E : sql_engine).

Lemma listColumns_columns_of w d table :
  prepare w = Ok d → listColumns w table = Ok (columns_of d table).
Proof. intros Hprep. unfold listColumns, columns_of. by rewrite Hprep. Qed.

Lemma series_absent {A : Type} (build : string → result (list A)) :
  series None build = Ok [].
Proof. reflexivity. Qed.

End Roles.

(** X5: for a name that stands for a table or view of the file, the [volume]
    series of every result is empty; a role for which no column name passes
    the pattern gives an empty series, not a failure; and a table or view
    none of whose columns has a role gives the result with all series empty,
    whatever rows it holds. *)
Theorem aggregateTable_absent_roles
    (H : host) (E : sql_engine) (w : worker) (d : database) (t : table)
    (table : string) :
  prepare w = Ok d ->
  Sql.find_table d table = Some t ->
  let columns := tbl_columns t in
  (forall r,
      aggregateTable H E w table = Ok r ->
      volume r = []
      /\ (find (JsString.test_i TIME_PATTERN) columns = None -> visits r = [])
      /\ (find (JsString.test_i DURATION_PATTERN) columns = None -> duration r = [])
      /\ (find (JsString.test_i STATUS_PATTERN) columns = None -> states r = [])
      /\ (find (JsString.test_i OPERATOR_PATTERN) columns = None -> operators r = []))
  /\ (find (JsString.test_i TIME_PATTERN) columns = None ->
      find (JsString.test_i DURATION_PATTERN) columns = None ->
      find (JsString.test_i STATUS_PATTERN) columns = None ->
      find (JsString.test_i OPERATOR_PATTERN) columns = None ->
      aggregateTable H E w table = Ok empty_result).
Proof.
  intros Hprep Hfind columns. unfold aggregateTable.
  rewrite (listColumns_columns_of w d table Hprep). cbn [mbind result_bind].
  unfold columns_of. rewrite Hfind. fold columns. split.
  - intros r.
    destruct (series (find (JsString.test_i TIME_PATTERN) columns) _) as [vs|] eqn:Hv;
      [|done]. cbn [mbind result_bind].
    destruct (series (find (JsString.test_i DURATION_PATTERN) columns) _) as [ds|] eqn:Hd;
      [|done]. cbn [mbind result_bind].
    destruct (series (find (JsString.test_i STATUS_PATTERN) columns) _) as [ss|] eqn:Hs;
      [|done]. cbn [mbind result_bind].
    destruct (series (find (JsString.test_i OPERATOR_PATTERN) columns) _) as [os|] eqn:Ho;
      [|done]. cbn [mbind result_bind].
    intros [= <-]. cbn [volume visits duration states operators].
    split; [done|].
    repeat split; intros Hnone;
      match goal with
      | Hx : series _ _ = Ok ?l |- ?l = [] => rewrite Hnone in Hx; by injection Hx as <-
      end.
  - by intros -> -> -> ->.
Qed.

Lemma aggregateTable_absent_roles_witness :
  aggregateTable sample_host (sqlite (fun _ => Some notes_db)) notes_worker "visit_notes"
  = Ok empty_result.
Proof.
  apply (proj2 (aggregateTable_absent_roles sample_host (sqlite (fun _ => Some notes_db))
                  notes_worker notes_db notes_table "visit_notes" eq_refl eq_refl));
    reflexivity.
Defined.

(** A name is resolved whatever the case of its letters: the table declared
    as EVENT_LOG is aggregated under the name event_log. *)
Lemma capitals_resolved :
  aggregateTable sample_host capitals_engine
    (openDb capitals_engine one_byte ready_worker) "event_log"
  = Ok {| visits := []; duration := [];
          states := [ {| StateCount.category := "a"; StateCount.value := 2 |};
                      {| StateCount.category := "b"; StateCount.value := 1 |} ];
          operators := []; volume := [] |}.
Proof. vm_compute. reflexivity. Qed.

Lemma number_from_index (i : nat) (rows : list sqlval) :
  map Sample.index (number_from i rows) = seq i (length rows).
Proof.
  revert i. induction rows as [|v rows IH]; intros i; [done|].
  cbn [number_from map length seq Sample.index]. by rewrite IH.
Qed.

Lemma number_from_value (i : nat) (rows : list sqlval) :
  map Sample.value (number_from i rows) = map sql_number rows.
Proof.
  revert i. induction rows as [|v rows IH]; intros i; [done|].
  cbn [number_from map Sample.value]. by rewrite IH.
Qed.

(** A scan of the table visits the rows as they are stored. *)
Lemma sort_as_stored {A : Type} (l : list A) : Sql.sort (fun _ _ => true) l = l.
Proof.
  induction l as [|x l IH]; [done|]. cbn [Sql.sort foldr]. fold (Sql.sort (fun _ _ : A => true) l).
  rewrite IH. by destruct l.
Qed.

Lemma visited_sqlite decode (table col : string) (vals : list sqlval) :
  visited (sqlite decode) table col vals = vals.
Proof.
  unfold visited. cbn [scan_before sqlite]. rewrite sort_as_stored.
  by apply map_snd_imap.
Qed.

(** X6: the duration series holds the first 100 values of the column that
    are stored as numbers, taken in the order in which the engine visits the
    rows (the query asks for none), and numbered from 0 without gaps; NULL,
    text and blob values take no number. Whatever that order, the series has
    as many samples as the column has numeric values, up to 100, and every
    sample is a numeric value of the column. *)
Theorem buildDuration_samples
    (E : sql_engine) (w : worker) (table col : string) (vals : list sqlval) :
  select w table col = Ok vals ->
  exists samples,
    buildDuration E w table col = Ok samples
    /\ map Sample.index samples = seq 0 (length samples)
    /\ map Sample.value samples
       = map sql_number
           (take 100 (filter (fun v => Sql.is_numeric v = true)
                        (visited E table col vals)))
    /\ visited E table col vals ≡ₚ vals
    /\ length samples
       = Nat.min 100 (length (filter (fun v => Sql.is_numeric v = true) vals))
    /\ (forall s,
          s ∈ samples ->
          exists v, v ∈ vals /\ Sql.is_numeric v = true
                    /\ Sample.value s = sql_number v).
Proof.
  intros Hsel. unfold buildDuration. rewrite Hsel. cbn [mbind result_bind].
  eexists. split; [reflexivity|]. split; [|split; [|split; [|split]]].
  - rewrite number_from_index. by rewrite length_number_from.
  - apply number_from_value.
  - apply visited_perm.
  - rewrite length_number_from, length_take.
    by rewrite (visited_perm E table col vals).
  - intros s Hs. apply (list_elem_of_fmap_2 Sample.value) in Hs.
    change (Sample.value <$> ?l) with (map Sample.value l) in Hs.
    rewrite number_from_value in Hs.
    change (map sql_number ?l) with (sql_number <$> l) in Hs.
    apply list_elem_of_fmap in Hs as (v & Heq & Hv).
    apply elem_of_take in Hv as (i & Hv & _).
    apply list_elem_of_lookup_2 in Hv. apply list_elem_of_filter in Hv as [Hnum Hv].
    rewrite (visited_perm E table col vals) in Hv. by exists v.
Qed.

Lemma buildDuration_samples_witness :
  exists samples,
    buildDuration indexed_durations_engine durations_worker "event_log" "duration_min"
    = Ok samples
    /\ map Sample.index samples = seq 0 (length samples)
    /\ map Sample.value samples
       = map sql_number
           (take 100 (filter (fun v => Sql.is_numeric v = true)
                        (visited indexed_durations_engine "event_log" "duration_min"
                           mixed_durations)))
    /\ visited indexed_durations_engine "event_log" "duration_min" mixed_durations
       ≡ₚ mixed_durations
    /\ length samples
       = Nat.min 100 (length (filter (fun v => Sql.is_numeric v = true) mixed_durations))
    /\ (forall s,
          s ∈ samples ->
          exists v, v ∈ mixed_durations /\ Sql.is_numeric v = true
                    /\ Sample.value s = sql_number v).
Proof.
  apply (buildDuration_samples indexed_durations_engine durations_worker "event_log"
           "duration_min" mixed_durations).
  reflexivity.
Defined.

(** The three numbers of the mixed column, numbered 0, 1, 2: as they are
    stored when the engine scans the table, by ascending value when it
    answers from an index on the column. *)
Lemma mixed_durations_samples :
  buildDuration durations_engine durations_worker "event_log" "duration_min"
  = Ok [ {| Sample.index := 0; Sample.value := Num.of_Z 12 |};
         {| Sample.index := 1; Sample.value := Num.of_Z 7 |};
         {| Sample.index := 2; Sample.value := Num.of_Z 30 |} ]
  /\ buildDuration indexed_durations_engine durations_worker "event_log" "duration_min"
     = Ok [ {| Sample.index := 0; Sample.value := Num.of_Z 7 |};
            {| Sample.index := 1; Sample.value := Num.of_Z 12 |};
            {| Sample.index := 2; Sample.value := Num.of_Z 30 |} ].
Proof. split; vm_compute; reflexivity. Qed.

(** ** The controller and the messages of the worker *)

Section Messages.
Implicit Types (h : heap) (ref : nat) (k : string).

Lemma default_series_id k payload h :
  isArray (get h payload k) = true → default_series k payload h = h.
Proof. intros Harr. unfold default_series. by rewrite Harr. Qed.

Lemma defaulted_id payload h :
  (forall k, k ∈ optional_series → isArray (get h payload k) = true) →
  defaulted h payload = h.
Proof.
  intros Harr. unfold defaulted.
  rewrite (default_series_id "duration") by (apply Harr; unfold optional_series; list_mem).
  rewrite (default_series_id "states") by (apply Harr; unfold optional_series; list_mem).
  rewrite (default_series_id "operators") by (apply Harr; unfold optional_series; list_mem).
  rewrite (default_series_id "volume") by (apply Harr; unfold optional_series; list_mem).
  reflexivity.
Qed.

Lemma isArray_defaulted h ref k :
  k ∈ optional_series →
  isArray (get (defaulted h (JObject ref)) (JObject ref) k) = true.
Proof.
  intros Hk. rewrite (get_defaulted_optional h ref k Hk).
  by destruct (isArray (get h (JObject ref) k)) eqn:Harr.
Qed.

Lemma visits_defaulted h ref :
  get (defaulted h (JObject ref)) (JObject ref) "visits" = get h (JObject ref) "visits".
Proof.
  unfold get. rewrite props_defaulted_other; [done|].
  unfold optional_series. list_not_mem.
Qed.

Lemma validatePayload_reject h payload :
  ok (fst (validatePayload h payload)) = false → snd (validatePayload h payload) = h.
Proof.
  unfold validatePayload.
  destruct (negb (truthy payload) || negb (String.eqb (typeof payload) "object"));
    [done|].
  destruct (negb (isArray (get h payload "visits"))); [done|]. discriminate.
Qed.

End Messages.

(** X7: [validatePayload] is idempotent: on the payload it has validated it
    gives the same verdict and writes nothing more. *)
Theorem validatePayload_idempotent (h : heap) (payload : jsval) :
  validatePayload (snd (validatePayload h payload)) payload = validatePayload h payload.
Proof.
  destruct (ok (fst (validatePayload h payload))) eqn:Hok.
  - assert (Hvis : isArray (get h payload "visits") = true).
    { revert Hok. unfold validatePayload.
      destruct (negb (truthy payload) || negb (String.eqb (typeof payload) "object"));
        [discriminate|].
      by destruct (isArray (get h payload "visits")). }
    destruct (get_object_is_array h payload "visits" Hvis) as [ref ->].
    rewrite (validatePayload_accept h ref Hvis). cbn [snd].
    rewrite validatePayload_accept by (by rewrite visits_defaulted).
    f_equal. apply defaulted_id. intros k Hk. by apply isArray_defaulted.
  - by rewrite (validatePayload_reject h payload Hok).
Qed.

Section Delivery.
Implicit Types (h : heap) (r : AggregateResult).

Lemma get_alloc (o : gmap string jsval) h k :
  get (snd (alloc o h)) (fst (alloc o h)) k = default JUndefined (o !! k).
Proof.
  unfold alloc, get, props. cbn [fst snd]. by rewrite lookup_insert_eq.
Qed.

(** The clone of a result is an object whose five series are arrays. *)
Lemma clone_result_series r h k :
  k = "visits" ∨ k ∈ optional_series →
  (exists ref, fst (clone_result r h) = JObject ref)
  ∧ isArray (get (snd (clone_result r h)) (fst (clone_result r h)) k) = true.
Proof.
  intros Hk. unfold clone_result.
  destruct (alloc_all _ h) as [vs h1]. destruct (alloc_all _ h1) as [ds h2].
  destruct (alloc_all _ h2) as [ss h3]. destruct (alloc_all _ h3) as [os h4].
  split; [by eexists|]. rewrite get_alloc.
  destruct Hk as [->|Hk].
  - by rewrite lookup_insert_eq.
  - unfold optional_series in Hk.
    repeat (apply elem_of_cons in Hk as [->|Hk]); [..|by apply elem_of_nil in Hk].
    + rewrite lookup_insert_ne by discriminate. by rewrite lookup_insert_eq.
    + do 2 rewrite lookup_insert_ne by discriminate. by rewrite lookup_insert_eq.
    + do 3 rewrite lookup_insert_ne by discriminate. by rewrite lookup_insert_eq.
    + do 4 rewrite lookup_insert_ne by discriminate. by rewrite lookup_singleton_eq.
Qed.

Lemma validatePayload_clone r h :
  validatePayload (snd (clone_result r h)) (fst (clone_result r h))
  = ({| ok := true; reason_text := None |}, snd (clone_result r h)).
Proof.
  destruct (clone_result_series r h "visits" (or_introl eq_refl)) as [[ref Href] Hvis].
  rewrite Href in *. rewrite (validatePayload_accept _ ref Hvis). f_equal.
  apply defaulted_id. intros k Hk. rewrite <- Href.
  apply clone_result_series. by right.
Qed.

End Delivery.

(** X8: what the worker posts as the result of an analysis always passes
    the validation of the controller, which then has nothing to fill in: the
    store of the page is left as the message arrived. The handler clears the
    processing flag, never reports an invalid export, and once the visit
    series is converted it publishes the data with the status [VALID]. *)
Theorem worker_result_accepted (r : AggregateResult) (h : heap) :
  exists payload h1,
    deliver (ANALYSIS_COMPLETE r) h = (PComplete payload, h1)
    /\ validatePayload h1 payload = ({| ok := true; reason_text := None |}, h1)
    /\ forall (P : page_host) (a : app_state),
         let out := handleWorkerMessage P (PComplete payload) a h1 in
         snd out = h1
         /\ isProcessing (fst out) = false
         /\ match mapM (visit_point P h1) (array_elems (get h1 payload "visits")) with
            | Some visits =>
                status (fst out) = VALID
                /\ message (fst out) = "Data loaded"
                /\ data (fst out) = Some (published h1 payload (JArray visits))
            | None => fst out = set_isProcessing false a
            end.
Proof.
  exists (fst (clone_result r h)), (snd (clone_result r h)).
  pose proof (validatePayload_clone r h) as Hval.
  split; [|split; [exact Hval|]].
  - unfold deliver. by destruct (clone_result r h).
  - intros P a out. subst out. unfold handleWorkerMessage. rewrite Hval. cbn [ok negb].
    cbv iota.
    destruct (mapM _ _) as [visits|]; cbn [fst snd]; repeat split; reflexivity.
Qed.

(** X9: a message of the worker replaces [state.data] only when it is a
    result whose payload passed the validation, and then the status shown is
    [VALID]; a [READY], an [ERROR], a rejected payload or any other message
    leaves the data on display as it was. No message changes the restart
    count or the worker the controller holds. *)
Theorem handleWorkerMessage_data
    (P : page_host) (msg : page_message) (a : app_state) (h : heap) :
  let a' := fst (handleWorkerMessage P msg a h) in
  (data a' = data a
   \/ (exists payload,
         msg = PComplete payload
         /\ ok (fst (validatePayload h payload)) = true
         /\ status a' = VALID /\ message a' = "Data loaded"))
  /\ workerRestarts a' = workerRestarts a
  /\ has_worker a' = has_worker a
  /\ (ok (fst (match msg with
               | PComplete payload => validatePayload h payload
               | _ => ({| ok := false; reason_text := None |}, h)
               end)) = false -> data a' = data a).
Proof.
  destruct msg as [|payload|error|]; cbn [handleWorkerMessage].
  - cbn [fst]. split; [by left|]. by repeat split.
  - destruct (validatePayload h payload) as [v h1] eqn:Hval. cbn [fst].
    destruct (ok v) eqn:Hok; cbn [negb]; cbv iota.
    + destruct (mapM _ _) as [visits|]; cbn [fst].
      * split; [right; exists payload; rewrite Hval; by repeat split|].
        by repeat split.
      * split; [by left|]. by repeat split.
    + split; [by left|]. by repeat split.
  - cbn [fst]. split; [by left|]. by repeat split.
  - cbn [fst]. split; [by left|]. by repeat split.
Qed.

(** ** Error mapping: the first key that occurs *)

Lemma first_entry_none (entries : list (string * string)) (technical : string) :
  first_entry entries technical = None ↔
  forall key msg, (key, msg) ∈ entries → JsString.includes key technical = false.
Proof.
  induction entries as [|[k m] entries IH]; cbn [first_entry].
  - split; [|done]. intros _ key msg Hin. by apply elem_of_nil in Hin.
  - destruct (JsString.includes k technical) eqn:Hinc.
    + split; [discriminate|]. intros Hall.
      rewrite (Hall k m) in Hinc by apply list_elem_of_here. discriminate.
    + rewrite IH. split.
      * intros Hall key msg Hin. apply elem_of_cons in Hin as [[= -> ->]|Hin]; eauto.
      * intros Hall key msg Hin. apply (Hall key msg). by apply list_elem_of_further.
Qed.

Lemma first_entry_some (entries : list (string * string)) (technical msg : string) :
  first_entry entries technical = Some msg →
  exists before key after,
    entries = (before ++ (key, msg) :: after)%list
    ∧ JsString.includes key technical = true
    ∧ forall e, e ∈ before → JsString.includes (fst e) technical = false.
Proof.
  induction entries as [|[k m] entries IH]; cbn [first_entry]; [discriminate|].
  destruct (JsString.includes k technical) eqn:Hinc.
  - intros [= ->]. exists [], k, entries. split; [done|]. split; [done|].
    intros e He. by apply elem_of_nil in He.
  - intros Hfirst. destruct (IH Hfirst) as (before & key & after & -> & Hkey & Hbefore).
    exists ((k, m) :: before), key, after. split; [done|]. split; [done|].
    intros e He. apply elem_of_cons in He as [->|He]; [done|]. by apply Hbefore.
Qed.

(** X10: [mapErrorToUser] gives the generic message exactly for the texts
    that contain no key of the map as a substring, letter case included;
    for every other text it gives the message of the first key, in the order
    of the map, that occurs in it, wherever in the text the key stands. *)
Theorem mapErrorToUser_first_key (technical : string) :
  (mapErrorToUser technical = GENERIC_MESSAGE <->
   forall key msg pre post,
     (key, msg) ∈ ERROR_MAP -> technical <> pre ++ key ++ post)
  /\ (mapErrorToUser technical <> GENERIC_MESSAGE ->
      exists before key after,
        ERROR_MAP = (before ++ (key, mapErrorToUser technical) :: after)%list
        /\ (exists pre post, technical = pre ++ key ++ post)
        /\ forall e pre post, e ∈ before -> technical <> pre ++ fst e ++ post).
Proof.
  unfold mapErrorToUser.
  destruct (first_entry ERROR_MAP technical) as [msg|] eqn:Hfirst.
  - destruct (first_entry_some _ _ _ Hfirst) as (before & key & after & Hmap & Hkey & Hbefore).
    assert (Hmsg : msg <> GENERIC_MESSAGE).
    { assert (Hin : (key, msg) ∈ ERROR_MAP) by (rewrite Hmap; set_solver).
      unfold ERROR_MAP in Hin.
      repeat (apply elem_of_cons in Hin as [[= _ ->]|Hin]; [discriminate|]).
      by apply elem_of_nil in Hin. }
    split.
    + split; [done|]. intros Hnone. exfalso.
      apply includes_spec in Hkey as (pre & post & Heq).
      apply (Hnone key msg pre post); [|done]. rewrite Hmap. set_solver.
    + intros _. exists before, key, after. split; [done|].
      split; [by apply includes_spec|].
      intros e pre post He Heq. specialize (Hbefore e He).
      assert (Hinc : JsString.includes (fst e) technical = true)
        by (apply includes_spec; eauto).
      congruence.
  - split; [|done]. split; [|done]. intros _ key msg pre post Hin Heq.
    pose proof (proj1 (first_entry_none _ _) Hfirst key msg Hin) as Hnot.
    assert (Hinc : JsString.includes key technical = true)
      by (apply includes_spec; eauto).
    congruence.
Qed.

(** A key is found inside a longer text of the engine. *)
Lemma mapErrorToUser_inside_text :
  mapErrorToUser "no such table: WORKER BUSY" = "System busy. Please wait.".
Proof. reflexivity. Qed.

(** ** Counts, hours and dates *)

Section Totals.

Lemma list_sum_cons (n : nat) (l : list nat) : list_sum (n :: l) = (n + list_sum l)%nat.
Proof. reflexivity. Qed.

Lemma total_rows_bump v g : total_rows (Sql.bump v g) = S (total_rows g).
Proof.
  unfold total_rows. induction g as [|[k n] g IH]; [done|].
  cbn [Sql.bump]. destruct (Sql.eqb k v); cbn [map snd]; rewrite !list_sum_cons;
    [done|].
  rewrite IH. lia.
Qed.

Lemma total_rows_group_count vals : total_rows (Sql.group_count vals) = length vals.
Proof.
  induction vals as [|v p IH] using rev_ind; [done|].
  rewrite group_count_snoc, total_rows_bump, IH, length_app. cbn [length]. lia.
Qed.

Lemma total_rows_perm g g' : g ≡ₚ g' → total_rows g = total_rows g'.
Proof.
  unfold total_rows. induction 1 as [|x g g' _ IH|x y g|g g' g'' _ IH1 _ IH2];
    cbn [map]; rewrite ?list_sum_cons; try done; lia.
Qed.

Lemma total_rows_take_drop n g :
  total_rows g = (total_rows (take n g) + total_rows (drop n g))%nat.
Proof.
  unfold total_rows. rewrite <- (take_drop n g) at 1.
  by rewrite map_app, list_sum_app.
Qed.

Lemma total_rows_positive g :
  Forall (fun a => (0 < snd a)%nat) g → g ≠ [] → (0 < total_rows g)%nat.
Proof.
  unfold total_rows. destruct 1 as [|a g Ha Hg]; [done|]. intros _.
  cbn [map]. rewrite list_sum_cons. lia.
Qed.

(** The rows of the grouped query count no row twice, and all of them when
    the groups are within the limit. *)
Lemma total_rows_grouped (E : sql_engine) vals :
  sql_conforming E →
  let rows := take MAX_GROUP_ROWS (order_by_count_desc E (Sql.group_count vals)) in
  (total_rows rows <= length vals)%nat
  ∧ (total_rows rows = length vals ↔
     (length (Sql.group_count vals) <= MAX_GROUP_ROWS)%nat).
Proof.
  intros HE rows.
  pose proof (order_by_count_desc_perm E HE (Sql.group_count vals)) as Hperm.
  pose proof (total_rows_perm _ _ Hperm) as Htotal.
  rewrite total_rows_group_count in Htotal.
  rewrite (total_rows_take_drop MAX_GROUP_ROWS) in Htotal. fold rows in Htotal.
  rewrite <- (Permutation_length Hperm).
  split; [lia|]. split.
  - intros Heq.
    destruct (drop MAX_GROUP_ROWS (order_by_count_desc E (Sql.group_count vals)))
      as [|a rest] eqn:Hdrop.
    + apply (f_equal length) in Hdrop. rewrite length_drop in Hdrop.
      cbn [length] in Hdrop. lia.
    + assert (Hpos : (0 < total_rows (a :: rest))%nat).
      { apply total_rows_positive; [|done]. rewrite <- Hdrop. apply Forall_drop.
        rewrite Hperm. apply positive_group_count. }
      lia.
  - intros Hlen. rewrite drop_ge in Htotal by lia.
    change (total_rows []) with O in Htotal. lia.
Qed.

End Totals.

(** X11: under an engine that orders as SQL requires, the values of the
    state series, and of the operator series, add up to at most the number of
    rows of the table, and to exactly that number if and only if the column
    has no more than 50 distinct values: a NULL is counted as a group of its
    own, and the groups beyond the limit are dropped without a remainder
    entry. *)
Theorem group_counts_add_up
    (H : host) (E : sql_engine) (w : worker) (table col : string) (vals : list sqlval) :
  sql_conforming E ->
  select w table col = Ok vals ->
  exists states operators,
    buildStates H E w table col = Ok states
    /\ buildOperators H E w table col = Ok operators
    /\ (list_sum (map StateCount.value states) <= length vals)%nat
    /\ (list_sum (map OperatorCount.value operators) <= length vals)%nat
    /\ (list_sum (map StateCount.value states) = length vals <->
        (length (Sql.group_count vals) <= MAX_GROUP_ROWS)%nat)
    /\ (list_sum (map OperatorCount.value operators) = length vals <->
        (length (Sql.group_count vals) <= MAX_GROUP_ROWS)%nat).
Proof.
  intros HE Hsel.
  destruct (grouped_length E w table col vals Hsel) as (rows & Hg & Hrows).
  exists (map (state_entry H) rows), (map (operator_entry H) rows).
  rewrite (buildStates_rows H E w table col rows Hg).
  rewrite (buildOperators_rows H E w table col rows Hg).
  assert (Hs : map StateCount.value (map (state_entry H) rows) = map snd rows).
  { rewrite map_map. by apply map_ext. }
  assert (Ho : map OperatorCount.value (map (operator_entry H) rows) = map snd rows).
  { rewrite map_map. by apply map_ext. }
  rewrite Hs, Ho. fold (total_rows rows).
  destruct (total_rows_grouped E vals HE) as [Hle Hiff]. rewrite <- Hrows in Hle, Hiff.
  by repeat split; try apply Hiff.
Qed.

Lemma group_counts_add_up_witness :
  exists states operators,
    buildStates sample_host clinic_engine clinic_worker "patient_log" "status" = Ok states
    /\ buildOperators sample_host clinic_engine clinic_worker "patient_log" "status"
       = Ok operators
    /\ (list_sum (map StateCount.value states) <= length status_scenario)%nat
    /\ (list_sum (map OperatorCount.value operators) <= length status_scenario)%nat
    /\ (list_sum (map StateCount.value states) = length status_scenario <->
        (length (Sql.group_count status_scenario) <= MAX_GROUP_ROWS)%nat)
    /\ (list_sum (map OperatorCount.value operators) = length status_scenario <->
        (length (Sql.group_count status_scenario) <= MAX_GROUP_ROWS)%nat).
Proof.
  apply (group_counts_add_up sample_host clinic_engine clinic_worker "patient_log"
           "status" status_scenario).
  - apply sqlite_conforming.
  - reflexivity.
Defined.

(** Sixty distinct values: the fifty groups returned count fifty of the
    sixty rows. *)
Lemma crowded_counts_fall_short :
  (list_sum (map snd (take MAX_GROUP_ROWS
                        (order_by_count_desc crowded_engine
                           (Sql.group_count (map (fun i => SInteger (Z.of_nat i))
                                               (seq 0 60)))))) = 50)%nat.
Proof. vm_compute. reflexivity. Qed.



(** X13: [toSafeDate] never returns an invalid date when the clock of the
    page is within the range of [Date]: a valid [Date] is returned as it is,
    a number is read as seconds when below 1e10 and as milliseconds
    otherwise, any other value goes through the date parser, and whatever
    does not give a date is replaced by the present time. *)
Theorem toSafeDate_valid (parse : string -> option Z) (now : Z) (v : date_like) :
  Z.abs now <= 8640000000000000 ->
  (exists tv, toSafeDate parse now v = Some tv)
  /\ (forall tv, v = ADate (Some tv) -> toSafeDate parse now v = Some tv)
  /\ (forall x,
        v = ANumber x ->
        toSafeDate parse now v
        = match JsDate.TimeClip (if SFltb x (Num.of_Z 10000000000)
                                 then Num.mul x (Num.of_Z 1000) else x) with
          | Some tv => Some tv
          | None => Some now
          end)
  /\ (forall text,
        v = AOther text ->
        toSafeDate parse now v
        = match parse text with Some tv => Some tv | None => Some now end).
Proof.
  intros Hnow.
  assert (Hclip : JsDate.clip now = Some now).
  { unfold JsDate.clip. destruct (Z.abs now >? 8640000000000000) eqn:Hgt; [lia|done]. }
  split; [|split; [|split]].
  - destruct v as [[tv|]|x|text]; cbn [toSafeDate].
    + by exists tv.
    + destruct (parse "Invalid Date") as [tv|]; [by exists tv|by exists now].
    + destruct (JsDate.of_number _) as [tv|]; [by exists tv|by exists now].
    + destruct (parse text) as [tv|]; [by exists tv|by exists now].
  - by intros tv ->.
  - intros x ->. cbn [toSafeDate]. unfold JsDate.of_number, Num.gt.
    by destruct (JsDate.TimeClip _).
  - intros text ->. cbn [toSafeDate]. by destruct (parse text).
Qed.

Lemma toSafeDate_valid_witness :
  exists tv, toSafeDate (fun _ => None) 1700000000000 (AOther "yesterday") = Some tv.
Proof.
  apply (toSafeDate_valid (fun _ => None) 1700000000000 (AOther "yesterday")). lia.
Defined.

(** A count of seconds is read as seconds by the controller. *)
Lemma toSafeDate_seconds :
  toSafeDate (fun _ => None) 0 (ANumber (Num.of_Z 1700000000)) = Some 1700000000000.
Proof. vm_compute. reflexivity. Qed.

(** ** The controller and its worker in step *)

Ltac fields :=
  cbn [app page thread inbox outbox readers stage globals awaiting fst snd
       setStatus set_isProcessing set_data has_worker workerReady workerRestarts
       isProcessing SQL busy foldl perform with_app with_thread new_thread
       accepts_messages] in *.

Section Measured.
Implicit Types (a : app_state) (s : system).

Lemma measured_same a a' :
  workerReady a' = workerReady a → workerRestarts a' = workerRestarts a →
  measured a (a', []).
Proof. intros Hr Hn. unfold measured. cbn [fst snd]. by rewrite Hr, Hn. Qed.

Lemma measured_eq a a' r :
  workerReady a' = workerReady a → workerRestarts a' = workerRestarts a →
  measured a' r → measured a r.
Proof. intros Hr Hn. unfold measured. by rewrite Hr, Hn. Qed.

Lemma measured_maybeRestartWorker a : measured a (maybeRestartWorker a).
Proof.
  unfold measured, maybeRestartWorker, initWorker.
  destruct (MAX_WORKER_RESTARTS <=? workerRestarts a)%nat eqn:Hle;
    cbn [fst snd workerReady workerRestarts].
  - by repeat split.
  - split; [done|]. split.
    + intros _. apply Nat.leb_gt in Hle. lia.
    + by apply Forall_singleton.
Qed.

Lemma measured_handleFileUpload file a : measured a (handleFileUpload file a).
Proof.
  unfold handleFileUpload. destruct file as [bytes|]; [|by apply measured_same].
  destruct (isProcessing a); [by apply measured_same|].
  destruct (Z.of_nat (length bytes) >? MAX_FILE_BYTES) eqn:Hgt;
    [by apply measured_same|].
  cbv zeta. cbn [has_worker workerReady setStatus].
  destruct (negb (has_worker a) || negb (workerReady a)).
  - eapply measured_eq; [| |apply measured_maybeRestartWorker]; reflexivity.
  - unfold measured. cbn [fst snd]. split; [done|]. split; [done|].
    apply Forall_singleton. cbn [allowed]. unfold fits. lia.
Qed.

Lemma measured_onReadLoad bytes a : fits bytes → measured a (onReadLoad bytes a).
Proof.
  intros Hfits. unfold onReadLoad. destruct (has_worker a).
  - unfold measured. cbn [fst snd]. split; [done|]. split; [done|].
    apply Forall_singleton. by exists bytes.
  - by apply measured_same.
Qed.

Lemma measured_onReadError a : measured a (onReadError a).
Proof. by apply measured_same. Qed.

Lemma measured_onBootTimeout a : measured a (onBootTimeout a).
Proof.
  unfold onBootTimeout. cbv zeta. cbn [workerReady].
  destruct (workerReady a) eqn:Hr.
  - by apply measured_same.
  - eapply measured_eq; [| |apply measured_maybeRestartWorker]; by cbn.
Qed.

Lemma measured_onWorkerCrash key a : measured a (onWorkerCrash key a).
Proof.
  unfold onWorkerCrash. cbv zeta.
  eapply measured_eq; [| |apply measured_maybeRestartWorker]; by cbn.
Qed.

Lemma app_perform s act : app (perform s act) = app s.
Proof. by destruct act. Qed.

Lemma attuned_perform s act :
  attuned s → allowed (app s) act → attuned (perform s act).
Proof.
  intros [Hr Hp Hb Hrd Hin Hn] Hact. destruct act as [|bytes|req]; cbn [allowed] in Hact.
  - split; fields; try done.
    + congruence.
    + intros Hel. by apply elem_of_nil in Hel.
  - split; fields; try done. apply Forall_app. split; [done|]. by apply Forall_singleton.
  - split; fields; try done. destruct (accepts_messages (thread s)); [|done].
    apply Forall_app. split; [done|]. by apply Forall_singleton.
Qed.

Lemma attuned_foldl acts s :
  attuned s → Forall (allowed (app s)) acts → attuned (foldl perform s acts).
Proof.
  revert s. induction acts as [|act acts IH]; intros s Hat Hall; cbn [foldl]; [done|].
  apply Forall_cons in Hall as [Hact Hall]. apply IH.
  - by apply attuned_perform.
  - by rewrite app_perform.
Qed.

Lemma attuned_with_app s r :
  attuned s → measured (app s) r → attuned (with_app s r).
Proof.
  intros [Hr Hp Hb Hrd Hin Hn] (Hr' & Hn' & Hall). unfold with_app.
  apply attuned_foldl; [|done]. split; fields; auto.
Qed.

Lemma handleWorkerMessage_restarts (P : page_host) msg a h :
  workerRestarts (fst (handleWorkerMessage P msg a h)) = workerRestarts a.
Proof.
  destruct msg as [|payload|error|]; cbn [handleWorkerMessage]; try done.
  destruct (validatePayload h payload) as [v h1].
  destruct (negb (ok v)); [done|]. by destruct (mapM _ _).
Qed.

End Measured.

Section Attuned.
Context (H : host) (E : sql_engine) (P : page_host).
Implicit Types (s : system).

Lemma attuned_initial demo : attuned (initial demo).
Proof.
  split; cbn; try done.
  - intros Hel. by apply elem_of_nil in Hel.
  - unfold MAX_WORKER_RESTARTS. lia.
Qed.

Lemma attuned_readers s rs :
  attuned s → Forall fits rs →
  attuned {| app := app s; page := page s; thread := thread s; inbox := inbox s;
             outbox := outbox s; readers := rs |}.
Proof. intros [Hr Hp Hb Hrd Hin Hn] Hrs. split; fields; done. Qed.

Lemma attuned_posts s st w aw posts :
  attuned s →
  (SQL (globals (thread s)) = true → SQL w = true) →
  (READY ∈ posts → SQL w = true) →
  (busy w = true ↔ aw ≠ None) →
  attuned (with_thread s {| stage := st; globals := w; awaiting := aw |} posts).
Proof.
  intros [Hr Hp Hb Hrd Hin Hn] Hsql Hposts Hbusy. unfold with_thread.
  split; fields; try done.
  - auto.
  - intros Hel. apply elem_of_app in Hel as [Hel|Hel]; auto.
Qed.

Lemma attuned_step ev s s' :
  attuned s → step H E P ev s = Some s' → attuned s'.
Proof.
  intros Hat Hstep. destruct ev; unfold step in Hstep.
  - injection Hstep as <-. apply attuned_with_app; [done|].
    apply measured_handleFileUpload.
  - destruct (readers s !! i) as [bytes|] eqn:Hi; [|done].
    cbn [mbind option_bind] in Hstep. injection Hstep as <-.
    apply attuned_with_app.
    + apply attuned_readers; [done|]. apply Forall_delete, (at_readers _ Hat).
    + cbn [app]. apply measured_onReadLoad.
      by apply (Forall_lookup_1 _ _ _ _ (at_readers _ Hat) Hi).
  - destruct (readers s !! i) as [bytes|] eqn:Hi; [|done].
    cbn [mbind option_bind] in Hstep. injection Hstep as <-.
    apply attuned_with_app.
    + apply attuned_readers; [done|]. apply Forall_delete, (at_readers _ Hat).
    + apply measured_onReadError.
  - destruct (workerBootTimer (app s)); [|done]. injection Hstep as <-.
    apply attuned_with_app; [done|]. apply measured_onBootTimeout.
  - destruct (stage (thread s)) eqn:Hst; try done. injection Hstep as <-.
    apply attuned_with_app; [|apply measured_onWorkerCrash].
    destruct Hat as [Hr Hp Hb Hrd Hin Hn]. split; fields; done.
  - destruct (outbox s) as [|r rest] eqn:Hout; [done|].
    destruct (deliver r (page s)) as [msg h] eqn:Hdel.
    destruct (handleWorkerMessage P msg (app s) h) as [a h'] eqn:Hmsg.
    injection Hstep as <-.
    pose proof (flags_after_message P r (app s) (page s)) as Hflags.
    pose proof (handleWorkerMessage_restarts P msg (app s) h) as Hn'.
    rewrite Hdel in Hflags. cbn [fst snd] in Hflags. rewrite Hmsg in Hflags, Hn'.
    cbn [fst] in Hflags, Hn'. destruct Hflags as (_ & Hready & _).
    destruct Hat as [Hr Hp Hb Hrd Hin Hn]. rewrite Hout in Hp.
    split; fields; try done.
    + rewrite Hready. destruct r; auto. intros _. apply Hp. apply list_elem_of_here.
    + intros Hel. apply Hp. by apply list_elem_of_further.
    + by rewrite Hn'.
  - destruct (stage (thread s)) eqn:Hst; try done. injection Hstep as <-.
    apply attuned_posts; [done|done|done|]. cbn [busy]. apply (at_busy _ Hat).
  - destruct (stage (thread s)) eqn:Hst; try done. injection Hstep as <-.
    apply attuned_posts; [done|done| |apply (at_busy _ Hat)].
    intros Hel. apply list_elem_of_singleton in Hel. discriminate.
  - destruct (stage (thread s)) eqn:Hst; try done. injection Hstep as <-.
    apply attuned_posts; [done|done| |apply (at_busy _ Hat)].
    intros Hel. by apply elem_of_nil in Hel.
  - destruct (inbox s) as [|req rest] eqn:Hin; [done|].
    destruct (accepts_messages (thread s)) eqn:Hacc; [|done].
    assert (Hat0 : attuned {| app := app s; page := page s; thread := thread s;
                              inbox := rest; outbox := outbox s;
                              readers := readers s |}).
    { destruct Hat as [Hr Hp Hb Hrd Hin' Hn]. rewrite Hin in Hin'.
      apply Forall_cons in Hin' as [_ Hrest]. split; fields; done. }
    cbv zeta in Hstep. cbn [thread] in Hstep. unfold onmessage_begin in Hstep.
    destruct req as [buffer|].
    + destruct (busy (globals (thread s))) eqn:Hbusy.
      * injection Hstep as <-.
        apply (attuned_posts _ _ _ _ _ Hat0); cbn [thread]; [done| |].
        -- intros Hel. apply list_elem_of_singleton in Hel. discriminate.
        -- rewrite Hbusy. apply (at_busy _ Hat) in Hbusy. done.
      * cbv zeta in Hstep.
        pose proof (SQL_analyzeDatabase H E
                      {| SQL := SQL (globals (thread s)); db := db (globals (thread s));
                         busy := true; handles := handles (globals (thread s));
                         opened := opened (globals (thread s)) |} buffer) as Hsql.
        pose proof (busy_analyzeDatabase H E
                      {| SQL := SQL (globals (thread s)); db := db (globals (thread s));
                         busy := true; handles := handles (globals (thread s));
                         opened := opened (globals (thread s)) |} buffer) as Hb'.
        destruct (analyzeDatabase H E _ buffer) as [outcome w'].
        cbn [snd SQL busy] in Hsql, Hb'. injection Hstep as <-.
        apply (attuned_posts _ _ _ _ _ Hat0); cbn [thread].
        -- by rewrite Hsql.
        -- intros Hel. by apply elem_of_nil in Hel.
        -- by rewrite Hb'.
    + injection Hstep as <-.
      apply (attuned_posts _ _ _ _ _ Hat0); cbn [thread]; [done| |apply (at_busy _ Hat)].
      intros Hel. by apply elem_of_nil in Hel.
  - destruct (awaiting (thread s)) as [outcome|] eqn:Haw; [|done].
    unfold onmessage_resume in Hstep. injection Hstep as <-.
    apply attuned_posts; [done|done| |].
    + intros Hel. destruct outcome; apply list_elem_of_singleton in Hel; discriminate.
    + cbn [busy]. split; [discriminate|]. intros Hne. by destruct Hne.
Qed.

Lemma attuned_rtc s0 s : rtc (steps H E P) s0 s → attuned s0 → attuned s.
Proof.
  induction 1 as [|s0 s1 s2 [ev Hstep] Hrest IH]; [done|].
  intros Hat. apply IH. by eapply attuned_step.
Qed.

Lemma attuned_reachable s : reachable H E P s → attuned s.
Proof.
  intros [demo Hrtc]. eapply attuned_rtc; [done|]. apply attuned_initial.
Qed.

(** The reasons the analysis itself throws. *)
Lemma analysis_reason w r :
  analysis H E w = Throw (Reason r) → r = NO_TABLES_FOUND ∨ r = INVALID_SCHEMA.
Proof.
  unfold analysis, listTables.
  destruct (prepare w) as [d|e] eqn:Hprep; cbn [mbind result_bind].
  - destruct (length (table_names d) =? 0)%nat; [intros [= <-]; by left|].
    destruct (find _ (table_names d)) as [t|]; [|intros [= <-]; by right].
    destruct (String.eqb t ""); [intros [= <-]; by right|].
    intros Hagg. by destruct (foreign_aggregateTable H E w t r).
  - intros [= ->]. by destruct (foreign_prepare w r).
Qed.

End Attuned.

(** X14: in every state the page and its worker can reach, the controller
    has restarted its worker at most [MAX_WORKER_RESTARTS] times; a worker
    the controller takes for ready is running with sql.js initialised, as is
    a worker whose [READY] waits to be handled; and the worker is busy exactly
    while an analysis waits for its reply to be posted. *)
Theorem restart_budget (H : host) (E : sql_engine) (P : page_host) (s : system) :
  reachable H E P s ->
  (workerRestarts (app s) <= MAX_WORKER_RESTARTS)%nat
  /\ (workerReady (app s) = true ->
      SQL (globals (thread s)) = true /\ stage (thread s) = Running)
  /\ (READY ∈ outbox s -> SQL (globals (thread s)) = true)
  /\ (busy (globals (thread s)) = true <-> awaiting (thread s) <> None).
Proof.
  intros Hreach. pose proof (attuned_reachable H E P s Hreach) as Hat.
  pose proof (coherent_reachable H E P s Hreach) as Hco.
  split; [apply (at_restarts _ Hat)|]. split; [|split].
  - intros Hr. split; [by apply (at_ready _ Hat)|]. by destruct (co_ready _ Hco Hr).
  - apply (at_posted _ Hat).
  - apply (at_busy _ Hat).
Qed.

Lemma restart_budget_witness :
  (workerRestarts
     (app (system_or_initial (run sample_host clinic_engine identity_page
                                [BootTimer; BootTimer; FileSelected (Some one_byte)]
                                (initial ∅)))) <= MAX_WORKER_RESTARTS)%nat.
Proof.
  apply (restart_budget sample_host clinic_engine identity_page).
  apply (run_reachable sample_host clinic_engine identity_page
           [BootTimer; BootTimer; FileSelected (Some one_byte)] (initial ∅)).
  - exists ∅. apply rtc_refl.
  - vm_compute. reflexivity.
Defined.

(** Two boot timeouts and a file selected: one restart, and no more. *)
Lemma one_restart_only :
  workerRestarts
    (app (system_or_initial (run sample_host clinic_engine identity_page
                               [BootTimer; BootTimer; FileSelected (Some one_byte)]
                               (initial ∅)))) = 1%nat.
Proof. vm_compute. reflexivity. Qed.

(** X15: in every state the page and its worker can reach, a request that
    waits at the worker is the only one, carries a buffer within the cap of
    the worker, and finds the worker initialised and not busy: the worker
    starts the analysis, and of its guards only [EMPTY_FILE] can fire, never
    [WORKER_BUSY], [WORKER_NOT_READY] or [FILE_EXCEEDS_CAPACITY]. *)
Theorem requests_pass_guards
    (H : host) (E : sql_engine) (P : page_host) (s : system)
    (req : request) (rest : list request) :
  reachable H E P s ->
  inbox s = req :: rest ->
  let w := globals (thread s) in
  rest = [] /\ SQL w = true /\ busy w = false
  /\ exists bytes,
       req = ANALYZE (Some bytes)
       /\ Z.of_nat (length bytes) <= MAX_DB_BYTES
       /\ exists outcome w',
            onmessage_begin H E w req = (Awaiting outcome, w')
            /\ outcome <> Throw (Reason WORKER_BUSY)
            /\ outcome <> Throw (Reason WORKER_NOT_READY)
            /\ outcome <> Throw (Reason FILE_EXCEEDS_CAPACITY)
            /\ (outcome = Throw (Reason EMPTY_FILE) <-> bytes = []).
Proof.
  intros Hreach Hin w.
  pose proof (attuned_reachable H E P s Hreach) as Hat.
  pose proof (coherent_reachable H E P s Hreach) as Hco.
  destruct (isProcessing (app s)) eqn:Hp.
  2: { destruct (co_idle _ Hco Hp) as (_ & Hin' & _). congruence. }
  destruct (coherent_ready s Hco Hp) as (Hr & Hst & Hall).
  pose proof (co_one_job _ Hco Hp) as Hjob. unfold jobs_in_flight in Hjob.
  rewrite Hin in Hjob. cbn [length] in Hjob.
  assert (rest = []) as -> by (apply nil_length_inv; lia).
  assert (awaiting (thread s) = None) as Haw
    by (destruct (awaiting (thread s)); [lia|done]).
  assert (Hsql : SQL w = true) by (by apply (at_ready _ Hat)).
  assert (Hbusy : busy w = false).
  { destruct (busy w) eqn:Hb; [|done]. by apply (at_busy _ Hat) in Hb. }
  pose proof (at_inbox _ Hat) as Hsized. rewrite Hin in Hsized.
  apply Forall_cons in Hsized as [(bytes & -> & Hfits) _].
  split; [done|]. split; [done|]. split; [done|]. exists bytes. split; [done|].
  split; [exact Hfits|].
  unfold onmessage_begin. rewrite Hbusy. cbv zeta.
  destruct bytes as [|b bytes].
  - unfold analyzeDatabase. cbn [SQL]. rewrite Hsql. cbn [negb length Nat.eqb].
    cbv iota. eexists _, _. split; [reflexivity|]. by repeat split.
  - rewrite analyzeDatabase_admitted; [|exact Hsql|split; [done|exact Hfits]].
    eexists _, _. split; [reflexivity|].
    repeat split; try done;
      intros Heq; apply analysis_reason in Heq as [Heq|Heq]; discriminate.
Qed.

Lemma requests_pass_guards_witness :
  let s := system_or_initial (run sample_host clinic_engine identity_page one_request
                                (initial ∅)) in
  let w := globals (thread s) in
  ([] : list request) = [] /\ SQL w = true /\ busy w = false
  /\ exists bytes,
       ANALYZE (Some one_byte) = ANALYZE (Some bytes)
       /\ Z.of_nat (length bytes) <= MAX_DB_BYTES
       /\ exists outcome w',
            onmessage_begin sample_host clinic_engine w (ANALYZE (Some one_byte))
            = (Awaiting outcome, w')
            /\ outcome <> Throw (Reason WORKER_BUSY)
            /\ outcome <> Throw (Reason WORKER_NOT_READY)
            /\ outcome <> Throw (Reason FILE_EXCEEDS_CAPACITY)
            /\ (outcome = Throw (Reason EMPTY_FILE) <-> bytes = []).
Proof.
  intros s.
  apply (requests_pass_guards sample_host clinic_engine identity_page s
           (ANALYZE (Some one_byte)) []).
  - apply (run_reachable sample_host clinic_engine identity_page one_request (initial ∅)).
    + exists ∅. apply rtc_refl.
    + vm_compute. reflexivity.
  - vm_compute. reflexivity.
Defined.

(** X16: [handleFileUpload] starts a read exactly for a file that is present
    and within the limit, selected while the controller is not processing and
    holds a worker that has reported ready; the controller is processing
    afterwards exactly when it was before or a read has started; nothing is
    posted to the worker by the selection itself; and a file above the limit
    is turned down whatever the state of the worker. *)
Theorem handleFileUpload_starts_read
    (file : option (list Byte.byte)) (a : app_state) :
  let r := handleFileUpload file a in
  (forall bytes,
      StartRead bytes ∈ snd r <->
      file = Some bytes /\ isProcessing a = false /\ fits bytes
      /\ has_worker a = true /\ workerReady a = true)
  /\ (isProcessing (fst r) = true <->
      isProcessing a = true \/ exists bytes, StartRead bytes ∈ snd r)
  /\ (forall req, PostToWorker req ∉ snd r)
  /\ (forall bytes,
        file = Some bytes -> isProcessing a = false -> oversize bytes ->
        r = (setStatus INVALID "File too large" a, [])).
Proof.
  cbv zeta. unfold handleFileUpload, fits, oversize.
  destruct file as [bytes|].
  2: { cbn [fst snd]. split; [|split; [|split]].
       - intros bytes. split; [intros Hel; by apply elem_of_nil in Hel|].
         by intros [? _].
       - split; [by left|]. intros [?|(bytes & Hel)]; [done|].
         by apply elem_of_nil in Hel.
       - intros req Hel. by apply elem_of_nil in Hel.
       - by intros bytes. }
  destruct (isProcessing a) eqn:Hp.
  { cbn [fst snd]. split; [|split; [|split]].
    - intros bytes'. split; [intros Hel; by apply elem_of_nil in Hel|].
      by intros (_ & ? & _).
    - split; [by left|]. by intros _.
    - intros req Hel. by apply elem_of_nil in Hel.
    - by intros bytes'. }
  destruct (Z.of_nat (length bytes) >? MAX_FILE_BYTES) eqn:Hgt.
  { cbn [fst snd setStatus isProcessing]. split; [|split; [|split]].
    - intros bytes'. split; [intros Hel; by apply elem_of_nil in Hel|].
      intros ([= <-] & _ & Hfits & _). lia.
    - rewrite Hp. split; [by left|]. intros [?|(bytes' & Hel)]; [done|].
      by apply elem_of_nil in Hel.
    - intros req Hel. by apply elem_of_nil in Hel.
    - by intros bytes'. }
  cbv zeta. cbn [has_worker workerReady setStatus].
  destruct (negb (has_worker a) || negb (workerReady a)) eqn:Hnot.
  - assert (Hno : has_worker a = true ∧ workerReady a = true → False).
    { intros [Hw Hr]. rewrite Hw, Hr in Hnot. discriminate. }
    destruct (maybeRestartWorker_cases
                (setStatus INVALID "System initializing"
                   (setStatus RECEIVED "File received" a)))
      as [->|(a' & -> & _ & _ & Hp')]; cbn [fst snd].
    + cbn [setStatus isProcessing]. rewrite Hp. split; [|split; [|split]].
      * intros bytes'. split; [intros Hel; by apply elem_of_nil in Hel|].
        intros (_ & _ & _ & Hw & Hr). by destruct Hno.
      * split; [by left|]. intros [?|(bytes' & Hel)]; [done|].
        by apply elem_of_nil in Hel.
      * intros req Hel. by apply elem_of_nil in Hel.
      * intros bytes' [= <-] _ Hbig. lia.
    + cbn [setStatus isProcessing] in Hp'. rewrite Hp', Hp. split; [|split; [|split]].
      * intros bytes'. split.
        -- intros Hel. apply list_elem_of_singleton in Hel. discriminate.
        -- intros (_ & _ & _ & Hw & Hr). by destruct Hno.
      * split; [by left|]. intros [?|(bytes' & Hel)]; [done|].
        apply list_elem_of_singleton in Hel. discriminate.
      * intros req Hel. apply list_elem_of_singleton in Hel. discriminate.
      * intros bytes' [= <-] _ Hbig. lia.
  - apply orb_false_iff in Hnot as [Hw Hr].
    apply negb_false_iff in Hw, Hr. cbn [fst snd setStatus set_isProcessing isProcessing].
    split; [|split; [|split]].
    + intros bytes'. rewrite list_elem_of_singleton. split.
      * intros [= ->]. repeat split; try done. lia.
      * by intros ([= ->] & _).
    + split; [|done]. intros _. right. exists bytes. by apply list_elem_of_singleton.
    + intros req Hel. apply list_elem_of_singleton in Hel. discriminate.
    + intros bytes' [= <-] _ Hbig. lia.
Qed.

Lemma huge_file_oversize : oversize huge_file.
Proof.
  unfold oversize, huge_file. rewrite repeat_length, Z2Nat.id; unfold MAX_FILE_BYTES; lia.
Qed.

(** A file of one byte too many is turned down, and the selection changes
    nothing but the status shown. *)
Lemma huge_file_turned_down (a : app_state) :
  isProcessing a = false ->
  handleFileUpload (Some huge_file) a = (setStatus INVALID "File too large" a, []).
Proof.
  intros Hp. unfold handleFileUpload. rewrite Hp.
  pose proof huge_file_oversize as Hbig. unfold oversize in Hbig.
  destruct (Z.of_nat (length huge_file) >? MAX_FILE_BYTES) eqn:Hgt; [done|lia].
Qed.

(** ** After the restart budget *)

(** X17: once the script of the worker has crashed with the restart budget
    spent, no event brings the worker back: every event that can still occur
    leaves the worker dead, the budget spent and the controller without a
    ready worker, starts no read, posts nothing, and leaves the data on
    display as it was; a file selected from then on is only answered with a
    status message. *)
Theorem stranded_forever
    (H : host) (E : sql_engine) (P : page_host) (ev : event) (s s' : system) :
  stranded s ->
  step H E P ev s = Some s' ->
  stranded s' /\ thread s' = thread s /\ data (app s') = data (app s)
  /\ page s' = page s.
Proof.
  intros (Hst & Hr & Hn & Hp & Hrd & Hin & Hout & Haw) Hstep.
  assert (Hspent : forall a,
            workerRestarts a = workerRestarts (app s) →
            maybeRestartWorker a = (a, [])).
  { intros a Ha. unfold maybeRestartWorker. by rewrite Ha, Hn. }
  destruct ev; unfold step in Hstep.
  - injection Hstep as <-. unfold handleFileUpload.
    destruct file as [bytes|]; [|by repeat split].
    rewrite Hp. destruct (Z.of_nat (length bytes) >? MAX_FILE_BYTES); [by repeat split|].
    cbv zeta. cbn [has_worker workerReady setStatus]. rewrite Hr, orb_true_r.
    rewrite Hspent by done. by repeat split.
  - rewrite Hrd in Hstep. done.
  - rewrite Hrd in Hstep. done.
  - destruct (workerBootTimer (app s)); [|done]. injection Hstep as <-.
    unfold onBootTimeout. cbv zeta. cbn [workerReady]. rewrite Hr.
    rewrite Hspent by done. by repeat split.
  - rewrite Hst in Hstep. done.
  - rewrite Hout in Hstep. done.
  - rewrite Hst in Hstep. done.
  - rewrite Hst in Hstep. done.
  - rewrite Hst in Hstep. done.
  - rewrite Hin in Hstep. done.
  - rewrite Haw in Hstep. done.
Qed.

Lemma stranded_forever_witness :
  let s := system_or_initial (run sample_host clinic_engine identity_page two_crashes
                                (initial ∅)) in
  let s' := with_app s (handleFileUpload (Some one_byte) (app s)) in
  stranded s' /\ thread s' = thread s /\ data (app s') = data (app s)
  /\ page s' = page s.
Proof.
  intros s s'.
  apply (stranded_forever sample_host clinic_engine identity_page
           (FileSelected (Some one_byte)) s s').
  - unfold stranded. repeat split; vm_compute; reflexivity.
  - reflexivity.
Defined.

(** The state after the two crashes can be reached, and the file selected
    there is answered with the status of a system that initialises. *)
Lemma two_crashes_strand :
  run sample_host clinic_engine identity_page two_crashes (initial ∅)
  <> None
  /\ message
       (app (system_or_initial
               (run sample_host clinic_engine identity_page
                  (two_crashes ++ [FileSelected (Some one_byte)])%list (initial ∅))))
     = "System initializing".
Proof. split; [vm_compute; discriminate|vm_compute; reflexivity]. Qed.
